(** * krakncat: account store, SSH artifacts and git configuration

    A shallow embedding of the Go package [cmd] of krakncat and the
    properties of its account store, key-suffix derivation, SSH key
    generation, conditional includes, identity switching and discovery
    scan.

    Go strings are byte strings ([string]); slices are lists; the file
    system is a finite map from paths to nodes; the external programs
    [git] and [ssh-keygen] are oracles carried by an environment record. *)

From Stdlib Require Import String Ascii ZArith List Lia Bool.
From Stdlib Require DecimalString DecimalNat.
From stdpp Require Import base option gmap list strings.

#[local] Arguments String.append : simpl nomatch.

(** ** Package [strings]

    The functions of Go's [strings] package that the sources call.
    Lengths and indices count bytes, as in Go. *)

(** [strings.HasPrefix(s, prefix)]. *)
Fixpoint HasPrefix (s prefix : string) {struct prefix} : bool :=
  match prefix with
  | EmptyString => true
  | String p prefix' =>
      match s with
      | EmptyString => false
      | String c s' => if Ascii.eqb c p then HasPrefix s' prefix' else false
      end
  end.

(** The rest of [s] behind [prefix], when [s] starts with it. *)
Fixpoint CutPrefix (s prefix : string) {struct prefix} : option string :=
  match prefix with
  | EmptyString => Some s
  | String p prefix' =>
      match s with
      | EmptyString => None
      | String c s' => if Ascii.eqb c p then CutPrefix s' prefix' else None
      end
  end.

(** [strings.TrimPrefix(s, prefix)]: [s] without the leading [prefix],
    or [s] itself when it does not start with [prefix]. *)
Definition TrimPrefix (s prefix : string) : string :=
  match CutPrefix s prefix with
  | Some rest => rest
  | None => s
  end.

(** [strings.HasSuffix(s, suffix)]. *)
Fixpoint HasSuffix (s suffix : string) : bool :=
  if String.eqb s suffix then true
  else match s with
       | EmptyString => false
       | String _ s' => HasSuffix s' suffix
       end.

(** [strings.Contains(s, substr)]. *)
Fixpoint Contains (s substr : string) : bool :=
  if HasPrefix s substr then true
  else match s with
       | EmptyString => false
       | String _ s' => Contains s' substr
       end.

(** [strings.Split(s, sep)] for a separator of one byte, which is all
    the sources use (newline, dot, dash, comma and equals sign). *)
Fixpoint Split (s : string) (sep : ascii) : list string :=
  match s with
  | EmptyString => [EmptyString]
  | String c s' =>
      if Ascii.eqb c sep then EmptyString :: Split s' sep
      else match Split s' sep with
           | part :: parts => String c part :: parts
           | [] => [String c EmptyString]
           end
  end.

(** [strings.Join(elems, sep)]. *)
Fixpoint Join (elems : list string) (sep : string) : string :=
  match elems with
  | [] => EmptyString
  | [e] => e
  | e :: rest => e +:+ sep +:+ Join rest sep
  end.

(** The white space of one byte that [strings.TrimSpace] removes: tab,
    line feed, vertical tab, form feed, carriage return, space. *)
Definition isSpace (c : ascii) : bool :=
  let n := nat_of_ascii c in
  ((9 <=? n) && (n <=? 13)) || (n =? 32).

(** The white space of two bytes, in UTF-8: U+0085 (next line) and
    U+00A0 (no-break space). *)
Definition isSpace2 (c1 c2 : ascii) : bool :=
  let n1 := nat_of_ascii c1 in
  let n2 := nat_of_ascii c2 in
  (n1 =? 194) && ((n2 =? 133) || (n2 =? 160)).

(** The white space of three bytes, in UTF-8: U+1680, U+2000 to U+200A,
    U+2028, U+2029, U+202F, U+205F and U+3000.  With the two above this
    is [unicode.IsSpace]. *)
Definition isSpace3 (c1 c2 c3 : ascii) : bool :=
  let n1 := nat_of_ascii c1 in
  let n2 := nat_of_ascii c2 in
  let n3 := nat_of_ascii c3 in
  ((n1 =? 225) && (n2 =? 154) && (n3 =? 128))
  || ((n1 =? 226) && (n2 =? 128)
      && (((128 <=? n3) && (n3 <=? 138))
          || (n3 =? 168) || (n3 =? 169) || (n3 =? 175)))
  || ((n1 =? 226) && (n2 =? 129) && (n3 =? 159))
  || ((n1 =? 227) && (n2 =? 128) && (n3 =? 128)).

(** [strings.TrimLeftFunc(s, unicode.IsSpace)]: the leading white space
    is removed rune by rune; a byte that does not start the encoding of
    a white-space rune ends it. *)
Fixpoint TrimLeftSpace (s : string) : string :=
  match s with
  | EmptyString => EmptyString
  | String c1 r1 =>
      if isSpace c1 then TrimLeftSpace r1
      else
        match r1 with
        | EmptyString => s
        | String c2 r2 =>
            if isSpace2 c1 c2 then TrimLeftSpace r2
            else
              match r2 with
              | EmptyString => s
              | String c3 r3 =>
                  if isSpace3 c1 c2 c3 then TrimLeftSpace r3 else s
              end
        end
  end.

(** A byte below [utf8.RuneSelf], which is a rune of its own. *)
Definition isASCII (c : ascii) : bool := nat_of_ascii c <? 128.

(** Whether [s] is white space from its first to its last byte. *)
Definition allSpace (s : string) : bool :=
  String.eqb (TrimLeftSpace s) EmptyString.

(** [strings.TrimRightFunc(s, unicode.IsSpace)]: the trailing
    white-space runes are removed, which is the longest end of [s] that
    is white space throughout. *)
Fixpoint TrimRightSpace (s : string) : string :=
  match s with
  | EmptyString => EmptyString
  | String c s' => if allSpace s then EmptyString else String c (TrimRightSpace s')
  end.

(** [strings.TrimSpace(s)]: [s] without leading and trailing white
    space, as defined by Unicode. *)
Definition TrimSpace (s : string) : string :=
  TrimRightSpace (TrimLeftSpace s).

(** The slice expression [s[:n]] for [n <= len(s)]. *)
Fixpoint slice_to (n : nat) (s : string) : string :=
  match n, s with
  | S n', String c s' => String c (slice_to n' s')
  | _, _ => EmptyString
  end.

(** Line feed and tab, for the text the tool writes into files. *)
Definition LF : ascii := ascii_of_nat 10.
Definition TAB : ascii := ascii_of_nat 9.
Definition nl : string := String LF EmptyString.
Definition tab : string := String TAB EmptyString.

(** ** providers.go: key suffix of a custom provider *)

(** [generateKeySuffix] creates a short suffix for SSH key naming from a
    host name. *)
Definition generateKeySuffix (hostname : string) : string :=
  let hostname := TrimPrefix hostname "git." in
  let hostname := TrimPrefix hostname "code." in
  let hostname := TrimPrefix hostname "source." in
  let parts := Split hostname "." in
  if 2 <=? length parts then
    let suffix := nth 0 parts EmptyString in
    if 8 <? String.length suffix then slice_to 8 suffix else suffix
  else
    if 8 <? String.length hostname then slice_to 8 hostname else hostname.

(** The derivation in the words of the specification: strip the common
    prefixes, take the first dot-separated label, keep at most 8 bytes. *)
Fixpoint first_label (s : string) : string :=
  match s with
  | EmptyString => EmptyString
  | String c s' => if Ascii.eqb c "." then EmptyString else String c (first_label s')
  end.

Definition strip_common_prefixes (hostname : string) : string :=
  fold_left TrimPrefix ["git."; "code."; "source."] hostname.

Definition deriveKeySuffix_spec (hostname : string) : string :=
  String.substring 0 8 (first_label (strip_common_prefixes hostname)).

Definition has_dot (s : string) : bool := Contains s ".".

(** [strings.ToLower(s)] on ASCII text. *)
Definition lower (c : ascii) : ascii :=
  let n := nat_of_ascii c in
  if (65 <=? n) && (n <=? 90) then ascii_of_nat (n + 32) else c.

Fixpoint ToLower (s : string) : string :=
  match s with
  | EmptyString => EmptyString
  | String c s' => String (lower c) (ToLower s')
  end.

(** ** Package [path/filepath] (Unix) *)

(** One step of [filepath.Clean] over the elements of a path; [stack]
    holds the elements kept so far, last one first. *)
Definition clean_step (rooted : bool) (stack : list string) (elem : string)
  : list string :=
  if String.eqb elem EmptyString || String.eqb elem "." then stack
  else if String.eqb elem ".." then
    match stack with
    | top :: rest => if String.eqb top ".." then elem :: stack else rest
    | [] => if rooted then [] else [elem]
    end
  else elem :: stack.

(** [filepath.Clean(path)]. *)
Definition Clean (path : string) : string :=
  let rooted := HasPrefix path "/" in
  let body := Join (rev (fold_left (clean_step rooted) (Split path "/") [])) "/" in
  if rooted then "/" +:+ body
  else if String.eqb body EmptyString then "." else body.

(** [filepath.Join(elem...)]: the non-empty elements joined by a slash,
    then cleaned; the empty string when every element is empty. *)
Definition filepath_Join (elems : list string) : string :=
  match filter (fun e => e <> EmptyString) elems with
  | [] => EmptyString
  | es => Clean (Join es "/")
  end.

(** The bytes of [path] up to and including its last slash. *)
Fixpoint up_to_last_slash (path : string) : string :=
  match path with
  | EmptyString => EmptyString
  | String c rest =>
      if Contains rest "/" then String c (up_to_last_slash rest)
      else if Ascii.eqb c "/" then "/" else EmptyString
  end.

(** [filepath.Dir(path)]. *)
Definition filepath_Dir (path : string) : string :=
  Clean (up_to_last_slash path).

(** ** The process environment and the file system *)

(** A node of the file system: a regular file with its bytes and
    permission bits, or a directory with its permission bits.  Access is
    that of the owner; permission bits are recorded, not enforced. *)
Inductive node : Type :=
  | File (content : string) (mode : Z)
  | Dir (mode : Z).

(** Permission bits, written as three octal digits. *)
Definition octal (u g o : Z) : Z := (u * 64 + g * 8 + o)%Z.

(** The bits of [perm] that survive the process's file-creation mask. *)
Definition apply_umask (umask perm : Z) : Z := Z.land perm (Z.lnot umask).

(** ** root.go: accounts and the configuration store *)

Record Account : Type := {
  Name : string;
  Email : string;
  SSHKey : string;
  Username : string;
  IsDefault : bool;
}.

Record Config : Type := {
  Accounts : list Account;
  CurrentAccount : string;
  MigrationDone : bool;
}.

(** What a run of an external program yields: whether it exited with
    status zero, its standard output, and the file system it leaves. *)
Record process_result : Type := {
  exit_ok : bool;
  output : string;
  fs_after : gmap string node;
}.

(** What the tool takes from its surroundings: the user's home directory
    ([os.UserHomeDir], which can fail), the file-creation mask, the
    external programs ([git], [ssh-keygen]) as a function of their
    argument vector and the file system, and [encoding/json]. *)
Record environment : Type := {
  UserHomeDir : option string;
  umask : Z;
  run_process : list string -> gmap string node -> process_result;
  json_Unmarshal : string -> option Config;
  json_MarshalIndent : Config -> string;
}.

(** The state a command runs in: the file system, the lines still to be
    read from standard input, the text printed so far (oldest first) and
    the external commands run so far (oldest first). *)
Record world : Type := {
  fs : gmap string node;
  stdin : list string;
  stdout : list string;
  procs : list (list string);
}.

(** The places where the sources create an error value. *)
Inductive error : Type :=
  | ErrReadConfig
  | ErrParseConfig
  | ErrCreateConfigDir
  | ErrWriteConfig
  | ErrAccountNotFound (name : string)
  | ErrHomeDir
  | ErrCreateSSHDir
  | ErrCreateKeyDir (keyDir : string)
  | ErrKeyExists (keyPath : string)
  | ErrKeygen
  | ErrReadPublicKey
  | ErrOpenSSHConfig
  | ErrOpenGitconfig
  | ErrNotGitRepository (path : string)
  | ErrPathAndGlobal
  | ErrNoAccounts
  | ErrUnknownAccount (name : string) (available : list string)
  | ErrRunGit
  | ErrCreateGitconfig
  | ErrWrap (context : string) (e : error).

(** The error kinds of the specification. *)
Inductive ErrorKind : Type :=
  | NotFound | AlreadyExists | NotARepository | GitCommandFailed
  | GenerationFailed | IOFailure | Usage.

Fixpoint kind (e : error) : ErrorKind :=
  match e with
  | ErrAccountNotFound _ | ErrNoAccounts | ErrUnknownAccount _ _ => NotFound
  | ErrKeyExists _ => AlreadyExists
  | ErrNotGitRepository _ => NotARepository
  | ErrRunGit => GitCommandFailed
  | ErrKeygen => GenerationFailed
  | ErrPathAndGlobal => Usage
  | ErrWrap _ e' => kind e'
  | _ => IOFailure
  end.

(** A computation that reads and changes the world and either yields a
    value or stops with an error, as a Go function returning
    [(value, error)] does. *)
Inductive result (A : Type) : Type :=
  | Ok (a : A)
  | Err (e : error).
Arguments Ok {A} a.
Arguments Err {A} e.

Definition M (A : Type) : Type := world -> result A * world.

Definition ret {A} (a : A) : M A := fun w => (Ok a, w).
Definition fail {A} (e : error) : M A := fun w => (Err e, w).
Definition bind {A B} (m : M A) (k : A -> M B) : M B :=
  fun w => match m w with
           | (Ok a, w') => k a w'
           | (Err e, w') => (Err e, w')
           end.

Notation "'let!' x := m 'in' k" := (bind m (fun x => k))
  (at level 10, x name, m at level 100, k at level 200).
Notation "m >>> k" := (bind m (fun _ => k))
  (at level 100, k at level 200, right associativity).

(** [fmt.Errorf("...: %w", err)] around a call. *)
Definition wrap {A} (context : string) (m : M A) : M A :=
  fun w => match m w with
           | (Ok a, w') => (Ok a, w')
           | (Err e, w') => (Err (ErrWrap context e), w')
           end.

(** [fmt.Print] and friends. *)
Definition print (text : string) : M unit :=
  fun w => (Ok tt, {| fs := fs w; stdin := stdin w;
                      stdout := stdout w ++ [text]; procs := procs w |}).

(** [reader.ReadString('\n')] with its error dropped: the next line, or
    the empty string at the end of the input. *)
Definition readLine : M string :=
  fun w => match stdin w with
           | line :: rest =>
               (Ok line, {| fs := fs w; stdin := rest;
                            stdout := stdout w; procs := procs w |})
           | [] => (Ok EmptyString, w)
           end.

Definition set_fs (f : gmap string node) (w : world) : world :=
  {| fs := f; stdin := stdin w; stdout := stdout w; procs := procs w |}.

(** [exec.Command(argv...)] run to completion: the command is recorded
    and the file system is the one the program leaves. *)
Definition exec (env : environment) (argv : list string) : M process_result :=
  fun w => let r := run_process env argv (fs w) in
           (Ok r, {| fs := fs_after r; stdin := stdin w;
                     stdout := stdout w; procs := procs w ++ [argv] |}).

(** [os.Stat(path)] succeeds. *)
Definition exists_at (f : gmap string node) (path : string) : bool :=
  bool_decide (is_Some (f !! path)).

(** [os.ReadFile(path)]: the bytes of a regular file. *)
Definition ReadFile (f : gmap string node) (path : string) : option string :=
  match f !! path with
  | Some (File content _) => Some content
  | _ => None
  end.

(** The directories above [path], outermost first: its prefixes that end
    before a slash. *)
Fixpoint prefixes_before_slash (seen rest : string) : list string :=
  match rest with
  | EmptyString => []
  | String c rest' =>
      (if Ascii.eqb c "/" && negb (String.eqb seen EmptyString) then [seen] else [])
        ++ prefixes_before_slash (seen +:+ String c EmptyString) rest'
  end.

Definition ancestors (path : string) : list string :=
  prefixes_before_slash EmptyString path.

(** The directory a path lies in: the last of the directories above it.
    A path without one lies in the root or in the working directory,
    which are there. *)
Definition parentOf (path : string) : option string := last (ancestors path).

(** Whether an entry can be made at [path]: the directory it lies in
    exists and is a directory. *)
Definition parentIsDir (f : gmap string node) (path : string) : bool :=
  match parentOf path with
  | None => true
  | Some d => match f !! d with
              | Some (Dir _) => true
              | _ => false
              end
  end.

(** Whether a regular file stands where [path] needs a directory, so
    that the path cannot be followed ([ENOTDIR]). *)
Definition blocked (f : gmap string node) (path : string) : bool :=
  existsb (fun d => match f !! d with
                    | Some (File _ _) => true
                    | _ => false
                    end) (ancestors path).

(** [os.IsNotExist(err)] for the error of [os.Stat(path)]: nothing lies
    at the path, and no regular file stands in its way.  (With a regular
    file in the way [os.Stat] fails with another error.) *)
Definition notExist (f : gmap string node) (path : string) : bool :=
  match f !! path with
  | Some _ => false
  | None => negb (blocked f path)
  end.

(** Whether a directory has entries. *)
Definition hasEntries (f : gmap string node) (dir : string) : bool :=
  existsb (fun entry => bool_decide (parentOf (fst entry) = Some dir))
    (map_to_list f).

(** Create each directory of [dirs] that is missing, in order; stop with
    [None] at a regular file. *)
Fixpoint mkdir_chain (dirs : list string) (mode : Z) (f : gmap string node)
  : option (gmap string node) :=
  match dirs with
  | [] => Some f
  | d :: rest =>
      match f !! d with
      | Some (Dir _) => mkdir_chain rest mode f
      | Some (File _ _) => None
      | None => mkdir_chain rest mode (<[d := Dir mode]> f)
      end
  end.

(** [os.MkdirAll(path, perm)]: nothing to do for a directory, an error
    for a regular file; otherwise the directory and its missing parents
    are created with [perm] less the mask. *)
Definition MkdirAll (env : environment) (path : string) (perm : Z)
  (f : gmap string node) : option (gmap string node) :=
  match f !! path with
  | Some (Dir _) => Some f
  | Some (File _ _) => None
  | None => mkdir_chain (ancestors path ++ [path]) (apply_umask (umask env) perm) f
  end.

(** [os.OpenFile(path, O_APPEND|O_CREATE|O_WRONLY, perm)]: a missing file
    is created empty with [perm] less the mask, which needs the
    directory it lies in; a directory cannot be opened for writing. *)
Definition OpenFile_append (env : environment) (path : string) (perm : Z)
  (f : gmap string node) : option (gmap string node) :=
  match f !! path with
  | Some (File _ _) => Some f
  | Some (Dir _) => None
  | None =>
      if parentIsDir f path then
        Some (<[path := File EmptyString (apply_umask (umask env) perm)]> f)
      else None
  end.

(** [f.WriteString(text)] on a file opened for appending. *)
Definition WriteString (path : string) (text : string) (f : gmap string node)
  : gmap string node :=
  match f !! path with
  | Some (File content mode) => <[path := File (content +:+ text) mode]> f
  | _ => f
  end.

(** [os.WriteFile(path, data, perm)]: the file is created with [perm]
    less the mask, which needs the directory it lies in, or truncated
    and rewritten with its mode kept; a directory cannot be written. *)
Definition WriteFile (env : environment) (path : string) (data : string)
  (perm : Z) (f : gmap string node) : option (gmap string node) :=
  match f !! path with
  | Some (File _ mode) => Some (<[path := File data mode]> f)
  | Some (Dir _) => None
  | None =>
      if parentIsDir f path then
        Some (<[path := File data (apply_umask (umask env) perm)]> f)
      else None
  end.

(** [homeDir, _ := os.UserHomeDir()]: the empty string on failure. *)
Definition homeDir (env : environment) : string :=
  match UserHomeDir env with
  | Some h => h
  | None => EmptyString
  end.

Definition getConfigPath (env : environment) : string :=
  filepath_Join [homeDir env; ".krakncat"; "config.json"].

Definition ensureConfigDir (env : environment) : M unit :=
  fun w =>
    let configDir := filepath_Join [homeDir env; ".krakncat"] in
    match MkdirAll env configDir (octal 7 5 5) (fs w) with
    | Some f => (Ok tt, set_fs f w)
    | None => (Err ErrCreateConfigDir, w)
    end.

(** The store a first run starts from. *)
Definition emptyConfig : Config :=
  {| Accounts := []; CurrentAccount := EmptyString; MigrationDone := false |}.

Definition loadConfig (env : environment) : M Config :=
  fun w =>
    let configPath := getConfigPath env in
    if notExist (fs w) configPath then (Ok emptyConfig, w)
    else
      match ReadFile (fs w) configPath with
      | None => (Err ErrReadConfig, w)
      | Some data =>
          match json_Unmarshal env data with
          | None => (Err ErrParseConfig, w)
          | Some config => (Ok config, w)
          end
      end.

Definition saveConfig (env : environment) (c : Config) : M unit :=
  wrap "failed to create config directory" (ensureConfigDir env) >>>
  let data := json_MarshalIndent env c in
  let configPath := getConfigPath env in
  fun w =>
    match WriteFile env configPath data (octal 6 4 4) (fs w) with
    | Some f => (Ok tt, set_fs f w)
    | None => (Err ErrWriteConfig, w)
    end.

(** The index of the first account called [name]. *)
Fixpoint indexOfName (name : string) (accounts : list Account) : option nat :=
  match accounts with
  | [] => None
  | existing :: rest =>
      if String.eqb (Name existing) name then Some 0
      else S <$> indexOfName name rest
  end.

Definition setIsDefault (b : bool) (a : Account) : Account :=
  {| Name := Name a; Email := Email a; SSHKey := SSHKey a;
     Username := Username a; IsDefault := b |}.

Definition setAccounts (accounts : list Account) (c : Config) : Config :=
  {| Accounts := accounts; CurrentAccount := CurrentAccount c;
     MigrationDone := MigrationDone c |}.

Definition setCurrent (name : string) (c : Config) : Config :=
  {| Accounts := Accounts c; CurrentAccount := name;
     MigrationDone := MigrationDone c |}.

Definition setMigrationDone (b : bool) (c : Config) : Config :=
  {| Accounts := Accounts c; CurrentAccount := CurrentAccount c;
     MigrationDone := b |}.

(** What [addAccount] does to the store in memory before it saves. *)
Definition addAccount_store (account : Account) (c : Config) : Config :=
  match indexOfName (Name account) (Accounts c) with
  | Some i => setAccounts (<[i := account]> (Accounts c)) c
  | None =>
      let c := setAccounts (Accounts c ++ [account]) c in
      if length (Accounts c) =? 1 then
        let account := setIsDefault true account in
        let c := setCurrent (Name account) c in
        setAccounts (<[0 := account]> (Accounts c)) c
      else c
  end.

(** [(c *Config) addAccount(account)]: the receiver after the call, and
    the result of saving it. *)
Definition addAccount (env : environment) (account : Account) (c : Config)
  : Config * M unit :=
  let c' := addAccount_store account c in
  (c', saveConfig env c').

(** [(c *Config) getAccount(name)], with [None] for [nil]. *)
Fixpoint getAccount_in (accounts : list Account) (name : string) : option Account :=
  match accounts with
  | [] => None
  | account :: rest =>
      if String.eqb (Name account) name then Some account
      else getAccount_in rest name
  end.

Definition getAccount (c : Config) (name : string) : option Account :=
  getAccount_in (Accounts c) name.

(** [(c *Config) setCurrentAccount(name)]. *)
Definition setCurrentAccount (env : environment) (name : string) (c : Config)
  : Config * M unit :=
  match getAccount c name with
  | None => (c, fail (ErrAccountNotFound name))
  | Some _ => let c' := setCurrent name c in (c', saveConfig env c')
  end.

(** ** root.go: [useCmd], switching the identity *)

Definition isDir (f : gmap string node) (path : string) : bool :=
  match f !! path with
  | Some (Dir _) => true
  | _ => false
  end.

Definition isGitRepository (f : gmap string node) (path : string) : bool :=
  let gitDir := filepath_Join [path; ".git"] in
  isDir f gitDir.

(** The argument vector [setGitConfig] hands to [git]. *)
Definition setGitConfig_argv (key value repoPath : string) (global : bool)
  : list string :=
  if global then ["git"; "config"; "--global"; key; value]
  else ["git"; "-C"; repoPath; "config"; key; value].

Definition setGitConfig (env : environment) (key value repoPath : string)
  (global : bool) : M unit :=
  let! r := exec env (setGitConfig_argv key value repoPath global) in
  if exit_ok r then ret tt else fail ErrRunGit.

Definition println (text : string) : M unit := print (text +:+ nl).

(** The error of a command that was given an unknown account name. *)
Definition accountNotFound (config : Config) (accountName : string) : error :=
  if length (Accounts config) =? 0 then ErrNoAccounts
  else ErrUnknownAccount accountName (map Name (Accounts config)).

(** [RunE] of [useCmd], for [args = accountName :: rest] and the value of
    the [--global] flag. *)
Definition useCmd (env : environment) (accountName : string)
  (rest : list string) (globalFlag : bool) : M unit :=
  let! scope :=
    (match rest with
     | path :: _ =>
         if negb globalFlag then
           fun w => if negb (isGitRepository (fs w) path)
                    then (Err (ErrNotGitRepository path), w)
                    else (Ok (path, false), w)
         else fail ErrPathAndGlobal
     | [] => ret (EmptyString, true)
     end) in
  let repoPath := fst scope in
  let global := snd scope in
  let! config := wrap "failed to load config" (loadConfig env) in
  match getAccount config accountName with
  | None => fail (accountNotFound config accountName)
  | Some account =>
      wrap "failed to set git user.name"
        (setGitConfig env "user.name" (Username account) repoPath global) >>>
      wrap "failed to set git user.email"
        (setGitConfig env "user.email" (Email account) repoPath global) >>>
      (if global then
         wrap "failed to save config"
           (saveConfig env (setCurrent accountName config))
       else ret tt) >>>
      let scopeText :=
        if negb global then "for repository at " +:+ repoPath
        else if globalFlag then "globally (via --global flag)"
        else "globally" in
      println ("🎉 Successfully using: " +:+ accountName) >>>
      println ("✅ Switched to account '" +:+ accountName +:+ "' " +:+ scopeText) >>>
      println ("👤 Name: " +:+ Username account) >>>
      println ("📧 Email: " +:+ Email account) >>>
      println ("🔗 SSH Host: github.com-" +:+ accountName) >>>
      (if negb global then
         println (nl +:+ "💡 To clone repositories with this account, use:") >>>
         println ("   git clone git@github.com-" +:+ accountName
                    +:+ ":username/repo.git")
       else
         println (nl +:+ "💡 Global git configuration updated!") >>>
         println "   All new repositories will use this account by default")
  end.

(** ** root.go: [globalCmd], the global identity *)

Definition setGlobalGitConfig (env : environment) (key value : string) : M unit :=
  let! r := exec env ["git"; "config"; "--global"; key; value] in
  if exit_ok r then ret tt else fail ErrRunGit.

(** [RunE] of [globalCmd]. *)
Definition globalCmd (env : environment) (accountName : string) : M unit :=
  let! config := wrap "failed to load config" (loadConfig env) in
  match getAccount config accountName with
  | None => fail (accountNotFound config accountName)
  | Some account =>
      wrap "failed to set global git user.name"
        (setGlobalGitConfig env "user.name" (Username account)) >>>
      wrap "failed to set global git user.email"
        (setGlobalGitConfig env "user.email" (Email account)) >>>
      wrap "failed to save config"
        (saveConfig env (setCurrent accountName config)) >>>
      println ("✅ Global git configuration set to account '" +:+ accountName +:+ "'") >>>
      println ("👤 Name: " +:+ Username account) >>>
      println ("📧 Email: " +:+ Email account) >>>
      println ("🔗 SSH Host: github.com-" +:+ accountName)
  end.

(** ** root.go: [listCmd], the account listing *)

(** The marker [listCmd] prints behind the name of the current account. *)
Definition accountStatus (config : Config) (account : Account) : string :=
  if String.eqb (Name account) (CurrentAccount config) then " ✅ (current)"
  else EmptyString.

(** What the loop of [listCmd] prints for one account. *)
Definition printAccount (config : Config) (account : Account) : M unit :=
  println ("👤 " +:+ Name account +:+ accountStatus config account) >>>
  println ("   📧 Email: " +:+ Email account) >>>
  println ("   🔑 SSH Key: " +:+ SSHKey account) >>>
  println ("   🌐 GitHub: @" +:+ Username account) >>>
  println ("   🔗 SSH Host: github.com-" +:+ Name account) >>>
  println EmptyString.

Fixpoint forEach {A} (l : list A) (body : A -> M unit) : M unit :=
  match l with
  | [] => ret tt
  | x :: rest => body x >>> forEach rest body
  end.

(** The accounts [listCmd] shows as current. *)
Definition shownAsCurrent (config : Config) : list Account :=
  filter (fun account => accountStatus config account <> EmptyString)
    (Accounts config).

(** [getGitConfig], the listing's own copy of [getGitConfigValue]. *)
Definition getGitConfig_argv (key : string) (global : bool) : list string :=
  if global then ["git"; "config"; "--global"; "--get"; key]
  else ["git"; "config"; "--get"; key].

Definition getGitConfig (env : environment) (key : string) (global : bool)
  : M string :=
  fun w =>
    let r := run_process env (getGitConfig_argv key global) (fs w) in
    (Ok (if exit_ok r then TrimSpace (output r) else EmptyString),
     {| fs := fs_after r; stdin := stdin w; stdout := stdout w;
        procs := procs w ++ [getGitConfig_argv key global] |}).

Definition showGlobalConfig (env : environment) : M unit :=
  println "🌍 Global Git Configuration:" >>>
  let! globalUser := getGitConfig env "user.name" true in
  (if negb (String.eqb globalUser EmptyString) then
     println ("   👤 Name: " +:+ globalUser)
   else println "   ℹ️  No global git user configured") >>>
  let! globalEmail := getGitConfig env "user.email" true in
  if negb (String.eqb globalEmail EmptyString) then
    println ("   📧 Email: " +:+ globalEmail)
  else println "   ℹ️  No global git email configured".

(** [RunE] of [listCmd], for the value of the [--global] flag. *)
Definition listCmd (env : environment) (globalOnly : bool) : M unit :=
  if globalOnly then showGlobalConfig env
  else
    let! config := wrap "failed to load config" (loadConfig env) in
    if length (Accounts config) =? 0 then
      println "🚫 No accounts configured yet." >>>
      println "💡 Use 'krakn add' to add your first account."
    else
      println "📋 Configured GitHub accounts:" >>>
      println EmptyString >>>
      forEach (Accounts config) (printAccount config) >>>
      println "🔧 Current Git Configuration:" >>>
      let! gitUser := getGitConfig env "user.name" false in
      (if negb (String.eqb gitUser EmptyString) then
         println ("   👤 Name: " +:+ gitUser)
       else println "   ℹ️  No local git configuration") >>>
      let! gitEmail := getGitConfig env "user.email" false in
      (if negb (String.eqb gitEmail EmptyString) then
         println ("   📧 Email: " +:+ gitEmail)
       else ret tt) >>>
      println (nl +:+ "🌍 Global Git Configuration:") >>>
      let! globalUser := getGitConfig env "user.name" true in
      (if negb (String.eqb globalUser EmptyString) then
         println ("   👤 Name: " +:+ globalUser)
       else println "   ℹ️  No global git user configured") >>>
      let! globalEmail := getGitConfig env "user.email" true in
      if negb (String.eqb globalEmail EmptyString) then
        println ("   📧 Email: " +:+ globalEmail)
      else ret tt.

(** ** remove.go: removing an account *)

(** What [removeCmd] does to the store once the removal is confirmed. *)
Definition removeAccount_store (accountName : string) (config : Config) : Config :=
  let newAccounts :=
    filter (fun acc => Name acc <> accountName) (Accounts config) in
  let config := setAccounts newAccounts config in
  if String.eqb (CurrentAccount config) accountName then
    match Accounts config with
    | first :: _ => setCurrent (Name first) config
    | [] => setCurrent EmptyString config
    end
  else config.

(** [os.Remove(path)]: a file or an empty directory is removed; a
    directory with entries, or nothing at the path, is an error. *)
Definition Remove (path : string) (f : gmap string node)
  : option (gmap string node) :=
  match f !! path with
  | Some (File _ _) => Some (delete path f)
  | Some (Dir _) => if hasEntries f path then None else Some (delete path f)
  | None => None
  end.

Definition removeFile (path what : string) : M unit :=
  fun w =>
    match Remove path (fs w) with
    | None => println ("⚠️  Could not remove " +:+ what) w
    | Some f => println ("🗑️  Removed: " +:+ path) (set_fs f w)
    end.

(** [RunE] of [removeCmd]. *)
Definition removeCmd (env : environment) (accountName : string) : M unit :=
  let! config := wrap "failed to load config" (loadConfig env) in
  match getAccount config accountName with
  | None => fail (ErrUnknownAccount accountName (map Name (Accounts config)))
  | Some account =>
      print ("⚠️  Are you sure you want to remove account '" +:+ accountName
               +:+ "'? [y/N]: ") >>>
      let! resp := readLine in
      let resp := ToLower (TrimSpace resp) in
      if negb (String.eqb resp "y") && negb (String.eqb resp "yes") then
        println "❌ Account removal cancelled"
      else
        let config' := removeAccount_store accountName config in
        (if String.eqb (CurrentAccount config) accountName then
           if 0 <? length (Accounts config') then
             println ("🔄 Current account switched to '"
                        +:+ CurrentAccount config' +:+ "'")
           else println "📝 No accounts remaining"
         else ret tt) >>>
        wrap "failed to save config" (saveConfig env config') >>>
        println ("✅ Account '" +:+ accountName +:+ "' removed successfully") >>>
        (if negb (String.eqb (SSHKey account) EmptyString) then
           println (nl +:+ "💡 SSH key still exists at: " +:+ SSHKey account) >>>
           print "🗑️  Do you want to remove the SSH key files? [y/N]: " >>>
           let! resp := readLine in
           let resp := ToLower (TrimSpace resp) in
           if String.eqb resp "y" || String.eqb resp "yes" then
             removeFile (SSHKey account) "private key" >>>
             removeFile (SSHKey account +:+ ".pub") "public key"
           else ret tt
         else ret tt)
  end.

(** ** root.go: discovery of existing configuration *)

Module Discovered.
(** [DiscoveredAccount]: a potential account found during migration. *)
Record DiscoveredAccount : Type := {
  Name : string;
  Email : string;
  Username : string;
  Source : string;
  Suggested : bool;
}.
End Discovered.
Abbreviation DiscoveredAccount := Discovered.DiscoveredAccount.

(** The argument vector [getGitConfigValue] hands to [git]. *)
Definition getGitConfigValue_argv (key : string) (global : bool) : list string :=
  if global then ["git"; "config"; "--global"; "--get"; key]
  else ["git"; "config"; "--get"; key].

Definition getGitConfigValue (env : environment) (key : string) (global : bool)
  : M string :=
  let! r := exec env (getGitConfigValue_argv key global) in
  if exit_ok r then ret (TrimSpace (output r)) else ret EmptyString.

(** The variables of the loop of [discoverSSHAccounts]. *)
Record sshScan : Type := {
  currentHost : string;
  currentUser : string;
  accounts : list DiscoveredAccount;
}.

(** One round of the loop of [discoverSSHAccounts]. *)
Definition scanLine (st : sshScan) (line : string) : sshScan :=
  let line := TrimSpace line in
  if HasPrefix line "Host github.com-" then
    {| currentHost := TrimPrefix line "Host ";
       currentUser := EmptyString;
       accounts := accounts st |}
  else if HasPrefix line "User "
          && negb (String.eqb (currentHost st) EmptyString) then
    let user := TrimPrefix line "User " in
    let accountName := TrimPrefix (currentHost st) "github.com-" in
    if negb (String.eqb accountName EmptyString)
       && negb (String.eqb accountName "github.com") then
      {| currentHost := currentHost st;
         currentUser := user;
         accounts := accounts st ++
           [ {| Discovered.Name := EmptyString;
                Discovered.Email := EmptyString;
                Discovered.Username := user;
                Discovered.Source := "SSH Config (" +:+ currentHost st +:+ ")";
                Discovered.Suggested := false |} ] |}
    else
      {| currentHost := currentHost st; currentUser := user;
         accounts := accounts st |}
  else st.

(** [discoverSSHAccounts] parses [~/.ssh/config] for account hosts. *)
Definition discoverSSHAccounts (env : environment) (f : gmap string node)
  : list DiscoveredAccount :=
  match UserHomeDir env with
  | None => []
  | Some home =>
      let sshConfigPath := filepath_Join [home; ".ssh"; "config"] in
      match ReadFile f sshConfigPath with
      | None => []
      | Some content =>
          let lines := Split content LF in
          accounts (fold_left scanLine lines
                      {| currentHost := EmptyString;
                         currentUser := EmptyString;
                         accounts := [] |})
      end
  end.

(** [discoverExistingAccounts] looks for existing git and SSH
    configuration. *)
Definition discoverExistingAccounts (env : environment)
  : M (list DiscoveredAccount) :=
  let! globalUser := getGitConfigValue env "user.name" true in
  let! globalEmail := getGitConfigValue env "user.email" true in
  let discovered :=
    if negb (String.eqb globalUser EmptyString)
       || negb (String.eqb globalEmail EmptyString) then
      [ {| Discovered.Name := globalUser;
           Discovered.Email := globalEmail;
           Discovered.Username := EmptyString;
           Discovered.Source := "Global Git Config";
           Discovered.Suggested := true |} ]
    else [] in
  fun w =>
    let sshAccounts := discoverSSHAccounts env (fs w) in
    (Ok (discovered ++ sshAccounts), w).

(** What [checkAndOfferMigration] does to the store when nothing is
    found or the offer is declined. *)
Definition migrationSkipped_store (config : Config) : Config :=
  setMigrationDone true config.

(** What [checkAndOfferMigration] does to the store with the accounts
    [migrated] that [migrateAccount] returned for the user's selection. *)
Definition migrationImported_store (migrated : list Account) (config : Config)
  : Config :=
  let config := setAccounts (Accounts config ++ migrated) config in
  let config :=
    match Accounts config with
    | first :: _ => setCurrent (Name first) config
    | [] => config
    end in
  setMigrationDone true config.

(** What [migrateCmd] does to the store before it runs the offer again. *)
Definition migrateCmd_store (config : Config) : Config :=
  setMigrationDone false config.

(** ** remove.go: [generateSSHKey], SSH keys and the SSH client configuration *)

(** [ensureSSHDirectory] creates the [.ssh] directory if it does not
    exist, with proper permissions. *)
Definition ensureSSHDirectory (env : environment) : M unit :=
  fun w =>
    match UserHomeDir env with
    | None => (Err ErrHomeDir, w)
    | Some home =>
        let sshDir := filepath_Join [home; ".ssh"] in
        match MkdirAll env sshDir (octal 7 0 0) (fs w) with
        | Some f => (Ok tt, set_fs f w)
        | None => (Err ErrCreateSSHDir, w)
        end
    end.

(** [ensureSSHKeyDirectory] creates the directory for an SSH key path if
    it does not exist. *)
Definition ensureSSHKeyDirectory (env : environment) (keyPath : string) : M unit :=
  fun w =>
    let keyDir := filepath_Dir keyPath in
    match MkdirAll env keyDir (octal 7 0 0) (fs w) with
    | Some f => (Ok tt, set_fs f w)
    | None => (Err (ErrCreateKeyDir keyDir), w)
    end.

(** The command line of the key generation. *)
Definition sshKeygen_argv (email keyPath : string) : list string :=
  "ssh-keygen" ::
    ["-t"; "ed25519"; "-C"; email; "-f"; keyPath; "-q"; "-N"; EmptyString].

(** The first half of [generateSSHKey]: the directories, the check for an
    existing key, the key generation, and the public key read back. *)
Definition generateSSHKey_keypair (env : environment) (email keyPath : string)
  : M string :=
  ensureSSHDirectory env >>>
  ensureSSHKeyDirectory env keyPath >>>
  let! occupied := (fun w => (Ok (exists_at (fs w) keyPath), w)) in
  if occupied : bool then fail (ErrKeyExists keyPath)
  else
    let! r := exec env (sshKeygen_argv email keyPath) in
    if negb (exit_ok r) then fail ErrKeygen
    else
      fun w =>
        match ReadFile (fs w) (keyPath +:+ ".pub") with
        | None => (Err ErrReadPublicKey, w)
        | Some pubKey => (Ok pubKey, w)
        end.

(** The host block [generateSSHKey] offers to append. *)
Definition sshConfigSnippet (name keyPath : string) : string :=
  nl +:+ nl +:+ "Host github.com-" +:+ name +:+ nl
  +:+ "  HostName github.com" +:+ nl
  +:+ "  User git" +:+ nl
  +:+ "  IdentityFile " +:+ keyPath +:+ nl.

Definition sshConfigPath (env : environment) : string :=
  filepath_Join [homeDir env; ".ssh"; "config"].

(** The branch of [generateSSHKey] that appends the host block to
    [~/.ssh/config]. *)
Definition appendSSHConfig (env : environment) (name keyPath : string) : M unit :=
  ensureSSHDirectory env >>>
  let configPath := sshConfigPath env in
  (fun w =>
     match OpenFile_append env configPath (octal 6 4 4) (fs w) with
     | None => (Err ErrOpenSSHConfig, w)
     | Some f =>
         (Ok tt, set_fs (WriteString configPath (sshConfigSnippet name keyPath) f) w)
     end) >>>
  println "✅ SSH config updated.".

(** The second half of [generateSSHKey]: the offer to update the SSH
    client configuration, and the report. *)
Definition generateSSHKey_config (env : environment) (name keyPath pubKey : string)
  : M unit :=
  print (nl +:+ "💬 Do you want to append this config to ~/.ssh/config? [Y/n]: ") >>>
  let! resp := readLine in
  let resp := ToLower (TrimSpace resp) in
  (if String.eqb resp "y" || String.eqb resp EmptyString then
     appendSSHConfig env name keyPath
   else println "⚠️ Skipped modifying ~/.ssh/config.") >>>
  println (nl +:+ "✅ SSH key created at: " +:+ keyPath) >>>
  println (nl +:+ "🔑 Public key:" +:+ nl +:+ pubKey) >>>
  println (nl +:+ "📋 Add this public key to GitHub: https://github.com/settings/ssh/new") >>>
  print ("🌐 Host alias for SSH: github.com-" +:+ name +:+ nl).

(** [generateSSHKey] generates an SSH key and optionally updates the SSH
    configuration. *)
Definition generateSSHKey (env : environment) (name email keyPath : string)
  : M unit :=
  let! pubKey := generateSSHKey_keypair env email keyPath in
  generateSSHKey_config env name keyPath pubKey.

(** The lines of an SSH client configuration that open the host block
    of [name]. *)
Definition hostLines (name : string) (content : string) : list string :=
  filter (fun line => TrimSpace line = "Host github.com-" +:+ name)
    (Split content LF).

(** ** directory.go: conditional includes *)

Definition dquote : string := String (ascii_of_nat 34) EmptyString.

(** The directory pattern of a conditional include: git requires a
    trailing slash. *)
Definition gitDirPattern (dirPath : string) : string :=
  if negb (HasSuffix dirPath "/") then dirPath +:+ "/" else dirPath.

(** The header line of the stanza for a directory pattern. *)
Definition includeHeader (pattern : string) : string :=
  "[includeIf " +:+ dquote +:+ "gitdir:" +:+ pattern +:+ dquote +:+ "]".

Definition includeSection (pattern configPath : string) : string :=
  nl +:+ includeHeader pattern +:+ nl +:+ tab +:+ "path = " +:+ configPath +:+ nl.

Definition globalConfigPath (env : environment) : string :=
  filepath_Join [homeDir env; ".gitconfig"].

Definition addConditionalInclude (env : environment) (dirPath configPath : string)
  : M unit :=
  let gitDirPattern := gitDirPattern dirPath in
  let includeSection := includeSection gitDirPattern configPath in
  let! present :=
    (fun w =>
       (Ok match ReadFile (fs w) (globalConfigPath env) with
           | Some existingConfig =>
               Contains existingConfig ("gitdir:" +:+ gitDirPattern)
           | None => false
           end, w)) in
  if present : bool then
    println "ℹ️  Conditional include already exists in global .gitconfig"
  else
    (fun w =>
       match OpenFile_append env (globalConfigPath env) (octal 6 4 4) (fs w) with
       | None => (Err ErrOpenGitconfig, w)
       | Some f =>
           (Ok tt, set_fs (WriteString (globalConfigPath env) includeSection f) w)
       end) >>>
    println "✅ Added conditional include to global .gitconfig".

Definition setupDirectoryConfig (env : environment) (dirPath : string)
  (account : Account) : M unit :=
  let gitConfigPath := filepath_Join [dirPath; ".gitconfig"] in
  let gitConfigContent :=
    "[user]" +:+ nl +:+ tab +:+ "name = " +:+ Username account +:+ nl
    +:+ tab +:+ "email = " +:+ Email account +:+ nl in
  (fun w =>
     match WriteFile env gitConfigPath gitConfigContent (octal 6 4 4) (fs w) with
     | None => (Err ErrCreateGitconfig, w)
     | Some f => (Ok tt, set_fs f w)
     end) >>>
  wrap "failed to add conditional include"
    (addConditionalInclude env dirPath gitConfigPath) >>>
  println ("✅ Directory '" +:+ dirPath +:+ "' configured for account '"
             +:+ Name account +:+ "'") >>>
  println ("👤 Name: " +:+ Username account) >>>
  println ("📧 Email: " +:+ Email account) >>>
  println ("📁 Config file: " +:+ gitConfigPath) >>>
  println ("🔗 SSH Host: github.com-" +:+ Name account) >>>
  println (nl +:+ "💡 Git will automatically use these settings in this directory!").

(** The text of the global git configuration, empty when there is none. *)
Definition globalConfigText (env : environment) (w : world) : string :=
  match ReadFile (fs w) (globalConfigPath env) with
  | Some text => text
  | None => EmptyString
  end.

(** The lines of a git configuration that open the stanza of a directory
    pattern. *)
Definition stanzaLines (pattern : string) (content : string) : list string :=
  filter (fun line => TrimSpace line = includeHeader pattern)
    (Split content LF).

(** ** The store-mutating operations *)

(** The operations that change the configuration store, each with the
    input it takes from the user. *)
Inductive mutation : Type :=
  | MutAddAccount (account : Account)
  | MutSetCurrentAccount (name : string)
  | MutUseGlobal (accountName : string)
  | MutGlobalCmd (accountName : string)
  | MutRemove (accountName : string)
  | MutMigrationSkipped
  | MutMigrationImported (migrated : list Account)
  | MutMigrateCmd.

(** The store a mutation leaves; a command that stops with an error
    before it changes the store leaves it as it was. *)
Definition applyMutation (env : environment) (m : mutation) (c : Config) : Config :=
  match m with
  | MutAddAccount account => fst (addAccount env account c)
  | MutSetCurrentAccount name => fst (setCurrentAccount env name c)
  | MutUseGlobal accountName | MutGlobalCmd accountName =>
      match getAccount c accountName with
      | Some _ => setCurrent accountName c
      | None => c
      end
  | MutRemove accountName =>
      match getAccount c accountName with
      | Some _ => removeAccount_store accountName c
      | None => c
      end
  | MutMigrationSkipped => migrationSkipped_store c
  | MutMigrationImported migrated => migrationImported_store migrated c
  | MutMigrateCmd => migrateCmd_store c
  end.

(** The invariant of the store: [CurrentAccount], if non-empty, names an
    account of the store. *)
Definition currentValid (c : Config) : Prop :=
  CurrentAccount c <> EmptyString ->
  exists account, account ∈ Accounts c /\ Name account = CurrentAccount c.

(** ** A sample environment

    A home directory, the usual mask, an [ssh-keygen] that writes the key
    pair it is asked for, a [git] that accepts every command and answers
    nothing, and a JSON reader that rejects every text.  The examples
    below run the commands in it. *)

Definition sample_run (argv : list string) (f : gmap string node) : process_result :=
  match argv with
  | ["ssh-keygen"; "-t"; "ed25519"; "-C"; email; "-f"; keyPath; "-q"; "-N"; _] =>
      {| exit_ok := true; output := EmptyString;
         fs_after :=
           <[keyPath +:+ ".pub" := File ("ssh-ed25519 AAAA " +:+ email) (octal 6 4 4)]>
             (<[keyPath := File "PRIVATE KEY" (octal 6 0 0)]> f) |}
  | "git" :: _ => {| exit_ok := true; output := EmptyString; fs_after := f |}
  | _ => {| exit_ok := false; output := EmptyString; fs_after := f |}
  end.

(** A stand-in for the JSON writer: the current account, then the names
    of the accounts. *)
Definition sample_marshal (c : Config) : string :=
  CurrentAccount c +:+ ":" +:+ Join (map Name (Accounts c)) ",".

Definition sample_env : environment :=
  {| UserHomeDir := Some "/home/u";
     umask := octal 0 2 2;
     run_process := sample_run;
     json_Unmarshal := fun _ => None;
     json_MarshalIndent := sample_marshal |}.

(** The sample environment with a JSON reader that yields [stored]. *)
Definition sample_env_holding (stored : Config) : environment :=
  {| UserHomeDir := Some "/home/u";
     umask := octal 0 2 2;
     run_process := sample_run;
     json_Unmarshal := fun _ => Some stored;
     json_MarshalIndent := sample_marshal |}.

Definition sample_world (f : gmap string node) (input : list string) : world :=
  {| fs := f; stdin := input; stdout := []; procs := [] |}.

(** A home directory and nothing else. *)
Definition home_only : gmap string node :=
  <["/home/u" := Dir (octal 7 5 5)]> (<["/home" := Dir (octal 7 5 5)]> ∅).

(** ** Observations used in the statements *)

(** An entry that the scan of the SSH client configuration produces. *)
Definition fromSSHConfig (a : DiscoveredAccount) : Prop :=
  Discovered.Suggested a = false
  /\ Discovered.Name a = EmptyString
  /\ Discovered.Email a = EmptyString
  /\ exists host, Discovered.Source a = "SSH Config (" +:+ host +:+ ")".

Definition sample_ssh_config : string :=
  "Host github.com-work" +:+ nl +:+ "  HostName github.com" +:+ nl
  +:+ "  User git" +:+ nl +:+ "  IdentityFile ~/.ssh/id_work" +:+ nl.

Definition sample_work : Account :=
  {| Name := "work"; Email := "w@x.org"; SSHKey := "/home/u/.ssh/id_work";
     Username := "worker"; IsDefault := true |}.

Definition sample_store : Config :=
  {| Accounts := [sample_work]; CurrentAccount := "work"; MigrationDone := true |}.

(** A home directory with a stored configuration and a repository. *)
Definition sample_repo_fs : gmap string node :=
  <["/repo/.git" := Dir (octal 7 5 5)]>
    (<["/repo" := Dir (octal 7 5 5)]>
       (<["/home/u/.krakncat/config.json" := File "{}" (octal 6 4 4)]> home_only)).

(** The world after the run of [ssh-keygen] from the world [w2]. *)
Definition after_keygen (env : environment) (email keyPath : string) (w2 : world)
  : world :=
  {| fs := fs_after (run_process env (sshKeygen_argv email keyPath) (fs w2));
     stdin := stdin w2; stdout := stdout w2;
     procs := procs w2 ++ [sshKeygen_argv email keyPath] |}.

(** A file system in which [~/.ssh] is a regular file and a key already
    lies at [/tmp/key]. *)
Definition ssh_is_a_file : gmap string node :=
  <["/tmp/key" := File "PRIVATE KEY" (octal 6 0 0)]>
    (<["/tmp" := Dir (octal 7 7 7)]>
       (<["/home/u/.ssh" := File "notes" (octal 6 4 4)]> home_only)).

Definition hostLine (name : string) : string := "Host github.com-" +:+ name.

(** The text of the SSH client configuration, empty when there is none. *)
Definition sshConfigText (env : environment) (w : world) : string :=
  match ReadFile (fs w) (sshConfigPath env) with
  | Some text => text
  | None => EmptyString
  end.

Definition sample_home : Account :=
  {| Name := "home"; Email := "h@x.org"; SSHKey := EmptyString;
     Username := "homer"; IsDefault := false |}.

(** A store whose current account names no account. *)
Definition ghost_store : Config :=
  {| Accounts := [sample_work; sample_home]; CurrentAccount := "ghost";
     MigrationDone := true |}.

Definition two_accounts : Config :=
  {| Accounts := [sample_work; sample_home]; CurrentAccount := "work";
     MigrationDone := true |}.

(** A [git] that reports a global user name and no email. *)
Definition git_with_name (argv : list string) (f : gmap string node) : process_result :=
  match argv with
  | ["git"; "config"; "--global"; "--get"; "user.name"] =>
      {| exit_ok := true; output := "Ada Lovelace" +:+ nl; fs_after := f |}
  | _ => {| exit_ok := false; output := EmptyString; fs_after := f |}
  end.

Definition sample_env_git : environment :=
  {| UserHomeDir := Some "/home/u";
     umask := octal 0 2 2;
     run_process := git_with_name;
     json_Unmarshal := fun _ => None;
     json_MarshalIndent := sample_marshal |}.

(** ** providers.go: providers and accounts of the multi-provider model *)

Module Prov.
(** [Provider] represents a Git hosting provider. *)
Record Provider : Type := {
  Name : string;
  DisplayName : string;
  Hostname : string;
  SSHUser : string;
  SSHPort : string;
  WebURL : string;
  KeySuffix : string;
}.
End Prov.
Abbreviation Provider := Prov.Provider.

Module V2.
(** [AccountV2] represents a user account on a specific provider. *)
Record AccountV2 : Type := {
  Name : string;
  Email : string;
  SSHKey : string;
  Username : string;
  Provider : Prov.Provider;
  IsDefault : bool;
}.

Record ConfigV2 : Type := {
  Accounts : list AccountV2;
  CurrentAccount : string;
  MigrationDone : bool;
  ConfigVersion : Z;
}.
End V2.
Abbreviation AccountV2 := V2.AccountV2.
Abbreviation ConfigV2 := V2.ConfigV2.

Definition github : Provider :=
  {| Prov.Name := "github"; Prov.DisplayName := "GitHub";
     Prov.Hostname := "github.com"; Prov.SSHUser := "git";
     Prov.SSHPort := EmptyString;
     Prov.WebURL := "https://github.com/settings/ssh/new";
     Prov.KeySuffix := "gh" |}.

Definition gitlab : Provider :=
  {| Prov.Name := "gitlab"; Prov.DisplayName := "GitLab";
     Prov.Hostname := "gitlab.com"; Prov.SSHUser := "git";
     Prov.SSHPort := EmptyString;
     Prov.WebURL := "https://gitlab.com/-/profile/keys";
     Prov.KeySuffix := "gl" |}.

Definition gitea : Provider :=
  {| Prov.Name := "gitea"; Prov.DisplayName := "Gitea";
     Prov.Hostname := "gitea.com"; Prov.SSHUser := "git";
     Prov.SSHPort := EmptyString;
     Prov.WebURL := "https://gitea.com/user/settings/keys";
     Prov.KeySuffix := "gitea" |}.

(** The predefined providers. *)
Definition DefaultProviders : gmap string Provider :=
  <["github" := github]> (<["gitlab" := gitlab]> (<["gitea" := gitea]> ∅)).

(** The zero value of [Provider], which indexing a Go map yields for a
    missing key. *)
Definition zeroProvider : Provider :=
  {| Prov.Name := EmptyString; Prov.DisplayName := EmptyString;
     Prov.Hostname := EmptyString; Prov.SSHUser := EmptyString;
     Prov.SSHPort := EmptyString; Prov.WebURL := EmptyString;
     Prov.KeySuffix := EmptyString |}.

(** [DefaultProviders[key]]. *)
Definition DefaultProviders_at (key : string) : Provider :=
  match DefaultProviders !! key with
  | Some p => p
  | None => zeroProvider
  end.

Definition GetSSHHost (a : AccountV2) : string :=
  Prov.Hostname (V2.Provider a) +:+ "-" +:+ V2.Name a.

Definition GetSSHCloneURL (a : AccountV2) (repo : string) : string :=
  "git@" +:+ GetSSHHost a +:+ ":" +:+ repo.

Definition GetKeyPath (env : environment) (a : AccountV2) : string :=
  if negb (String.eqb (V2.SSHKey a) EmptyString) then V2.SSHKey a
  else filepath_Join [homeDir env; ".ssh";
                      "id_ed25519_" +:+ Prov.KeySuffix (V2.Provider a)
                        +:+ "_" +:+ V2.Name a].

Definition GenerateSSHConfig (env : environment) (a : AccountV2) : string :=
  let config :=
    nl +:+ "Host " +:+ GetSSHHost a +:+ nl
    +:+ "  HostName " +:+ Prov.Hostname (V2.Provider a) +:+ nl
    +:+ "  User " +:+ Prov.SSHUser (V2.Provider a) +:+ nl
    +:+ "  IdentityFile " +:+ GetKeyPath env a in
  let config :=
    if negb (String.eqb (Prov.SSHPort (V2.Provider a)) EmptyString)
       && negb (String.eqb (Prov.SSHPort (V2.Provider a)) "22")
    then config +:+ nl +:+ "  Port " +:+ Prov.SSHPort (V2.Provider a)
    else config in
  config +:+ nl.

(** The account of the new format that [migrateConfigToV2] makes of an
    old one. *)
Definition upgradeAccount (oldAccount : Account) : AccountV2 :=
  {| V2.Name := Name oldAccount;
     V2.Email := Email oldAccount;
     V2.SSHKey := SSHKey oldAccount;
     V2.Username := Username oldAccount;
     V2.Provider := DefaultProviders_at "github";
     V2.IsDefault := IsDefault oldAccount |}.

(** [migrateConfigToV2] converts an old configuration to the new
    format. *)
Definition migrateConfigToV2 (oldConfig : Config) : ConfigV2 :=
  let newConfig :=
    {| V2.Accounts := [];
       V2.CurrentAccount := CurrentAccount oldConfig;
       V2.MigrationDone := MigrationDone oldConfig;
       V2.ConfigVersion := 2 |} in
  fold_left
    (fun newConfig oldAccount =>
       {| V2.Accounts := V2.Accounts newConfig ++ [upgradeAccount oldAccount];
          V2.CurrentAccount := V2.CurrentAccount newConfig;
          V2.MigrationDone := V2.MigrationDone newConfig;
          V2.ConfigVersion := V2.ConfigVersion newConfig |})
    (Accounts oldConfig) newConfig.

(** [detectProviderFromSSHHost], with [None] for [nil]. *)
Definition detectProviderFromSSHHost (host : string) : option Provider :=
  if Contains host "github.com" then Some (DefaultProviders_at "github")
  else if Contains host "gitlab.com" then Some (DefaultProviders_at "gitlab")
  else if Contains host "gitea" then Some (DefaultProviders_at "gitea")
  else
    let parts := Split host "-" in
    if 2 <=? length parts then
      let hostname := Join (take (length parts - 1) parts) "-" in
      Some {| Prov.Name := "custom";
              Prov.DisplayName := "Custom Git Host";
              Prov.Hostname := hostname;
              Prov.SSHUser := "git";
              Prov.SSHPort := EmptyString;
              Prov.WebURL := "https://" +:+ hostname;
              Prov.KeySuffix := "custom" |}
    else None.

(** *** Regular expressions

    The expressions of package [regexp] that the sources use, matched
    against a whole string as [^...$] asks. *)
Inductive regex : Type :=
  | Nothing
  | Eps
  | Class (member : ascii -> bool)
  | Seq (r1 r2 : regex)
  | Alt (r1 r2 : regex)
  | Star (r : regex).

(** [r?]. *)
Definition Opt (r : regex) : regex := Alt Eps r.

Fixpoint nullable (r : regex) : bool :=
  match r with
  | Nothing => false
  | Eps => true
  | Class _ => false
  | Seq r1 r2 => nullable r1 && nullable r2
  | Alt r1 r2 => nullable r1 || nullable r2
  | Star _ => true
  end.

(** What is left of [r] after the byte [c]. *)
Fixpoint deriv (c : ascii) (r : regex) : regex :=
  match r with
  | Nothing => Nothing
  | Eps => Nothing
  | Class member => if member c then Eps else Nothing
  | Seq r1 r2 =>
      if nullable r1 then Alt (Seq (deriv c r1) r2) (deriv c r2)
      else Seq (deriv c r1) r2
  | Alt r1 r2 => Alt (deriv c r1) (deriv c r2)
  | Star r1 => Seq (deriv c r1) (Star r1)
  end.

(** [MatchString] for an expression anchored at both ends. *)
Fixpoint MatchString (r : regex) (s : string) : bool :=
  match s with
  | EmptyString => nullable r
  | String c s' => MatchString (deriv c r) s'
  end.

Definition inRange (lo hi : nat) (c : ascii) : bool :=
  (lo <=? nat_of_ascii c) && (nat_of_ascii c <=? hi).

(** [[a-zA-Z0-9]]. *)
Definition alnum (c : ascii) : bool :=
  inRange 97 122 c || inRange 65 90 c || inRange 48 57 c.

(** [[a-zA-Z0-9\-\.]]. *)
Definition hostByte (c : ascii) : bool :=
  alnum c || Ascii.eqb c "-" || Ascii.eqb c ".".

(** [^[a-zA-Z0-9]([a-zA-Z0-9\-\.]*[a-zA-Z0-9])?$]. *)
Definition hostnameRegex : regex :=
  Seq (Class alnum) (Opt (Seq (Star (Class hostByte)) (Class alnum))).

(** [isValidHostname] validates if a host name is properly formatted;
    [url_Parse_ok] tells whether [url.Parse] accepts a string. *)
Definition isValidHostname (url_Parse_ok : string -> bool) (hostname : string)
  : bool :=
  if String.eqb hostname EmptyString then false
  else if negb (MatchString hostnameRegex hostname) then false
  else if Contains hostname "://" then
    if negb (url_Parse_ok hostname) then false else true
  else true.

(** The shape of a host name: a letter or digit first and last, letters,
    digits, dashes and dots between. *)
Fixpoint lastByte (c : ascii) (s : string) : ascii :=
  match s with
  | EmptyString => c
  | String c' s' => lastByte c' s'
  end.

Fixpoint allBytes (member : ascii -> bool) (s : string) : bool :=
  match s with
  | EmptyString => true
  | String c s' => member c && allBytes member s'
  end.

Definition hostnameShape (s : string) : bool :=
  match s with
  | EmptyString => false
  | String c rest => alnum c && allBytes hostByte rest && alnum (lastByte c rest)
  end.

(** The strings an expression matches. *)
Inductive lang : regex -> string -> Prop :=
  | LEps : lang Eps EmptyString
  | LClass member c : member c = true -> lang (Class member) (String c EmptyString)
  | LSeq r1 r2 s1 s2 : lang r1 s1 -> lang r2 s2 -> lang (Seq r1 r2) (s1 +:+ s2)
  | LAltL r1 r2 s : lang r1 s -> lang (Alt r1 r2) s
  | LAltR r1 r2 s : lang r2 s -> lang (Alt r1 r2) s
  | LStarNil r : lang (Star r) EmptyString
  | LStarApp r s1 s2 : lang r s1 -> lang (Star r) s2 -> lang (Star r) (s1 +:+ s2).

(** A name that is not empty, neither starts nor ends with a dot and
    holds no two dots in a row. *)
Definition dotsInside (s : string) : Prop :=
  s <> EmptyString /\ HasPrefix s "." = false /\ HasSuffix s "." = false
  /\ Contains s ".." = false.

(** An account on a self-hosted server, for the examples. *)
Definition acme : Provider :=
  {| Prov.Name := "custom"; Prov.DisplayName := "Acme";
     Prov.Hostname := "git.acme.io"; Prov.SSHUser := "git";
     Prov.SSHPort := "2222"; Prov.WebURL := "https://git.acme.io";
     Prov.KeySuffix := "acme" |}.

Definition sample_custom : AccountV2 :=
  {| V2.Name := "work"; V2.Email := "w@acme.io"; V2.SSHKey := EmptyString;
     V2.Username := "worker"; V2.Provider := acme; V2.IsDefault := false |}.

(** The entry [discoverSSHAccounts] makes of the host block of an
    account. *)
Definition discoveredBlock (name : string) : DiscoveredAccount :=
  {| Discovered.Name := EmptyString;
     Discovered.Email := EmptyString;
     Discovered.Username := "git";
     Discovered.Source := "SSH Config (github.com-" +:+ name +:+ ")";
     Discovered.Suggested := false |}.

(** ** root.go: the listing of the conditional includes *)








(** A global git configuration with one entry, for the examples. *)
Definition old_gitconfig : string :=
  "[core]" +:+ nl +:+ tab +:+ "editor = vi" +:+ nl.

Definition home_with_gitconfig : gmap string node :=
  <["/home/u/.gitconfig" := File old_gitconfig (octal 6 4 4)]> home_only.

(** The text [setupDirectoryConfig] writes into the [.gitconfig] of a
    directory. *)
Definition userSection (account : Account) : string :=
  "[user]" +:+ nl +:+ tab +:+ "name = " +:+ Username account +:+ nl
  +:+ tab +:+ "email = " +:+ Email account +:+ nl.

(** A home directory with the key pair of the account [work], and the
    store of that account. *)
Definition home_with_key : gmap string node :=
  <["/home/u/.ssh/id_work.pub" := File "ssh-ed25519 AAAA w@x.org" (octal 6 4 4)]>
    (<["/home/u/.ssh/id_work" := File "PRIVATE KEY" (octal 6 0 0)]>
       (<["/home/u/.ssh" := Dir (octal 7 0 0)]>
          (<["/home/u/.krakncat/config.json" := File "{}" (octal 6 4 4)]>
             (<["/home/u/.krakncat" := Dir (octal 7 5 5)]> home_only)))).

(** ** root.go: the offer to migrate existing configuration *)

(** [strconv.Itoa(n)] and the verb [%d] for an [int] that is not
    negative. *)
Definition Itoa (n : nat) : string :=
  DecimalString.NilEmpty.string_of_uint (Nat.to_uint n).

(** The value of a non-empty string of decimal digits. *)
Definition digitsValue (digits : string) : option Z :=
  if String.eqb digits EmptyString then None
  else match DecimalString.NilEmpty.uint_of_string digits with
       | Some d => Some (Z.of_uint d)
       | None => None
       end.

(** [strconv.Atoi(s)] with [None] for an error: an optional sign, then
    decimal digits, of a value that fits 64 bits. *)
Definition Atoi (s : string) : option Z :=
  let signed :=
    match s with
    | EmptyString => None
    | String c rest =>
        if Ascii.eqb c "-" then option_map Z.opp (digitsValue rest)
        else if Ascii.eqb c "+" then digitsValue rest
        else digitsValue s
    end in
  match signed with
  | Some v =>
      if ((- 2 ^ 63 <=? v) && (v <? 2 ^ 63))%Z then Some v else None
  | None => None
  end.

(** A loop [for i, x := range l] whose body prints. *)
Fixpoint forEachFrom {A} (i : nat) (l : list A) (body : nat -> A -> M unit)
  : M unit :=
  match l with
  | [] => ret tt
  | x :: rest => body i x >>> forEachFrom (S i) rest body
  end.

(** The inner loop of [selectAccountsToMigrate] over the choices of one
    answer; it yields [selected] and [valid]. *)
Fixpoint parseChoices (discovered : list DiscoveredAccount)
  (choices : list string) (selected : list DiscoveredAccount)
  : M (list DiscoveredAccount * bool) :=
  match choices with
  | [] => ret (selected, true)
  | choice :: rest =>
      let choice := TrimSpace choice in
      let invalid :=
        print ("❌ Invalid choice: " +:+ choice +:+ nl) >>> ret (selected, false) in
      match Atoi choice with
      | None => invalid
      | Some index =>
          if ((index <? 1) || (Z.of_nat (length discovered) <? index))%Z
          then invalid
          else
            match discovered !! Z.to_nat (index - 1) with
            | Some acc => parseChoices discovered rest (selected ++ [acc])
            | None => invalid
            end
      end
  end.

(** The outer loop of [selectAccountsToMigrate], which asks until an
    answer is valid; [fuel] bounds the number of questions, and [None]
    is the loop still running when it is spent. *)
Fixpoint selectAccounts_loop (fuel : nat)
  (discovered selected : list DiscoveredAccount)
  : M (option (list DiscoveredAccount)) :=
  match fuel with
  | 0 => ret None
  | S fuel' =>
      print (nl +:+ "Enter your choice(s) separated by commas (e.g., 1,3): ") >>>
      let! input := readLine in
      let input := TrimSpace input in
      if String.eqb input "0" then ret (Some selected)
      else if String.eqb input (Itoa (length discovered + 1)) then
        ret (Some discovered)
      else
        let choices := Split input "," in
        let! parsed := parseChoices discovered choices [] in
        if snd parsed : bool then ret (Some (fst parsed))
        else selectAccounts_loop fuel' discovered (fst parsed)
  end.

(** [selectAccountsToMigrate] lets the user choose which accounts to
    migrate. *)
Definition selectAccountsToMigrate (fuel : nat)
  (discovered : list DiscoveredAccount) : M (option (list DiscoveredAccount)) :=
  println (nl +:+ "📋 Select accounts to migrate:") >>>
  println "   0. Skip migration" >>>
  forEachFrom 0 discovered
    (fun i acc =>
       print ("   " +:+ Itoa (i + 1) +:+ ". " +:+ Discovered.Source acc) >>>
       (if Discovered.Suggested acc then print " (recommended)" else ret tt) >>>
       println EmptyString) >>>
  print ("   " +:+ Itoa (length discovered + 1) +:+ ". Migrate all" +:+ nl) >>>
  selectAccounts_loop fuel discovered [].

(** [migrateAccount] migrates a single discovered account; the choice of
    the SSH key is the dialogue [selectSSHKey]. *)
Definition migrateAccount (selectSSHKey : string -> M string)
  (discovered : DiscoveredAccount) : M Account :=
  print (nl +:+ "🔧 Migrating: " +:+ Discovered.Source discovered +:+ nl) >>>
  (if negb (String.eqb (Discovered.Username discovered) EmptyString) then
     print ("📝 Account name [" +:+ Discovered.Username discovered +:+ "]: ")
   else print "📝 Account name (e.g., 'personal', 'work'): ") >>>
  let! input := readLine in
  let accountName := TrimSpace input in
  let accountName :=
    if String.eqb accountName EmptyString then
      if negb (String.eqb (Discovered.Username discovered) EmptyString)
      then Discovered.Username discovered
      else "default"
    else accountName in
  let! email :=
    (if String.eqb (Discovered.Email discovered) EmptyString then
       print "📧 Email address: " >>>
       let! input := readLine in
       ret (TrimSpace input)
     else ret (Discovered.Email discovered)) in
  let! username :=
    (if String.eqb (Discovered.Username discovered) EmptyString then
       (if negb (String.eqb (Discovered.Name discovered) EmptyString) then
          print ("👤 GitHub username [" +:+ Discovered.Name discovered +:+ "]: ")
        else print "👤 GitHub username: ") >>>
       let! input := readLine in
       let input := TrimSpace input in
       ret (if negb (String.eqb input EmptyString) then input
            else if negb (String.eqb (Discovered.Name discovered) EmptyString)
                 then Discovered.Name discovered
                 else Discovered.Username discovered)
     else ret (Discovered.Username discovered)) in
  let! sshKey := selectSSHKey accountName in
  let account :=
    {| Name := accountName; Email := email; SSHKey := sshKey;
       Username := username; IsDefault := false |} in
  print ("✅ Configured account '" +:+ accountName +:+ "'" +:+ nl) >>>
  print ("   � Email: " +:+ email +:+ nl) >>>
  print ("   👤 Username: " +:+ username +:+ nl) >>>
  print ("   �🔗 SSH Host: github.com-" +:+ accountName +:+ nl) >>>
  (if negb (String.eqb sshKey EmptyString) then
     print ("   🔑 SSH Key: " +:+ sshKey +:+ nl)
   else ret tt) >>>
  ret account.

Section Offer.

(** The two dialogues of the offer: the selection among the discovered
    accounts, and the migration of one of them. *)
Variable env : environment.
Variable selectAccounts : list DiscoveredAccount -> M (list DiscoveredAccount).
Variable migrate : DiscoveredAccount -> M Account.

(** The loop of [checkAndOfferMigration] over the selected accounts: an
    account that fails to migrate is reported and left out. *)
Fixpoint migrateEach (selected : list DiscoveredAccount) (config : Config)
  : M Config :=
  match selected with
  | [] => ret config
  | acc :: rest =>
      fun w =>
        match migrate acc w with
        | (Ok migratedAccount, w') =>
            migrateEach rest
              (setAccounts (Accounts config ++ [migratedAccount]) config) w'
        | (Err _, w') =>
            (println "❌ Failed to migrate account" >>> migrateEach rest config) w'
        end
  end.

(** [checkAndOfferMigration] checks if this is the first run and offers
    to migrate existing git configuration. *)
Definition checkAndOfferMigration : M unit :=
  let! config := loadConfig env in
  if MigrationDone config || (0 <? length (Accounts config)) then ret tt
  else
    let! discovered := discoverExistingAccounts env in
    if length discovered =? 0 then saveConfig env (setMigrationDone true config)
    else
      println "👋 Welcome to krakncat!" >>>
      println (nl +:+ "🔍 I found existing git/SSH configuration:") >>>
      forEachFrom 0 discovered
        (fun i acc =>
           print (nl +:+ "   " +:+ Itoa (i + 1) +:+ ". " +:+ Discovered.Source acc) >>>
           (if negb (String.eqb (Discovered.Name acc) EmptyString) then
              print (" - Name: " +:+ Discovered.Name acc) else ret tt) >>>
           (if negb (String.eqb (Discovered.Email acc) EmptyString) then
              print (" - Email: " +:+ Discovered.Email acc) else ret tt) >>>
           (if negb (String.eqb (Discovered.Username acc) EmptyString) then
              print (" - Username: " +:+ Discovered.Username acc) else ret tt)) >>>
      print (nl +:+ "💫 Would you like to migrate any of these accounts to krakncat? [Y/n]: ") >>>
      let! resp := readLine in
      let resp := ToLower (TrimSpace resp) in
      if String.eqb resp "n" || String.eqb resp "no" then
        saveConfig env (setMigrationDone true config)
      else
        let! selected := selectAccounts discovered in
        if length selected =? 0 then saveConfig env (setMigrationDone true config)
        else
          let! config := migrateEach selected config in
          let config :=
            match Accounts config with
            | first :: _ => setCurrent (Name first) config
            | [] => config
            end in
          let config := setMigrationDone true config in
          wrap "failed to save migrated config" (saveConfig env config) >>>
          print (nl +:+ "✅ Successfully imported "
                   +:+ Itoa (length (Accounts config)) +:+ " account(s)!" +:+ nl) >>>
          print (nl +:+ "🎯 Next steps:" +:+ nl) >>>
          print ("   • Use 'krakn list' to see your accounts" +:+ nl) >>>
          print ("   • Use 'krakn config ~/work work' to set up directory-based switching" +:+ nl) >>>
          print ("   • Use 'krakn add' to add more accounts" +:+ nl).

(** [RunE] of [migrateCmd]: force the offer even if it was made
    before. *)
Definition migrateCmd : M unit :=
  let! config := loadConfig env in
  saveConfig env (setMigrationDone false config) >>>
  checkAndOfferMigration.

End Offer.

(** Two discovered accounts, and dialogues that answer at once, for the
    examples. *)
Definition found_global : DiscoveredAccount :=
  {| Discovered.Name := "Ada Lovelace"; Discovered.Email := "ada@x.org";
     Discovered.Username := EmptyString; Discovered.Source := "Global Git Config";
     Discovered.Suggested := true |}.

Definition no_key (accountName : string) : M string := ret EmptyString.

(** A computation that always succeeds and leaves the files, the input
    and the record of the programs run as they are: it only prints. *)
Definition quiet {A} (m : M A) : Prop :=
  forall w, exists a w',
    m w = (Ok a, w')
    /\ fs w' = fs w /\ stdin w' = stdin w /\ procs w' = procs w.

(** A dialogue that consumes input and prints, but touches no file and
    runs no program. *)
Definition talks {A} (m : M A) : Prop :=
  forall w r w', m w = (r, w') -> fs w' = fs w /\ procs w' = procs w.

(** A home directory in which a regular file lies where the directory
    of the store would be. *)
Definition krakncat_is_a_file : gmap string node :=
  <["/home/u/.krakncat" := File "notes" (octal 6 4 4)]> home_only.

(** The no-break space U+00A0, in UTF-8. *)
Definition NBSP : string :=
  String (ascii_of_nat 194) (String (ascii_of_nat 160) EmptyString).

(* ================================================================= *)
(** * Properties *)

(** ** Facts about the string functions *)

Lemma slice_to_substring n s : slice_to n s = String.substring 0 n s.
Proof.
  revert s; induction n as [|n IH]; intros [|c s]; simpl; try reflexivity.
  now rewrite IH.
Qed.

Lemma slice_to_all n s : String.length s <= n -> slice_to n s = s.
Proof.
  revert s; induction n as [|n IH]; intros [|c s]; simpl; intros Hl;
    try reflexivity; try lia.
  rewrite IH; [reflexivity | lia].
Qed.

Lemma truncate_cases n s :
  (if n <? String.length s then slice_to n s else s) = String.substring 0 n s.
Proof.
  rewrite <- slice_to_substring.
  destruct (Nat.ltb_spec n (String.length s)); [reflexivity|].
  symmetry; now apply slice_to_all.
Qed.

Lemma Split_nonempty s sep : Split s sep <> [].
Proof.
  destruct s as [|c s]; simpl; [discriminate|].
  destruct (Ascii.eqb c sep); [discriminate|].
  destruct (Split s sep); discriminate.
Qed.

Lemma Split_head s : nth 0 (Split s ".") EmptyString = first_label s.
Proof.
  induction s as [|c s IH]; simpl; [reflexivity|].
  destruct (Ascii.eqb c "."); [reflexivity|].
  destruct (Split s ".") as [|p ps] eqn:E; simpl in *.
  - now destruct (Split_nonempty s ".").
  - now rewrite IH.
Qed.

Lemma Split_single s :
  (2 <=? length (Split s ".")) = false -> first_label s = s.
Proof.
  induction s as [|c s IH]; simpl; [reflexivity|].
  destruct (Ascii.eqb c ".") eqn:Ec.
  - simpl. destruct (Split s ".") eqn:E; [now destruct (Split_nonempty s ".")|].
    simpl. discriminate.
  - destruct (Split s ".") as [|p ps] eqn:E; [now destruct (Split_nonempty s ".")|].
    simpl in *. intros H. now rewrite IH.
Qed.

Lemma CutPrefix_Some s p r : CutPrefix s p = Some r -> s = p +:+ r.
Proof.
  revert s; induction p as [|a p IH]; intros s; simpl.
  - intros H. now inversion H.
  - destruct s as [|c s]; [discriminate|].
    destruct (Ascii.eqb_spec c a) as [->|]; [|discriminate].
    intros H. now rewrite (IH _ H).
Qed.

Lemma CutPrefix_app p r : CutPrefix (p +:+ r) p = Some r.
Proof.
  induction p as [|a p IH]; simpl; [reflexivity|].
  now rewrite Ascii.eqb_refl.
Qed.

Lemma HasPrefix_CutPrefix s p : HasPrefix s p = true <-> is_Some (CutPrefix s p).
Proof.
  revert s; induction p as [|a p IH]; intros s; simpl.
  - split; eauto.
  - destruct s as [|c s]; [split; [discriminate | intros [? [=]]]|].
    destruct (Ascii.eqb c a); [apply IH | split; [discriminate | intros [? [=]]]].
Qed.

Lemma HasPrefix_app_l s r p : HasPrefix s p = true -> HasPrefix (s +:+ r) p = true.
Proof.
  revert s; induction p as [|a p IH]; intros s; simpl; [reflexivity|].
  destruct s as [|c s]; [discriminate|]. simpl.
  destruct (Ascii.eqb c a); [apply IH | discriminate].
Qed.

Lemma Contains_app_l s r x : Contains s x = true -> Contains (s +:+ r) x = true.
Proof.
  induction s as [|c s IH]; simpl.
  - destruct (HasPrefix EmptyString x) eqn:E; [|discriminate].
    intros _. destruct x; [|discriminate]. now destruct r.
  - destruct (HasPrefix (String c s) x) eqn:E.
    + intros _. change (String c (s +:+ r)) with (String c s +:+ r).
      now rewrite (HasPrefix_app_l _ r _ E).
    + intros H. destruct (HasPrefix (String c (s +:+ r)) x); [reflexivity|].
      now apply IH.
Qed.

Lemma TrimPrefix_no_dot s p :
  has_dot s = false -> has_dot p = true -> TrimPrefix s p = s.
Proof.
  intros Hs Hp. unfold TrimPrefix.
  destruct (CutPrefix s p) as [r|] eqn:E; [|reflexivity].
  apply CutPrefix_Some in E. subst s.
  unfold has_dot in *. now rewrite (Contains_app_l _ r _ Hp) in Hs.
Qed.

Lemma strip_common_prefixes_no_dot s :
  has_dot s = false -> strip_common_prefixes s = s.
Proof.
  intros H. unfold strip_common_prefixes. cbv [fold_left].
  rewrite (TrimPrefix_no_dot s "git." H eq_refl).
  rewrite (TrimPrefix_no_dot s "code." H eq_refl).
  apply (TrimPrefix_no_dot s "source." H eq_refl).
Qed.

Lemma first_label_no_dot s : has_dot s = false -> first_label s = s.
Proof.
  unfold has_dot. induction s as [|c s IH]; simpl; [reflexivity|].
  destruct (Ascii.eqb c "."); [discriminate|].
  intros H. now rewrite IH.
Qed.

Lemma generateKeySuffix_refines hostname :
  generateKeySuffix hostname = deriveKeySuffix_spec hostname.
Proof.
  unfold generateKeySuffix, deriveKeySuffix_spec, strip_common_prefixes.
  cbv [fold_left].
  set (h := TrimPrefix (TrimPrefix (TrimPrefix hostname "git.") "code.") "source.").
  destruct (2 <=? length (Split h ".")) eqn:E.
  - now rewrite truncate_cases, Split_head.
  - now rewrite truncate_cases, (Split_single _ E).
Qed.

(** ** C5: key suffix of a custom provider *)

(** C5. For every host name, [generateKeySuffix] strips the common
    prefixes, takes the first dot-separated label and keeps at most its
    first 8 bytes; a host name without a dot yields its own first 8
    bytes; and the three examples of the specification evaluate as
    stated. *)
Theorem C5_generateKeySuffix (hostname : string) :
  generateKeySuffix hostname
    = String.substring 0 8 (first_label (strip_common_prefixes hostname))
  /\ (has_dot hostname = false ->
      generateKeySuffix hostname = String.substring 0 8 hostname)
  /\ String.length (generateKeySuffix hostname) <= 8
  /\ generateKeySuffix "git.company.com" = "company"
  /\ generateKeySuffix "shortdomain" = "shortdom"
  /\ generateKeySuffix "a.b" = "a".
Proof.
  split; [apply generateKeySuffix_refines|].
  split.
  { intros H. rewrite generateKeySuffix_refines. unfold deriveKeySuffix_spec.
    now rewrite (strip_common_prefixes_no_dot _ H), (first_label_no_dot _ H). }
  split.
  { rewrite generateKeySuffix_refines. unfold deriveKeySuffix_spec.
    rewrite <- slice_to_substring.
    generalize (first_label (strip_common_prefixes hostname)) as s.
    generalize 8 as n.
    induction n as [|n IH]; intros [|c s]; simpl; try lia.
    specialize (IH s). lia. }
  repeat split; reflexivity.
Qed.

Lemma C5_generateKeySuffix_witness :
  has_dot "shortdomain" = false /\ generateKeySuffix "shortdomain" = "shortdom".
Proof.
  split; [reflexivity|].
  exact (proj1 (proj2 (C5_generateKeySuffix "shortdomain")) eq_refl).
Defined.

Example sample_paths :
  sshConfigPath sample_env = "/home/u/.ssh/config"
  /\ globalConfigPath sample_env = "/home/u/.gitconfig"
  /\ getConfigPath sample_env = "/home/u/.krakncat/config.json"
  /\ filepath_Dir "/home/u/.ssh/id_ed25519_gh_work" = "/home/u/.ssh"
  /\ filepath_Join ["/repo/"; ".git"] = "/repo/.git"
  /\ Clean "a//b/./c/../d" = "a/b/d"
  /\ ancestors "/home/u/.ssh" = ["/home"; "/home/u"].
Proof. vm_compute. repeat split. Qed.

Example sample_generate :
  let w := snd (generateSSHKey sample_env "work" "me@x.org" "/home/u/.ssh/id_work"
                  (sample_world home_only ["y"])) in
  fs w !! "/home/u/.ssh" = Some (Dir (octal 7 0 0))
  /\ ReadFile (fs w) "/home/u/.ssh/id_work.pub" = Some "ssh-ed25519 AAAA me@x.org"
  /\ procs w = [sshKeygen_argv "me@x.org" "/home/u/.ssh/id_work"].
Proof. vm_compute. repeat split. Qed.

(** ** The account store *)

Lemma indexOfName_Some name l i :
  indexOfName name l = Some i ->
  Name <$> l !! i = Some name
  /\ forall j, j < i -> Name <$> l !! j <> Some name.
Proof.
  revert i; induction l as [|a l IH]; intros i; simpl; [discriminate|].
  destruct (String.eqb_spec (Name a) name) as [E|E].
  - intros [= <-]. simpl. split; [now rewrite E | intros j Hj; lia].
  - destruct (indexOfName name l) as [k|]; [|discriminate].
    intros [= <-]. destruct (IH k eq_refl) as [H1 H2]. split; [exact H1|].
    intros [|j] Hj; simpl; [congruence | apply H2; lia].
Qed.

Lemma indexOfName_None name l :
  indexOfName name l = None <-> forall a, a ∈ l -> Name a <> name.
Proof.
  induction l as [|a l IH]; simpl.
  - split; [intros _ b Hb; inversion Hb | reflexivity].
  - destruct (String.eqb_spec (Name a) name) as [E|E].
    + split; [discriminate|]. intros H. destruct (H a); [left | exact E].
    + destruct (indexOfName name l); simpl.
      * split; [discriminate|]. intros H. destruct IH as [_ IH].
        discriminate IH. intros b Hb. apply H. now right.
      * split; [|reflexivity]. intros _ b Hb.
        apply elem_of_cons in Hb as [->|Hb]; [exact E|].
        destruct IH as [IH _]. now apply IH.
Qed.

Lemma indexOfName_found name l :
  (exists b, b ∈ l /\ Name b = name) -> is_Some (indexOfName name l).
Proof.
  intros (b & Hb & Hn). destruct (indexOfName name l) eqn:E; [eauto|].
  exfalso. rewrite indexOfName_None in E. exact (E b Hb Hn).
Qed.

Lemma map_Name_insert (l : list Account) i a :
  Name <$> l !! i = Some (Name a) -> map Name (<[i := a]> l) = map Name l.
Proof.
  revert i; induction l as [|b l IH]; intros [|i]; simpl; try discriminate.
  - now intros [= ->].
  - intros H. now rewrite IH.
Qed.

Lemma getAccount_in_Some l name a :
  getAccount_in l name = Some a -> a ∈ l /\ Name a = name.
Proof.
  induction l as [|b l IH]; simpl; [discriminate|].
  destruct (String.eqb_spec (Name b) name) as [E|E].
  - intros [= <-]. split; [left | exact E].
  - intros H. destruct (IH H). split; [now right | assumption].
Qed.

Lemma getAccount_in_None l name :
  getAccount_in l name = None <-> forall a, a ∈ l -> Name a <> name.
Proof.
  induction l as [|b l IH]; simpl.
  - split; [intros _ a Ha; inversion Ha | reflexivity].
  - destruct (String.eqb_spec (Name b) name) as [E|E].
    + split; [discriminate|]. intros H. destruct (H b); [left | exact E].
    + rewrite IH. split.
      * intros H a Ha. apply elem_of_cons in Ha as [->|Ha]; [exact E | now apply H].
      * intros H a Ha. apply H. now right.
Qed.

(** ** C3: adding an account under an existing name *)

(** C3. When the store already holds an account with the name of [a],
    [addAccount] overwrites the first such entry in place: the sequence
    keeps its length, position [i] now holds [a], every other position
    holds what it held, the names (hence their order) are unchanged, and
    a store without duplicate names stays without. *)
Theorem C3_addAccount_overwrites (env : environment) (c : Config) (a : Account) :
  (exists b, b ∈ Accounts c /\ Name b = Name a) ->
  let c' := fst (addAccount env a c) in
  exists i,
    Name <$> Accounts c !! i = Some (Name a)
    /\ (forall j, j < i -> Name <$> Accounts c !! j <> Some (Name a))
    /\ length (Accounts c') = length (Accounts c)
    /\ Accounts c' !! i = Some a
    /\ (forall j, j <> i -> Accounts c' !! j = Accounts c !! j)
    /\ map Name (Accounts c') = map Name (Accounts c)
    /\ CurrentAccount c' = CurrentAccount c
    /\ (NoDup (map Name (Accounts c)) -> NoDup (map Name (Accounts c')))
    /\ snd (addAccount env a c) = saveConfig env c'.
Proof.
  intros Hex. simpl. unfold addAccount_store.
  destruct (indexOfName_found _ _ Hex) as [i Hi]. rewrite Hi.
  destruct (indexOfName_Some _ _ _ Hi) as [Hname Hfirst].
  assert (Hlt : i < length (Accounts c)).
  { destruct (Accounts c !! i) eqn:E; [|discriminate].
    eapply lookup_lt_Some; eauto. }
  exists i. simpl. repeat split; try assumption.
  - apply length_insert.
  - now apply list_lookup_insert_eq.
  - intros j Hj. apply list_lookup_insert_ne. congruence.
  - now apply map_Name_insert.
  - now rewrite map_Name_insert.
Qed.

Lemma C3_addAccount_overwrites_witness :
  let work := {| Name := "work"; Email := "old@x.org"; SSHKey := "k1";
                 Username := "w"; IsDefault := false |} in
  let home := {| Name := "home"; Email := "h@x.org"; SSHKey := "k0";
                 Username := "h"; IsDefault := true |} in
  let work' := {| Name := "work"; Email := "new@x.org"; SSHKey := "k2";
                  Username := "w2"; IsDefault := false |} in
  let c := {| Accounts := [home; work]; CurrentAccount := "home";
              MigrationDone := true |} in
  Accounts (fst (addAccount sample_env work' c)) = [home; work'].
Proof.
  intros work home work' c.
  destruct (C3_addAccount_overwrites sample_env c work') as (i & H).
  { exists work. split; [right; left | reflexivity]. }
  reflexivity.
Defined.

(** ** C4: the current account names an account of the store *)

Lemma currentValid_names c c' :
  CurrentAccount c' = CurrentAccount c ->
  (forall a, a ∈ Accounts c -> exists a', a' ∈ Accounts c' /\ Name a' = Name a) ->
  currentValid c -> currentValid c'.
Proof.
  intros Hcur Hsub Hc Hne. rewrite Hcur in *.
  destruct (Hc Hne) as (a & Ha & Hn).
  destruct (Hsub a Ha) as (a' & Ha' & Hn'). exists a'. split; congruence.
Qed.

Lemma insert_keeps_names (l : list Account) i a b :
  Name <$> l !! i = Some (Name a) -> b ∈ l ->
  exists b', b' ∈ <[i := a]> l /\ Name b' = Name b.
Proof.
  intros Hi Hb.
  assert (Hm : Name b ∈ map Name (<[i := a]> l)).
  { rewrite (map_Name_insert _ _ _ Hi). now apply list_elem_of_fmap_2. }
  apply list_elem_of_fmap in Hm as (b' & Hn & Hb'). eauto.
Qed.

Lemma addAccount_store_valid a c :
  currentValid c -> currentValid (addAccount_store a c).
Proof.
  intros Hc. unfold addAccount_store.
  destruct (indexOfName (Name a) (Accounts c)) as [i|] eqn:Hi.
  - apply (currentValid_names c); [reflexivity | | exact Hc].
    intros b Hb. simpl.
    apply insert_keeps_names; [|exact Hb]. now apply indexOfName_Some.
  - simpl. destruct (length (Accounts c ++ [a]) =? 1) eqn:Hlen.
    + intros _. simpl. exists (setIsDefault true a). split; [|reflexivity].
      rewrite length_app in Hlen. simpl in Hlen.
      destruct (Accounts c); [left | simpl in Hlen; apply Nat.eqb_eq in Hlen; lia].
    + apply (currentValid_names c); [reflexivity | | exact Hc].
      intros b Hb. exists b. split; [|reflexivity]. simpl.
      apply elem_of_app. now left.
Qed.

Lemma setCurrent_valid name c :
  is_Some (getAccount c name) -> currentValid (setCurrent name c).
Proof.
  intros [a Ha] _. apply getAccount_in_Some in Ha as [Ha Hn].
  exists a. now split.
Qed.

Lemma removeAccount_store_valid name c :
  currentValid c -> currentValid (removeAccount_store name c).
Proof.
  intros Hc. unfold removeAccount_store. simpl.
  destruct (String.eqb_spec (CurrentAccount c) name) as [E|E].
  - destruct (filter (fun acc => Name acc <> name) (Accounts c)) as [|first rest];
      intros Hne; simpl in *; [congruence|].
    exists first. split; [left | reflexivity].
  - intros Hne. simpl in *. destruct (Hc Hne) as (a & Ha & Hn).
    exists a. split; [|exact Hn]. apply list_elem_of_filter. split; congruence.
Qed.

Lemma migrationImported_store_valid migrated c :
  currentValid c -> currentValid (migrationImported_store migrated c).
Proof.
  intros Hc. unfold migrationImported_store. simpl.
  destruct (Accounts c ++ migrated) as [|first rest] eqn:E; simpl.
  - intros Hne. simpl in *. destruct (Hc Hne) as (a & Ha & _).
    apply app_eq_nil in E as [E _]. rewrite E in Ha. inversion Ha.
  - intros _. simpl. exists first. split; [left | reflexivity].
Qed.

Lemma applyMutation_valid env m c :
  currentValid c -> currentValid (applyMutation env m c).
Proof.
  intros Hc. destruct m; simpl.
  - now apply addAccount_store_valid.
  - unfold setCurrentAccount. destruct (getAccount c name) eqn:E; simpl;
      [apply setCurrent_valid; rewrite E; eauto | exact Hc].
  - destruct (getAccount c accountName) eqn:E;
      [apply setCurrent_valid; rewrite E; eauto | exact Hc].
  - destruct (getAccount c accountName) eqn:E;
      [apply setCurrent_valid; rewrite E; eauto | exact Hc].
  - destruct (getAccount c accountName);
      [now apply removeAccount_store_valid | exact Hc].
  - exact Hc.
  - now apply migrationImported_store_valid.
  - exact Hc.
Qed.

Lemma dangling_shows_none c :
  getAccount c (CurrentAccount c) = None -> shownAsCurrent c = [].
Proof.
  unfold getAccount, shownAsCurrent. rewrite getAccount_in_None. intros H.
  induction (Accounts c) as [|a l IH]; [reflexivity|].
  assert (E : Name a <> CurrentAccount c) by (apply H; left).
  rewrite filter_cons_False.
  - apply IH. intros b Hb. apply H. now right.
  - unfold accountStatus. apply String.eqb_neq in E. rewrite E.
    intros Hx. now apply Hx.
Qed.

(** C4. Every store-mutating operation keeps the invariant that a
    non-empty [CurrentAccount] names an account of the store; removing
    the current account re-points [CurrentAccount] to the first account
    that remains or empties it; and a store whose [CurrentAccount] names
    no account (such as "ghost") is tolerated: [getAccount] answers
    not-found and the listing marks no account as current. *)
Theorem C4_currentAccount_invariant (env : environment) (c : Config) :
  (forall m, currentValid c -> currentValid (applyMutation env m c))
  /\ (is_Some (getAccount c (CurrentAccount c)) ->
      let c' := applyMutation env (MutRemove (CurrentAccount c)) c in
      Accounts c' = filter (fun acc => Name acc <> CurrentAccount c) (Accounts c)
      /\ CurrentAccount c' = match Accounts c' with
                             | first :: _ => Name first
                             | [] => EmptyString
                             end
      /\ currentValid c')
  /\ (getAccount c (CurrentAccount c) = None -> shownAsCurrent c = [])
  /\ (CurrentAccount c = "ghost" ->
      (forall a, a ∈ Accounts c -> Name a <> "ghost") ->
      getAccount c "ghost" = None /\ shownAsCurrent c = []).
Proof.
  split; [intros m; apply applyMutation_valid|].
  split.
  { intros [a Ha]. simpl. rewrite Ha. unfold removeAccount_store. simpl.
    rewrite String.eqb_refl.
    destruct (filter (fun acc => Name acc <> CurrentAccount c) (Accounts c))
      as [|first rest] eqn:E; simpl; repeat split.
    - intros Hne. now destruct Hne.
    - intros _. exists first. simpl. split; [left | reflexivity]. }
  split; [apply dangling_shows_none|].
  intros Hcur Hnone.
  assert (Hg : getAccount c "ghost" = None) by now apply getAccount_in_None.
  split; [exact Hg|]. apply dangling_shows_none. now rewrite Hcur.
Qed.

Lemma C4_currentAccount_invariant_witness :
  let work := {| Name := "work"; Email := "w@x.org"; SSHKey := "k1";
                 Username := "w"; IsDefault := true |} in
  let home := {| Name := "home"; Email := "h@x.org"; SSHKey := "k0";
                 Username := "h"; IsDefault := false |} in
  let good := {| Accounts := [work; home]; CurrentAccount := "work";
                 MigrationDone := true |} in
  let ghost := {| Accounts := [work; home]; CurrentAccount := "ghost";
                  MigrationDone := true |} in
  currentValid (applyMutation sample_env (MutRemove "work") good)
  /\ CurrentAccount (applyMutation sample_env (MutRemove "work") good) = "home"
  /\ getAccount ghost "ghost" = None
  /\ shownAsCurrent ghost = [].
Proof.
  intros work home good ghost.
  assert (Hgood : currentValid good).
  { intros _. exists work. split; [left | reflexivity]. }
  destruct (C4_currentAccount_invariant sample_env good) as (H1 & H2 & _).
  destruct (C4_currentAccount_invariant sample_env ghost) as (_ & _ & _ & H4).
  split; [exact (H1 (MutRemove "work") Hgood)|].
  split; [reflexivity|].
  apply H4; [reflexivity|].
  intros a Ha. apply elem_of_cons in Ha as [->|Ha]; [discriminate|].
  apply elem_of_cons in Ha as [->|Ha]; [discriminate | inversion Ha].
Defined.

(** ** C10: loading the store *)

Lemma exists_at_true f path : exists_at f path = true <-> is_Some (f !! path).
Proof. unfold exists_at. apply bool_decide_eq_true. Qed.


Lemma ReadFile_Some_exists f path data :
  ReadFile f path = Some data -> is_Some (f !! path).
Proof.
  unfold ReadFile. destruct (f !! path) as [[]|]; [eauto | discriminate..].
Qed.


Lemma notExist_read f path data :
  ReadFile f path = Some data -> notExist f path = false.
Proof.
  unfold ReadFile, notExist. destruct (f !! path) as [[]|]; [reflexivity | discriminate..].
Qed.



(** The store's path can be free and the load fail all the same: with a
    regular file where the directory of the store would be, nothing lies
    at the path, and [loadConfig] returns the read error. *)
Lemma C10_counterexample :
  ~ (forall env w,
       fs w !! getConfigPath env = None ->
       loadConfig env w = (Ok emptyConfig, w)).
Proof.
  intros H.
  specialize (H sample_env (sample_world krakncat_is_a_file [])).
  assert (Hfree : fs (sample_world krakncat_is_a_file []) !! getConfigPath sample_env
                  = None) by (vm_compute; reflexivity).
  specialize (H Hfree). vm_compute in H. discriminate H.
Qed.

(** ** Running computations *)

Lemma bind_Ok {A B} (m : M A) (k : A -> M B) w a w' :
  m w = (Ok a, w') -> bind m k w = k a w'.
Proof. intros H. unfold bind. now rewrite H. Qed.

Lemma bind_Err {A B} (m : M A) (k : A -> M B) w e w' :
  m w = (Err e, w') -> bind m k w = (Err e, w').
Proof. intros H. unfold bind. now rewrite H. Qed.

Lemma bind_inv {A B} (m : M A) (k : A -> M B) w r w'' :
  bind m k w = (r, w'') ->
  (exists a w', m w = (Ok a, w') /\ k a w' = (r, w''))
  \/ (exists e, m w = (Err e, w'') /\ r = Err e).
Proof.
  unfold bind. destruct (m w) as [[a|e] w'] eqn:E; intros H.
  - left. eauto.
  - right. exists e. split; congruence.
Qed.

Lemma wrap_Ok {A} context (m : M A) w a w' :
  m w = (Ok a, w') -> wrap context m w = (Ok a, w').
Proof. intros H. unfold wrap. now rewrite H. Qed.

Lemma wrap_Err {A} context (m : M A) w e w' :
  m w = (Err e, w') -> wrap context m w = (Err (ErrWrap context e), w').
Proof. intros H. unfold wrap. now rewrite H. Qed.

Lemma getGitConfigValue_run env key global w :
  let r := run_process env (getGitConfigValue_argv key global) (fs w) in
  getGitConfigValue env key global w
  = (Ok (if exit_ok r then TrimSpace (output r) else EmptyString),
     {| fs := fs_after r; stdin := stdin w; stdout := stdout w;
        procs := procs w ++ [getGitConfigValue_argv key global] |}).
Proof.
  intros r. unfold getGitConfigValue, bind, exec. fold r.
  now destruct (exit_ok r).
Qed.

(** ** C9: the discovery scan *)

Lemma scanLine_accounts st line :
  Forall fromSSHConfig (accounts st) ->
  Forall fromSSHConfig (accounts (scanLine st line)).
Proof.
  intros H. unfold scanLine.
  destruct (HasPrefix (TrimSpace line) "Host github.com-"); [exact H|].
  destruct (HasPrefix (TrimSpace line) "User "
            && negb (String.eqb (currentHost st) EmptyString)); [|exact H].
  destruct (negb (String.eqb (TrimPrefix (currentHost st) "github.com-") EmptyString)
            && negb (String.eqb (TrimPrefix (currentHost st) "github.com-")
                       "github.com")); [|exact H].
  simpl. apply Forall_app. split; [exact H|].
  constructor; [|constructor]. unfold fromSSHConfig. simpl. eauto.
Qed.

Lemma scan_accounts lines st :
  Forall fromSSHConfig (accounts st) ->
  Forall fromSSHConfig (accounts (fold_left scanLine lines st)).
Proof.
  revert st; induction lines as [|line lines IH]; intros st H; simpl;
    [exact H|].
  apply IH. now apply scanLine_accounts.
Qed.

Lemma discoverSSHAccounts_entries env f :
  Forall fromSSHConfig (discoverSSHAccounts env f).
Proof.
  unfold discoverSSHAccounts.
  destruct (UserHomeDir env) as [home|]; [|constructor].
  destruct (ReadFile f (filepath_Join [home; ".ssh"; "config"])); [|constructor].
  apply scan_accounts. constructor.
Qed.

Lemma discoverSSHAccounts_missing env f :
  (forall home, UserHomeDir env = Some home ->
     ReadFile f (filepath_Join [home; ".ssh"; "config"]) = None) ->
  discoverSSHAccounts env f = [].
Proof.
  intros H. unfold discoverSSHAccounts.
  destruct (UserHomeDir env) as [home|]; [|reflexivity].
  now rewrite (H home eq_refl).
Qed.

(** C9. [discoverExistingAccounts] never fails.  With [user] and [email]
    the trimmed answers of [git config --global --get] (empty when git
    exits non-zero), its result is at most one entry for the global git
    configuration, present exactly when [user] or [email] is non-empty
    and then with source "Global Git Config" and [Suggested] set,
    followed by the entries of the SSH client configuration, each with
    [Suggested] unset; a missing or unreadable SSH configuration, or an
    unknown home directory, contributes no entry. *)
Theorem C9_discoverExistingAccounts (env : environment) (w : world) :
  let r1 := run_process env (getGitConfigValue_argv "user.name" true) (fs w) in
  let r2 := run_process env (getGitConfigValue_argv "user.email" true) (fs_after r1) in
  let user := if exit_ok r1 then TrimSpace (output r1) else EmptyString in
  let email := if exit_ok r2 then TrimSpace (output r2) else EmptyString in
  let ssh := discoverSSHAccounts env (fs_after r2) in
  exists globalPart w',
    discoverExistingAccounts env w = (Ok (globalPart ++ ssh), w')
    /\ (user = EmptyString /\ email = EmptyString -> globalPart = [])
    /\ (user <> EmptyString \/ email <> EmptyString ->
        globalPart =
          [ {| Discovered.Name := user; Discovered.Email := email;
               Discovered.Username := EmptyString;
               Discovered.Source := "Global Git Config";
               Discovered.Suggested := true |} ])
    /\ length globalPart <= 1
    /\ Forall fromSSHConfig ssh
    /\ ((forall home, UserHomeDir env = Some home ->
           ReadFile (fs_after r2) (filepath_Join [home; ".ssh"; "config"]) = None) ->
        ssh = []).
Proof.
  intros r1 r2 user email ssh.
  exists (if negb (String.eqb user EmptyString) || negb (String.eqb email EmptyString)
          then [ {| Discovered.Name := user; Discovered.Email := email;
                    Discovered.Username := EmptyString;
                    Discovered.Source := "Global Git Config";
                    Discovered.Suggested := true |} ]
          else []).
  eexists. split.
  { unfold discoverExistingAccounts.
    erewrite bind_Ok by apply getGitConfigValue_run.
    erewrite bind_Ok by apply getGitConfigValue_run.
    reflexivity. }
  split.
  { intros [-> ->]. reflexivity. }
  split.
  { intros [H|H]; apply String.eqb_neq in H; rewrite H; simpl;
      [reflexivity | now rewrite orb_true_r]. }
  split.
  { destruct (negb (String.eqb user EmptyString) || negb (String.eqb email EmptyString));
      simpl; lia. }
  split; [apply discoverSSHAccounts_entries | apply discoverSSHAccounts_missing].
Qed.

Lemma C9_discoverExistingAccounts_witness :
  fst (discoverExistingAccounts sample_env
         (sample_world (<["/home/u/.ssh/config" := File sample_ssh_config (octal 6 4 4)]>
                          home_only) []))
  = Ok [ {| Discovered.Name := EmptyString; Discovered.Email := EmptyString;
            Discovered.Username := "git";
            Discovered.Source := "SSH Config (github.com-work)";
            Discovered.Suggested := false |} ]
  /\ fst (discoverExistingAccounts sample_env (sample_world home_only [])) = Ok [].
Proof.
  split.
  - destruct (C9_discoverExistingAccounts sample_env
                (sample_world (<["/home/u/.ssh/config" :=
                                   File sample_ssh_config (octal 6 4 4)]> home_only) []))
      as (g & w' & Heq & Hnone & _).
    rewrite Heq. rewrite (Hnone (conj eq_refl eq_refl)). reflexivity.
  - destruct (C9_discoverExistingAccounts sample_env (sample_world home_only []))
      as (g & w' & Heq & Hnone & _ & _ & _ & Hmissing).
    rewrite Heq, (Hnone (conj eq_refl eq_refl)), Hmissing; [reflexivity|].
    intros home [= <-]. reflexivity.
Defined.

(** ** C7: the identity of one repository *)

Lemma loadConfig_world env w r w' : loadConfig env w = (r, w') -> w' = w.
Proof.
  unfold loadConfig. destruct (notExist (fs w) (getConfigPath env));
    [congruence|].
  destruct (ReadFile (fs w) (getConfigPath env)) as [data|]; [|congruence].
  destruct (json_Unmarshal env data); congruence.
Qed.

Lemma print_run text w :
  print text w = (Ok tt, {| fs := fs w; stdin := stdin w;
                            stdout := stdout w ++ [text]; procs := procs w |}).
Proof. reflexivity. Qed.

Lemma println_run text w :
  println text w = (Ok tt, {| fs := fs w; stdin := stdin w;
                              stdout := stdout w ++ [text +:+ nl];
                              procs := procs w |}).
Proof. reflexivity. Qed.

Lemma setGitConfig_run env key value repoPath global w :
  let argv := setGitConfig_argv key value repoPath global in
  let r := run_process env argv (fs w) in
  setGitConfig env key value repoPath global w
  = (if exit_ok r then Ok tt else Err ErrRunGit,
     {| fs := fs_after r; stdin := stdin w; stdout := stdout w;
        procs := procs w ++ [argv] |}).
Proof.
  intros argv r. unfold setGitConfig, bind, exec. fold argv r.
  now destruct (exit_ok r).
Qed.

(** C7. For a path [p] given without [--global], [useCmd] stops with the
    not-a-repository error, before it reads the store or runs git, when
    [p] holds no [.git] directory.  When [p] holds one and [account] is
    the store's account of that name, [useCmd] runs
    [git -C p config user.name] and [git -C p config user.email] with the
    account's user name and email, in this order and nothing else; if
    both exit with status zero the command succeeds, and if one fails
    the command stops with that git error. *)
Theorem C7_useCmd_local (env : environment) (accountName p : string)
    (more : list string) (w : world) :
  (isGitRepository (fs w) p = false ->
   useCmd env accountName (p :: more) false w = (Err (ErrNotGitRepository p), w)
   /\ kind (ErrNotGitRepository p) = NotARepository)
  /\ (isGitRepository (fs w) p = true ->
      forall config account,
        loadConfig env w = (Ok config, w) ->
        getAccount config accountName = Some account ->
        let argv1 := ["git"; "-C"; p; "config"; "user.name"; Username account] in
        let argv2 := ["git"; "-C"; p; "config"; "user.email"; Email account] in
        let r1 := run_process env argv1 (fs w) in
        let r2 := run_process env argv2 (fs_after r1) in
        (exit_ok r1 = true -> exit_ok r2 = true ->
         exists w',
           useCmd env accountName (p :: more) false w = (Ok tt, w')
           /\ procs w' = procs w ++ [argv1; argv2]
           /\ fs w' = fs_after r2
           /\ stdin w' = stdin w)
        /\ (exit_ok r1 = false ->
            exists e w',
              useCmd env accountName (p :: more) false w = (Err e, w')
              /\ kind e = GitCommandFailed
              /\ procs w' = procs w ++ [argv1])
        /\ (exit_ok r1 = true -> exit_ok r2 = false ->
            exists e w',
              useCmd env accountName (p :: more) false w = (Err e, w')
              /\ kind e = GitCommandFailed
              /\ procs w' = procs w ++ [argv1; argv2])).
Proof.
  split.
  { intros Hrepo. split; [|reflexivity].
    unfold useCmd. simpl. eapply bind_Err. now rewrite Hrepo. }
  intros Hrepo config account Hload Hacc argv1 argv2 r1 r2.
  assert (Hstart : forall k : string * bool -> M unit,
             bind (fun w0 => if negb (isGitRepository (fs w0) p)
                             then (Err (ErrNotGitRepository p), w0)
                             else (Ok (p, false), w0)) k w
             = k (p, false) w).
  { intros k. apply bind_Ok. now rewrite Hrepo. }
  unfold useCmd. simpl negb. cbv iota. rewrite Hstart. simpl fst. simpl snd.
  erewrite bind_Ok by (apply wrap_Ok; exact Hload).
  rewrite Hacc.
  pose proof (setGitConfig_run env "user.name" (Username account) p false w) as H1.
  simpl in H1. fold argv1 r1 in H1.
  split; [|split].
  - intros Hok1 Hok2. rewrite Hok1 in H1.
    erewrite bind_Ok by (apply wrap_Ok; exact H1).
    match goal with |- context [bind (wrap _ (setGitConfig _ _ _ _ _)) _ ?w1] =>
      pose proof (setGitConfig_run env "user.email" (Email account) p false w1) as H2
    end.
    simpl in H2. fold argv2 r2 in H2. rewrite Hok2 in H2.
    erewrite bind_Ok by (apply wrap_Ok; exact H2).
    simpl negb. cbv iota.
    erewrite bind_Ok by reflexivity.
    repeat (erewrite bind_Ok by apply println_run).
    eexists. split; [apply println_run|]. simpl.
    rewrite <- app_assoc. repeat split.
  - intros Hok1. rewrite Hok1 in H1.
    eexists. eexists. split.
    { eapply bind_Err. apply wrap_Err. exact H1. }
    split; reflexivity.
  - intros Hok1 Hok2. rewrite Hok1 in H1.
    erewrite bind_Ok by (apply wrap_Ok; exact H1).
    match goal with |- context [bind (wrap _ (setGitConfig _ _ _ _ _)) _ ?w1] =>
      pose proof (setGitConfig_run env "user.email" (Email account) p false w1) as H2
    end.
    simpl in H2. fold argv2 r2 in H2. rewrite Hok2 in H2.
    eexists. eexists. split.
    { eapply bind_Err. apply wrap_Err. exact H2. }
    split; [reflexivity|]. simpl. now rewrite <- app_assoc.
Qed.

Lemma C7_useCmd_local_witness :
  useCmd sample_env "work" ["/repo"] false (sample_world home_only [])
  = (Err (ErrNotGitRepository "/repo"), sample_world home_only [])
  /\ procs (snd (useCmd (sample_env_holding sample_store) "work" ["/repo"] false
                   (sample_world sample_repo_fs [])))
     = [ ["git"; "-C"; "/repo"; "config"; "user.name"; "worker"];
         ["git"; "-C"; "/repo"; "config"; "user.email"; "w@x.org"] ].
Proof.
  split.
  - apply (C7_useCmd_local sample_env "work" "/repo" [] (sample_world home_only [])).
    vm_compute. reflexivity.
  - destruct (C7_useCmd_local (sample_env_holding sample_store) "work" "/repo" []
                (sample_world sample_repo_fs [])) as [_ H].
    assert (Hrepo : isGitRepository (fs (sample_world sample_repo_fs [])) "/repo" = true)
      by (vm_compute; reflexivity).
    assert (Hload : loadConfig (sample_env_holding sample_store)
                      (sample_world sample_repo_fs [])
                    = (Ok sample_store, sample_world sample_repo_fs []))
      by (vm_compute; reflexivity).
    destruct (H Hrepo sample_store sample_work Hload eq_refl) as [Hok _].
    destruct (Hok eq_refl eq_refl) as (w' & Heq & Hprocs & _).
    rewrite Heq. exact Hprocs.
Defined.

(** ** The file system *)

Lemma mkdir_chain_spec dirs mode f f' :
  mkdir_chain dirs mode f = Some f' ->
  (forall p n, f !! p = Some n -> f' !! p = Some n)
  /\ (forall p, f !! p = None -> f' !! p = None \/ f' !! p = Some (Dir mode))
  /\ (forall d, d ∈ dirs -> exists m, f' !! d = Some (Dir m)).
Proof.
  revert f; induction dirs as [|d dirs IH]; intros f; simpl.
  - intros [= <-]. repeat split; eauto. intros d Hd. inversion Hd.
  - destruct (f !! d) as [[content m|m]|] eqn:Ed; [discriminate| |].
    + intros H. destruct (IH _ H) as (Hkeep & Hnew & Hdirs).
      repeat split; [exact Hkeep | exact Hnew |].
      intros d' Hd'. apply elem_of_cons in Hd' as [->|Hd']; [eauto | eauto].
    + intros H. destruct (IH _ H) as (Hkeep & Hnew & Hdirs).
      repeat split.
      * intros p n Hp. apply Hkeep. rewrite lookup_insert_ne; [exact Hp|].
        intros ->. congruence.
      * intros p Hp. destruct (decide (d = p)) as [->|Hne].
        -- right. apply Hkeep. apply lookup_insert_eq.
        -- apply Hnew. now rewrite lookup_insert_ne.
      * intros d' Hd'. apply elem_of_cons in Hd' as [->|Hd']; [|eauto].
        exists mode. apply Hkeep. apply lookup_insert_eq.
Qed.

Lemma MkdirAll_spec env path perm f f' :
  MkdirAll env path perm f = Some f' ->
  (forall p n, f !! p = Some n -> f' !! p = Some n)
  /\ (forall p, f !! p = None ->
        f' !! p = None \/ f' !! p = Some (Dir (apply_umask (umask env) perm)))
  /\ (exists m, f' !! path = Some (Dir m)).
Proof.
  unfold MkdirAll. destruct (f !! path) as [[content m|m]|] eqn:E.
  - discriminate.
  - intros [= <-]. repeat split; eauto.
  - intros H. destruct (mkdir_chain_spec _ _ _ _ H) as (Hkeep & Hnew & Hdirs).
    repeat split; [exact Hkeep | exact Hnew |].
    apply Hdirs. apply elem_of_app. right. left.
Qed.

Lemma MkdirAll_ReadFile env path perm f f' p :
  MkdirAll env path perm f = Some f' -> ReadFile f' p = ReadFile f p.
Proof.
  intros H. destruct (MkdirAll_spec _ _ _ _ _ H) as (Hkeep & Hnew & _).
  unfold ReadFile. destruct (f !! p) as [n|] eqn:E.
  - now rewrite (Hkeep _ _ E).
  - destruct (Hnew _ E) as [-> | ->]; reflexivity.
Qed.

Lemma MkdirAll_created env path perm f f' :
  MkdirAll env path perm f = Some f' -> f !! path = None ->
  f' !! path = Some (Dir (apply_umask (umask env) perm)).
Proof.
  intros H Hnone. destruct (MkdirAll_spec _ _ _ _ _ H) as (_ & Hnew & [m Hm]).
  destruct (Hnew _ Hnone) as [E|E]; [congruence | exact E].
Qed.

Lemma owner_only (mask : Z) :
  Z.land (apply_umask mask (octal 7 0 0)) (octal 0 7 7) = 0%Z.
Proof.
  unfold apply_umask.
  rewrite (Z.land_comm (octal 7 0 0)), <- Z.land_assoc.
  change (Z.land (octal 7 0 0) (octal 0 7 7)) with 0%Z.
  apply Z.land_0_r.
Qed.

Lemma ensureSSHDirectory_inv env w r w' :
  ensureSSHDirectory env w = (r, w') ->
  (exists e, r = Err e /\ w' = w /\ kind e = IOFailure)
  \/ (exists home f, UserHomeDir env = Some home
        /\ MkdirAll env (filepath_Join [home; ".ssh"]) (octal 7 0 0) (fs w) = Some f
        /\ r = Ok tt /\ w' = set_fs f w).
Proof.
  unfold ensureSSHDirectory. destruct (UserHomeDir env) as [home|].
  - destruct (MkdirAll env (filepath_Join [home; ".ssh"]) (octal 7 0 0) (fs w))
      as [f|] eqn:E; intros [= <- <-].
    + right. eauto 10.
    + left. eauto.
  - intros [= <- <-]. left. eauto.
Qed.

Lemma ensureSSHKeyDirectory_inv env keyPath w r w' :
  ensureSSHKeyDirectory env keyPath w = (r, w') ->
  (exists e, r = Err e /\ w' = w /\ kind e = IOFailure)
  \/ (exists f, MkdirAll env (filepath_Dir keyPath) (octal 7 0 0) (fs w) = Some f
        /\ r = Ok tt /\ w' = set_fs f w).
Proof.
  unfold ensureSSHKeyDirectory.
  destruct (MkdirAll env (filepath_Dir keyPath) (octal 7 0 0) (fs w))
    as [f|] eqn:E; intros [= <- <-].
  - right. eauto.
  - left. eauto.
Qed.

(** ** C6: generating a key pair *)

Lemma keypair_after_dirs env email keyPath w w1 w2 :
  ensureSSHDirectory env w = (Ok tt, w1) ->
  ensureSSHKeyDirectory env keyPath w1 = (Ok tt, w2) ->
  generateSSHKey_keypair env email keyPath w
  = if exists_at (fs w2) keyPath then (Err (ErrKeyExists keyPath), w2)
    else
      let r := run_process env (sshKeygen_argv email keyPath) (fs w2) in
      if negb (exit_ok r) then (Err ErrKeygen, after_keygen env email keyPath w2)
      else match ReadFile (fs_after r) (keyPath +:+ ".pub") with
           | None => (Err ErrReadPublicKey, after_keygen env email keyPath w2)
           | Some pubKey => (Ok pubKey, after_keygen env email keyPath w2)
           end.
Proof.
  intros H1 H2. unfold generateSSHKey_keypair.
  erewrite bind_Ok by exact H1. erewrite bind_Ok by exact H2.
  erewrite bind_Ok by reflexivity.
  destruct (exists_at (fs w2) keyPath); [reflexivity|].
  erewrite bind_Ok by reflexivity. simpl.
  destruct (exit_ok (run_process env (sshKeygen_argv email keyPath) (fs w2)));
    reflexivity.
Qed.

Lemma dirs_keep env keyPath w w1 w2 :
  ensureSSHDirectory env w = (Ok tt, w1) ->
  ensureSSHKeyDirectory env keyPath w1 = (Ok tt, w2) ->
  procs w2 = procs w /\ stdin w2 = stdin w /\ stdout w2 = stdout w
  /\ (forall p n, fs w !! p = Some n -> fs w2 !! p = Some n)
  /\ (forall p, ReadFile (fs w2) p = ReadFile (fs w) p).
Proof.
  intros H1 H2.
  apply ensureSSHDirectory_inv in H1 as [(e & [=] & _)|(home & f1 & _ & M1 & _ & ->)].
  apply ensureSSHKeyDirectory_inv in H2 as [(e & [=] & _)|(f2 & M2 & _ & ->)].
  simpl in *. repeat split.
  - intros p n Hp.
    destruct (MkdirAll_spec _ _ _ _ _ M1) as (K1 & _).
    destruct (MkdirAll_spec _ _ _ _ _ M2) as (K2 & _). eauto.
  - intros p. rewrite (MkdirAll_ReadFile _ _ _ _ _ p M2).
    apply (MkdirAll_ReadFile _ _ _ _ _ p M1).
Qed.




Example ssh_is_a_file_result :
  fst (generateSSHKey_keypair sample_env "me@x.org" "/tmp/key"
         (sample_world ssh_is_a_file []))
  = Err ErrCreateSSHDir.
Proof. vm_compute. reflexivity. Qed.

(** ** Lines and substrings *)

Lemma app_assoc_s (a b c : string) : (a +:+ b) +:+ c = a +:+ (b +:+ c).
Proof. induction a as [|x a IH]; simpl; [reflexivity | now rewrite IH]. Qed.

Lemma app_nil_r_s (a : string) : a +:+ EmptyString = a.
Proof. induction a as [|x a IH]; simpl; [reflexivity | now rewrite IH]. Qed.

Lemma HasPrefix_app s r : HasPrefix (s +:+ r) s = true.
Proof. induction s as [|c s IH]; simpl; [reflexivity|]. now rewrite Ascii.eqb_refl. Qed.

Lemma Contains_intro u x v : Contains (u +:+ x +:+ v) x = true.
Proof.
  induction u as [|c u IH]; simpl.
  - destruct (x +:+ v) eqn:E; simpl; rewrite <- ?E, HasPrefix_app; reflexivity.
  - rewrite IH. now destruct (HasPrefix (String c (u +:+ x +:+ v)) x).
Qed.

Lemma Contains_elim s x :
  Contains s x = true -> exists u v, s = u +:+ x +:+ v.
Proof.
  induction s as [|c s IH]; simpl.
  - destruct (HasPrefix EmptyString x) eqn:E; [|discriminate]. intros _.
    apply HasPrefix_CutPrefix in E as [r Hr]. apply CutPrefix_Some in Hr.
    exists EmptyString, r. exact Hr.
  - destruct (HasPrefix (String c s) x) eqn:E.
    + intros _. apply HasPrefix_CutPrefix in E as [r Hr]. apply CutPrefix_Some in Hr.
      exists EmptyString, r. exact Hr.
    + intros H. destruct (IH H) as (u & v & ->). now exists (String c u), v.
Qed.

Lemma Contains_within s u l v x :
  s = u +:+ l +:+ v -> Contains l x = true -> Contains s x = true.
Proof.
  intros -> H. apply Contains_elim in H as (u' & v' & ->).
  replace (u +:+ (u' +:+ x +:+ v') +:+ v) with ((u +:+ u') +:+ x +:+ (v' +:+ v)).
  - apply Contains_intro.
  - now rewrite !app_assoc_s.
Qed.

Lemma Split_app a b c :
  Split (a +:+ String c b) c = Split a c ++ Split b c.
Proof.
  induction a as [|x a IH]; simpl.
  - now rewrite Ascii.eqb_refl.
  - destruct (Ascii.eqb x c); [now rewrite IH|].
    rewrite IH. destruct (Split a c) eqn:E; [|reflexivity].
    now destruct (Split_nonempty a c).
Qed.

Lemma Contains_byte_cons x s c :
  Contains (String x s) (String c EmptyString) = false ->
  Ascii.eqb x c = false /\ Contains s (String c EmptyString) = false.
Proof.
  simpl. destruct (Ascii.eqb x c); [discriminate|]. now split.
Qed.

Lemma Split_one_line s c :
  Contains s (String c EmptyString) = false -> Split s c = [s].
Proof.
  induction s as [|x s IH]; [reflexivity|].
  intros H. apply Contains_byte_cons in H as [Hx Hs]. simpl.
  now rewrite Hx, (IH Hs).
Qed.

Lemma Split_elem s c l :
  l ∈ Split s c -> exists u v, s = u +:+ l +:+ v.
Proof.
  revert l; induction s as [|x s IH]; intros l; simpl.
  - intros H. apply list_elem_of_singleton in H as ->.
    now exists EmptyString, EmptyString.
  - destruct (Ascii.eqb x c).
    + intros H. apply elem_of_cons in H as [->|H].
      * now exists EmptyString, (String x s).
      * destruct (IH _ H) as (u & v & ->). now exists (String x u), v.
    + destruct (Split s c) as [|part parts] eqn:E;
        [now destruct (Split_nonempty s c)|].
      intros H. apply elem_of_cons in H as [->|H].
      * destruct (IH part) as (u & v & Hs); [left|].
        assert (Hhead : exists v', s = part +:+ v').
        { clear -E. revert part parts E. induction s as [|y s IHs]; simpl.
          - intros part parts [= <- <-]. now exists EmptyString.
          - destruct (Ascii.eqb y c).
            + intros part parts [= <- <-]. now exists (String y s).
            + destruct (Split s c) as [|q qs] eqn:Eq;
                [now destruct (Split_nonempty s c)|].
              intros part parts [= <- <-].
              destruct (IHs q qs eq_refl) as [v' ->]. now exists v'. }
        destruct Hhead as [v' ->]. now exists EmptyString, v'.
      * destruct (IH l) as (u & v & ->); [now right|].
        now exists (String x u), v.
Qed.

(** White space of more than one byte is removed at both ends and kept
    inside; a continuation byte on its own is no white space. *)
Example TrimSpace_no_break_space :
  TrimSpace ("y" +:+ NBSP) = "y"
  /\ TrimSpace (NBSP +:+ " a" +:+ NBSP +:+ "b" +:+ NBSP +:+ " ")
     = "a" +:+ NBSP +:+ "b"
  /\ TrimSpace (String (ascii_of_nat 160) " ") = String (ascii_of_nat 160) EmptyString.
Proof. repeat split; vm_compute; reflexivity. Qed.

Lemma isASCII_not_lead c c2 c3 :
  isASCII c = true -> isSpace2 c c2 = false /\ isSpace3 c c2 c3 = false.
Proof.
  unfold isASCII, isSpace2, isSpace3. intros H. apply Nat.ltb_lt in H.
  destruct (Nat.eqb_spec (nat_of_ascii c) 194); [lia|].
  destruct (Nat.eqb_spec (nat_of_ascii c) 225); [lia|].
  destruct (Nat.eqb_spec (nat_of_ascii c) 226); [lia|].
  destruct (Nat.eqb_spec (nat_of_ascii c) 227); [lia|].
  now split.
Qed.

Lemma isASCII_not_last c c1 c2 :
  isASCII c = true -> isSpace2 c1 c = false /\ isSpace3 c1 c2 c = false.
Proof.
  unfold isASCII, isSpace2, isSpace3. intros H. apply Nat.ltb_lt in H.
  destruct (Nat.eqb_spec (nat_of_ascii c) 133); [lia|].
  destruct (Nat.eqb_spec (nat_of_ascii c) 160); [lia|].
  destruct (Nat.eqb_spec (nat_of_ascii c) 128); [lia|].
  destruct (Nat.eqb_spec (nat_of_ascii c) 168); [lia|].
  destruct (Nat.eqb_spec (nat_of_ascii c) 169); [lia|].
  destruct (Nat.eqb_spec (nat_of_ascii c) 175); [lia|].
  destruct (Nat.eqb_spec (nat_of_ascii c) 159); [lia|].
  destruct (Nat.leb_spec 128 (nat_of_ascii c)); [lia|].
  repeat match goal with
         | |- context [Nat.eqb ?a ?b] => destruct (Nat.eqb a b)
         | |- context [Nat.leb ?a ?b] => destruct (Nat.leb a b)
         end; now split.
Qed.

Lemma TrimLeftSpace_suffix s : exists u, s = u +:+ TrimLeftSpace s.
Proof.
  assert (H : forall n s, String.length s <= n ->
                          exists u, s = u +:+ TrimLeftSpace s).
  { clear s. induction n as [|n IH]; intros s Hn.
    - destruct s; [now exists EmptyString | simpl in Hn; lia].
    - destruct s as [|c1 r1]; [now exists EmptyString|].
      cbn [TrimLeftSpace]. simpl in Hn.
      destruct (isSpace c1).
      { destruct (IH r1) as [u Hu]; [lia|].
        exists (String c1 u). simpl. now rewrite <- Hu. }
      destruct r1 as [|c2 r2]; [now exists EmptyString|]. simpl in Hn.
      destruct (isSpace2 c1 c2).
      { destruct (IH r2) as [u Hu]; [lia|].
        exists (String c1 (String c2 u)). simpl. now rewrite <- Hu. }
      destruct r2 as [|c3 r3]; [now exists EmptyString|]. simpl in Hn.
      destruct (isSpace3 c1 c2 c3); [|now exists EmptyString].
      destruct (IH r3) as [u Hu]; [lia|].
      exists (String c1 (String c2 (String c3 u))). simpl. now rewrite <- Hu. }
  now apply (H (String.length s)).
Qed.

Lemma TrimRightSpace_prefix s : exists v, s = TrimRightSpace s +:+ v.
Proof.
  induction s as [|c s [v Hv]]; [now exists EmptyString|].
  cbn [TrimRightSpace]. destruct (allSpace (String c s)).
  - now exists (String c s).
  - exists v. simpl. f_equal. exact Hv.
Qed.

Lemma TrimSpace_within s : exists u v, s = u +:+ TrimSpace s +:+ v.
Proof.
  destruct (TrimLeftSpace_suffix s) as [u Hu].
  destruct (TrimRightSpace_prefix (TrimLeftSpace s)) as [v Hv].
  exists u, v. unfold TrimSpace. now rewrite <- Hv.
Qed.

(** A line whose trimmed text contains [x] lies in a text that
    contains [x]. *)
Lemma line_Contains s l x :
  l ∈ Split s LF -> Contains (TrimSpace l) x = true -> Contains s x = true.
Proof.
  intros Hl Hx. destruct (Split_elem _ _ _ Hl) as (u & v & Hs).
  destruct (TrimSpace_within l) as (u' & v' & Hl').
  eapply Contains_within; [exact Hs|].
  eapply Contains_within; [exact Hl' | exact Hx].
Qed.

Lemma allSpace_cons c s :
  isASCII c = true -> allSpace (String c s) = isSpace c && allSpace s.
Proof.
  intros Hc. unfold allSpace. cbn [TrimLeftSpace].
  destruct (isSpace c); [reflexivity|]. cbn [andb].
  destruct s as [|c2 r2]; [reflexivity|].
  destruct (isASCII_not_lead c c2 c2 Hc) as [-> _].
  destruct r2 as [|c3 r3]; [reflexivity|].
  destruct (isASCII_not_lead c c2 c3 Hc) as [_ ->]. reflexivity.
Qed.

Lemma TrimRightSpace_fixed_not_allSpace s :
  TrimRightSpace s = s -> s <> EmptyString -> allSpace s = false.
Proof.
  destruct s as [|y s]; [congruence|]. cbn [TrimRightSpace].
  destruct (allSpace (String y s)); [discriminate | reflexivity].
Qed.

Lemma TrimRightSpace_cons c s :
  isASCII c = true ->
  TrimRightSpace s = s -> isSpace c = false \/ s <> EmptyString ->
  TrimRightSpace (String c s) = String c s.
Proof.
  intros Ha Hs Hc. cbn [TrimRightSpace]. rewrite (allSpace_cons _ _ Ha), Hs.
  destruct Hc as [->|Hne]; [reflexivity|].
  rewrite (TrimRightSpace_fixed_not_allSpace _ Hs Hne). now rewrite andb_false_r.
Qed.

Lemma TrimLeftSpace_snoc s c :
  isASCII c = true -> isSpace c = false ->
  TrimLeftSpace (s +:+ String c EmptyString) <> EmptyString.
Proof.
  intros Ha Hc.
  assert (H : forall n x, String.length x <= n ->
                          TrimLeftSpace (x +:+ String c EmptyString) <> EmptyString).
  { induction n as [|n IH]; intros x Hn.
    - destruct x; [|simpl in Hn; lia]. simpl. rewrite Hc. discriminate.
    - destruct x as [|c1 r1]; [simpl; rewrite Hc; discriminate|].
      simpl in Hn. cbn [String.append TrimLeftSpace].
      destruct (isSpace c1); [apply IH; lia|].
      destruct r1 as [|c2 r2]; cbn [String.append].
      { destruct (isASCII_not_last c c1 c1 Ha) as [-> _]. discriminate. }
      simpl in Hn.
      destruct (isSpace2 c1 c2); [apply IH; lia|].
      destruct r2 as [|c3 r3]; cbn [String.append].
      { destruct (isASCII_not_last c c1 c2 Ha) as [_ ->]. discriminate. }
      simpl in Hn.
      destruct (isSpace3 c1 c2 c3); [apply IH; lia | discriminate]. }
  now apply (H (String.length s)).
Qed.

Lemma TrimRightSpace_snoc s c :
  isASCII c = true -> isSpace c = false ->
  TrimRightSpace (s +:+ String c EmptyString) = s +:+ String c EmptyString.
Proof.
  intros Ha Hc.
  assert (Hnot : forall x, allSpace (x +:+ String c EmptyString) = false).
  { intros x. unfold allSpace. apply String.eqb_neq.
    now apply TrimLeftSpace_snoc. }
  induction s as [|x s IH].
  - pose proof (Hnot EmptyString) as H0. cbn [String.append] in H0 |- *.
    cbn [TrimRightSpace]. now rewrite H0.
  - pose proof (Hnot (String x s)) as H1. cbn [String.append] in H1 |- *.
    cbn [TrimRightSpace]. now rewrite H1, IH.
Qed.

Lemma TrimRightSpace_head c s :
  isASCII c = true -> isSpace c = false ->
  exists r, TrimRightSpace (String c s) = String c r.
Proof.
  intros Ha Hc. cbn [TrimRightSpace]. rewrite (allSpace_cons _ _ Ha), Hc. eauto.
Qed.

Lemma filter_none {A} (P : A -> Prop) `{forall x, Decision (P x)} (l : list A) :
  (forall x, x ∈ l -> ~ P x) -> filter P l = [].
Proof.
  induction l as [|a l IH]; intros Hl; [reflexivity|].
  rewrite filter_cons_False; [|apply Hl; left].
  apply IH. intros x Hx. apply Hl. now right.
Qed.

(** ** C1: conditional includes *)

Lemma HasSuffix_unfold s suffix :
  HasSuffix s suffix
  = if String.eqb s suffix then true
    else match s with
         | EmptyString => false
         | String _ s' => HasSuffix s' suffix
         end.
Proof. now destruct s. Qed.

Lemma HasSuffix_app d suffix : HasSuffix (d +:+ suffix) suffix = true.
Proof.
  induction d as [|c d IH]; rewrite HasSuffix_unfold.
  - simpl. now rewrite String.eqb_refl.
  - simpl String.append. cbv iota. rewrite IH.
    now destruct (String.eqb (String c (d +:+ suffix)) suffix).
Qed.

Lemma gitDirPattern_slash d : HasSuffix (gitDirPattern d) "/" = true.
Proof.
  unfold gitDirPattern. destruct (HasSuffix d "/") eqn:E; simpl;
    [exact E | apply HasSuffix_app].
Qed.

Lemma gitDirPattern_fixed d : HasSuffix d "/" = true -> gitDirPattern d = d.
Proof. intros H. unfold gitDirPattern. now rewrite H. Qed.

Lemma gitDirPattern_add_slash d :
  HasSuffix d "/" = false -> gitDirPattern (d +:+ "/") = gitDirPattern d.
Proof.
  intros H. rewrite (gitDirPattern_fixed (d +:+ "/")) by apply HasSuffix_app.
  unfold gitDirPattern. now rewrite H.
Qed.

Lemma includeSection_Contains text pattern p :
  Contains (text +:+ includeSection pattern p) ("gitdir:" +:+ pattern) = true.
Proof.
  unfold includeSection, includeHeader.
  replace (text +:+ nl +:+ ("[includeIf " +:+ dquote +:+ "gitdir:" +:+ pattern
             +:+ dquote +:+ "]") +:+ nl +:+ tab +:+ "path = " +:+ p +:+ nl)
    with ((text +:+ nl +:+ "[includeIf " +:+ dquote) +:+ ("gitdir:" +:+ pattern)
            +:+ (dquote +:+ "]" +:+ nl +:+ tab +:+ "path = " +:+ p +:+ nl)).
  - apply Contains_intro.
  - rewrite !app_assoc_s. reflexivity.
Qed.

Lemma isDir_false_cases f path :
  isDir f path = false ->
  f !! path = None \/ exists content mode, f !! path = Some (File content mode).
Proof.
  unfold isDir. destruct (f !! path) as [[content mode|mode]|]; eauto. discriminate.
Qed.

Lemma WriteString_lookup path text (f : gmap string node) content mode :
  f !! path = Some (File content mode) ->
  WriteString path text f !! path = Some (File (content +:+ text) mode).
Proof. intros H. unfold WriteString. rewrite H. apply lookup_insert_eq. Qed.

Lemma WriteString_other path text (f : gmap string node) p :
  p <> path -> WriteString path text f !! p = f !! p.
Proof.
  intros H. unfold WriteString.
  destruct (f !! path) as [[content mode|mode]|]; try reflexivity.
  now apply lookup_insert_ne.
Qed.

Lemma OpenFile_append_inv env path perm (f f' : gmap string node) :
  OpenFile_append env path perm f = Some f' ->
  (exists content mode, f !! path = Some (File content mode) /\ f' = f)
  \/ (f !! path = None /\ parentIsDir f path = true
      /\ f' = <[path := File EmptyString (apply_umask (umask env) perm)]> f).
Proof.
  unfold OpenFile_append.
  destruct (f !! path) as [[content mode|mode]|]; [intros [= <-]; eauto | discriminate|].
  destruct (parentIsDir f path); [intros [= <-]; eauto | discriminate].
Qed.

Lemma OpenFile_append_file env path perm (f f' : gmap string node) :
  OpenFile_append env path perm f = Some f' ->
  exists content mode,
    f' !! path = Some (File content mode)
    /\ content = match ReadFile f path with Some text => text | None => EmptyString end
    /\ (forall p, p <> path -> f' !! p = f !! p)
    /\ (f !! path = None -> mode = apply_umask (umask env) perm)
    /\ (forall c m, f !! path = Some (File c m) -> mode = m).
Proof.
  intros H. unfold ReadFile.
  apply OpenFile_append_inv in H as [(content & mode & Hfile & ->)|(Hnone & _ & ->)].
  - rewrite Hfile. eexists _, _. split; [reflexivity|]. split; [reflexivity|].
    split; [reflexivity|]. split; [discriminate|]. now intros c m [= _ <-].
  - rewrite Hnone. eexists _, _. split; [apply lookup_insert_eq|].
    split; [reflexivity|].
    split; [intros p Hp; now apply lookup_insert_ne|].
    split; [reflexivity | discriminate].
Qed.

Lemma OpenFile_append_directory env path perm (f : gmap string node) :
  isDir f path = true -> OpenFile_append env path perm f = None.
Proof.
  unfold isDir, OpenFile_append.
  destruct (f !! path) as [[content mode|mode]|]; try discriminate. reflexivity.
Qed.

(** What a call that succeeds has done to the global configuration:
    nothing when the pattern text is present, one section appended
    otherwise. *)
Lemma addConditionalInclude_effect env d p w w' :
  addConditionalInclude env d p w = (Ok tt, w') ->
  isDir (fs w') (globalConfigPath env) = false
  /\ if Contains (globalConfigText env w) ("gitdir:" +:+ gitDirPattern d)
     then fs w' = fs w
     else globalConfigText env w'
          = globalConfigText env w +:+ includeSection (gitDirPattern d) p
          /\ is_Some (ReadFile (fs w') (globalConfigPath env)).
Proof.
  unfold addConditionalInclude. intros H.
  erewrite bind_Ok in H by reflexivity.
  assert (Hpresent :
            match ReadFile (fs w) (globalConfigPath env) with
            | Some existingConfig =>
                Contains existingConfig ("gitdir:" +:+ gitDirPattern d)
            | None => false
            end
            = Contains (globalConfigText env w) ("gitdir:" +:+ gitDirPattern d)).
  { unfold globalConfigText.
    now destruct (ReadFile (fs w) (globalConfigPath env)). }
  rewrite Hpresent in H.
  destruct (Contains (globalConfigText env w) ("gitdir:" +:+ gitDirPattern d))
    eqn:Hc.
  - rewrite println_run in H. injection H as <-. simpl. split; [|reflexivity].
    unfold globalConfigText, ReadFile, isDir in *.
    destruct (fs w !! globalConfigPath env) as [[c m|m]|]; [reflexivity|..];
      discriminate Hc.
  - apply bind_inv in H as [([] & w1 & H1 & H)|(e & _ & [=])].
    rewrite println_run in H. injection H as <-.
    destruct (OpenFile_append env (globalConfigPath env) (octal 6 4 4) (fs w))
      as [f'|] eqn:Hopen; [|discriminate].
    injection H1 as <-.
    destruct (OpenFile_append_file _ _ _ _ _ Hopen)
      as (content & mode & Hlook & Hcontent & _).
    simpl.
    pose proof (WriteString_lookup _ (includeSection (gitDirPattern d) p) _ _ _ Hlook)
      as Hw.
    assert (Hread : ReadFile (WriteString (globalConfigPath env)
                               (includeSection (gitDirPattern d) p) f')
                      (globalConfigPath env)
                    = Some (globalConfigText env w
                            +:+ includeSection (gitDirPattern d) p)).
    { unfold ReadFile at 1. rewrite Hw, Hcontent. reflexivity. }
    split; [unfold isDir; now rewrite Hw|].
    split; [|rewrite Hread; eauto].
    unfold globalConfigText at 1. simpl fs. now rewrite Hread.
Qed.

(** A call for a pattern whose text is present succeeds and changes no
    file. *)
Lemma addConditionalInclude_again env d p w :
  Contains (globalConfigText env w) ("gitdir:" +:+ gitDirPattern d) = true ->
  exists w', addConditionalInclude env d p w = (Ok tt, w') /\ fs w' = fs w.
Proof.
  intros Hc. unfold addConditionalInclude.
  erewrite bind_Ok by reflexivity.
  assert (Hpresent :
            match ReadFile (fs w) (globalConfigPath env) with
            | Some existingConfig =>
                Contains existingConfig ("gitdir:" +:+ gitDirPattern d)
            | None => false
            end = true).
  { unfold globalConfigText in Hc.
    now destruct (ReadFile (fs w) (globalConfigPath env)). }
  rewrite Hpresent. eexists. split; [apply println_run | reflexivity].
Qed.

Lemma stanzaLines_fresh pattern text :
  Contains text ("gitdir:" +:+ pattern) = false -> stanzaLines pattern text = [].
Proof.
  intros Hfresh. unfold stanzaLines. apply filter_none.
  intros line Hline Heq.
  assert (Hc : Contains text ("gitdir:" +:+ pattern) = true); [|congruence].
  eapply line_Contains; [exact Hline|]. rewrite Heq. unfold includeHeader.
  apply (Contains_intro ("[includeIf " +:+ dquote) ("gitdir:" +:+ pattern)
           (dquote +:+ "]")).
Qed.

Lemma includeHeader_trimmed pattern :
  TrimSpace (includeHeader pattern) = includeHeader pattern.
Proof.
  assert (E : includeHeader pattern
              = ("[includeIf " +:+ dquote +:+ "gitdir:" +:+ pattern +:+ dquote)
                +:+ "]")
    by (unfold includeHeader; rewrite !app_assoc_s; reflexivity).
  assert (L : TrimLeftSpace (includeHeader pattern) = includeHeader pattern)
    by reflexivity.
  unfold TrimSpace. rewrite L, E. now apply TrimRightSpace_snoc.
Qed.

Lemma includeHeader_one_line pattern :
  Contains pattern nl = false -> Contains (includeHeader pattern) nl = false.
Proof.
  intros H. unfold includeHeader, dquote. simpl.
  induction pattern as [|c pattern IH]; [reflexivity|].
  apply Contains_byte_cons in H as [Hc Hp]. simpl.
  unfold LF in *. rewrite Hc. now apply IH.
Qed.

Lemma length_app_s (a b : string) :
  String.length (a +:+ b) = String.length a + String.length b.
Proof. induction a as [|c a IH]; simpl; [reflexivity | now rewrite IH]. Qed.

Lemma app_cancel_r (p1 p2 s : string) : p1 +:+ s = p2 +:+ s -> p1 = p2.
Proof.
  revert p2; induction p1 as [|c p1 IH]; intros [|c2 p2] H; simpl in H.
  - reflexivity.
  - apply (f_equal String.length) in H. simpl in H. rewrite length_app_s in H. lia.
  - apply (f_equal String.length) in H. simpl in H. rewrite length_app_s in H. lia.
  - injection H as -> H. f_equal. now apply IH.
Qed.

Lemma app_cancel_l (s p1 p2 : string) : s +:+ p1 = s +:+ p2 -> p1 = p2.
Proof.
  induction s as [|c s IH]; simpl; [trivial|]. intros H. injection H as H. auto.
Qed.

Lemma includeHeader_inj p1 p2 : includeHeader p1 = includeHeader p2 -> p1 = p2.
Proof.
  unfold includeHeader. intros H.
  do 3 apply app_cancel_l in H. now apply app_cancel_r in H.
Qed.

Lemma path_line_not_header p pattern :
  TrimSpace (tab +:+ "path = " +:+ p) <> includeHeader pattern.
Proof.
  unfold TrimSpace. simpl TrimLeftSpace.
  destruct (TrimRightSpace_head "p" ("ath = " +:+ p) eq_refl eq_refl) as [r Hr].
  simpl in Hr |- *. rewrite Hr. unfold includeHeader. simpl. discriminate.
Qed.

(** The stanza lines after a section is appended. *)
Lemma stanzaLines_section pattern text pattern' p :
  Contains pattern' nl = false -> Contains p nl = false ->
  stanzaLines pattern (text +:+ includeSection pattern' p)
  = stanzaLines pattern text
    ++ (if decide (pattern' = pattern) then [includeHeader pattern] else []).
Proof.
  intros Hd Hp. unfold stanzaLines, includeSection.
  change (nl +:+ includeHeader pattern' +:+ nl +:+ tab +:+ "path = " +:+ p +:+ nl)
    with (String LF (includeHeader pattern' +:+ String LF
                       (tab +:+ "path = " +:+ p +:+ nl))).
  rewrite Split_app, Split_app.
  replace (tab +:+ "path = " +:+ p +:+ nl)
    with ((tab +:+ "path = " +:+ p) +:+ String LF EmptyString)
    by (unfold nl; rewrite !app_assoc_s; reflexivity).
  rewrite Split_app.
  rewrite (Split_one_line (includeHeader pattern')) by now apply includeHeader_one_line.
  rewrite (Split_one_line (tab +:+ "path = " +:+ p)).
  2:{ unfold tab. simpl. exact Hp. }
  rewrite !filter_app. f_equal.
  rewrite (filter_cons_False _ (tab +:+ "path = " +:+ p)) by apply path_line_not_header.
  simpl (Split EmptyString LF).
  rewrite (filter_cons_False _ EmptyString).
  2:{ unfold includeHeader. simpl. discriminate. }
  rewrite filter_nil, !app_nil_r.
  destruct (decide (pattern' = pattern)) as [->|Hne].
  - rewrite filter_cons_True by apply includeHeader_trimmed. reflexivity.
  - rewrite filter_cons_False; [reflexivity|].
    rewrite includeHeader_trimmed. intros H. apply includeHeader_inj in H. congruence.
Qed.

Lemma Contains_byte_app a b c :
  Contains a (String c EmptyString) = false ->
  Contains b (String c EmptyString) = false ->
  Contains (a +:+ b) (String c EmptyString) = false.
Proof.
  intros Ha Hb. induction a as [|x a IH]; [exact Hb|].
  apply Contains_byte_cons in Ha as [Hx Ha]. simpl. rewrite Hx. now apply IH.
Qed.

Lemma gitDirPattern_one_line d :
  Contains d nl = false -> Contains (gitDirPattern d) nl = false.
Proof.
  intros H. unfold gitDirPattern. destruct (HasSuffix d "/"); simpl; [exact H|].
  now apply Contains_byte_app.
Qed.

Lemma addConditionalInclude_directory env d p w :
  isDir (fs w) (globalConfigPath env) = true ->
  addConditionalInclude env d p w = (Err ErrOpenGitconfig, w).
Proof.
  unfold isDir, addConditionalInclude. intros H.
  destruct (fs w !! globalConfigPath env) as [[content mode|mode]|] eqn:E;
    try discriminate.
  erewrite bind_Ok by reflexivity. unfold ReadFile. rewrite E.
  unfold bind, OpenFile_append. now rewrite E.
Qed.

Lemma globalConfigText_fs env w w' :
  fs w' = fs w -> globalConfigText env w' = globalConfigText env w.
Proof. unfold globalConfigText. now intros ->. Qed.

(** After a call that succeeded, the pattern text is in the file. *)
Lemma addConditionalInclude_present env d p w w1 :
  addConditionalInclude env d p w = (Ok tt, w1) ->
  isDir (fs w1) (globalConfigPath env) = false
  /\ Contains (globalConfigText env w1) ("gitdir:" +:+ gitDirPattern d) = true.
Proof.
  intros Hrun.
  destruct (addConditionalInclude_effect env d p w w1 Hrun) as (Hd' & Heff).
  split; [exact Hd'|].
  destruct (Contains (globalConfigText env w) ("gitdir:" +:+ gitDirPattern d))
    eqn:Hc.
  - now rewrite (globalConfigText_fs _ _ _ Heff).
  - destruct Heff as [-> _]. apply includeSection_Contains.
Qed.

(** A call that fails leaves the world as it was. *)
Lemma addConditionalInclude_fails env d p w e w' :
  addConditionalInclude env d p w = (Err e, w') -> w' = w.
Proof.
  unfold addConditionalInclude. intros H.
  erewrite bind_Ok in H by reflexivity.
  match type of H with (if ?b then _ else _) _ = _ => destruct b end.
  - rewrite println_run in H. discriminate.
  - apply bind_inv in H as [([] & w1 & _ & H)|(e' & H1 & _)].
    + rewrite println_run in H. discriminate.
    + destruct (OpenFile_append env (globalConfigPath env) (octal 6 4 4) (fs w));
        [discriminate|]. now injection H1 as _ <-.
Qed.

(** What holds of two calls in a row.  The directory pattern always ends
    with a slash, and a path without a trailing slash has the pattern of
    the path with one.  A call that follows a successful call for the
    same pattern succeeds and changes no file.  When the first call
    succeeds on a global configuration in which the text
    [gitdir:<pattern>] does not occur, for paths without line feeds, it
    has appended the section of the pattern; and after a second call for
    [d] or for [d] plus a slash, whatever its outcome, the file holds
    exactly one stanza line for the pattern. *)
Theorem addConditionalInclude_idempotent (env : environment)
    (d p : string) (w : world) :
  let pattern := gitDirPattern d in
  (HasSuffix pattern "/" = true
   /\ (HasSuffix d "/" = false -> gitDirPattern (d +:+ "/") = pattern)
   /\ gitDirPattern pattern = pattern)
  /\ (forall w1 d' p',
        addConditionalInclude env d p w = (Ok tt, w1) ->
        gitDirPattern d' = pattern ->
        exists w2, addConditionalInclude env d' p' w1 = (Ok tt, w2)
                   /\ fs w2 = fs w1)
  /\ (forall w1,
      addConditionalInclude env d p w = (Ok tt, w1) ->
      Contains (globalConfigText env w) ("gitdir:" +:+ pattern) = false ->
      Contains d nl = false -> Contains p nl = false ->
      globalConfigText env w1
      = globalConfigText env w +:+ includeSection pattern p
      /\ stanzaLines pattern (globalConfigText env w1) = [includeHeader pattern]
      /\ (forall d' r w2,
            d' = d \/ d' = d +:+ "/" ->
            addConditionalInclude env d' p w1 = (r, w2) ->
            stanzaLines pattern (globalConfigText env w2)
            = [includeHeader pattern])).
Proof.
  intros pattern.
  split; [|split].
  - split; [apply gitDirPattern_slash|].
    split; [apply gitDirPattern_add_slash|].
    apply gitDirPattern_fixed, gitDirPattern_slash.
  - intros w1 d' p' Hrun Hsame.
    destruct (addConditionalInclude_present _ _ _ _ _ Hrun) as [_ Hc].
    apply addConditionalInclude_again. now rewrite Hsame.
  - intros w1 Hw1 Hfresh Hd Hp.
    destruct (addConditionalInclude_effect env d p w w1 Hw1) as (_ & Heff1).
    fold pattern in Heff1. rewrite Hfresh in Heff1. destruct Heff1 as [Htext1 _].
    assert (Hlines1 : stanzaLines pattern (globalConfigText env w1)
                      = [includeHeader pattern]).
    { rewrite Htext1, stanzaLines_section;
        [|now apply gitDirPattern_one_line | exact Hp].
      rewrite (stanzaLines_fresh _ _ Hfresh).
      destruct (decide (pattern = pattern)); [reflexivity | congruence]. }
    split; [exact Htext1|]. split; [exact Hlines1|].
    intros d' r w2 Hd' Hw2. destruct r as [[]|e].
    + destruct (addConditionalInclude_effect env d' p w1 w2 Hw2) as (_ & Heff2).
      destruct (Contains (globalConfigText env w1)
                  ("gitdir:" +:+ gitDirPattern d')) eqn:Hc2.
      * now rewrite (globalConfigText_fs _ _ _ Heff2).
      * destruct Heff2 as [-> _]. rewrite stanzaLines_section.
        -- rewrite Hlines1.
           destruct (decide (gitDirPattern d' = pattern)) as [Hsame|]; [|reflexivity].
           destruct (addConditionalInclude_present _ _ _ _ _ Hw1) as [_ Hc].
           fold pattern in Hc. rewrite Hsame in Hc2. congruence.
        -- apply gitDirPattern_one_line.
           destruct Hd' as [->| ->]; [exact Hd|].
           now apply Contains_byte_app.
        -- exact Hp.
    + now rewrite (addConditionalInclude_fails _ _ _ _ _ _ Hw2).
Qed.

Lemma addConditionalInclude_idempotent_sample :
  let w := sample_world home_only [] in
  let w1 := snd (addConditionalInclude sample_env "/home/u/work"
                   "/home/u/work/.gitconfig" w) in
  let w2 := snd (addConditionalInclude sample_env "/home/u/work/"
                   "/home/u/work/.gitconfig" w1) in
  stanzaLines "/home/u/work/" (globalConfigText sample_env w2)
  = [includeHeader "/home/u/work/"]
  /\ fs w2 = fs w1.
Proof.
  intros w w1 w2.
  destruct (addConditionalInclude_idempotent sample_env "/home/u/work"
              "/home/u/work/.gitconfig" w) as (_ & Hagain & H).
  destruct (H w1 eq_refl eq_refl eq_refl eq_refl) as (_ & _ & Hlines).
  split.
  - apply (Hlines "/home/u/work/" (fst (addConditionalInclude sample_env
             "/home/u/work/" "/home/u/work/.gitconfig" w1)));
      [now right | now destruct (addConditionalInclude _ _ _ w1)].
  - destruct (Hagain w1 "/home/u/work/" "/home/u/work/.gitconfig" eq_refl eq_refl)
      as (v2 & Hv2 & Hsame).
    unfold w2. now rewrite Hv2.
Defined.

Example sample_include_text :
  let w := sample_world home_only [] in
  let w1 := snd (addConditionalInclude sample_env "/home/u/work"
                   "/home/u/work/.gitconfig" w) in
  let w2 := snd (addConditionalInclude sample_env "/home/u/work/"
                   "/home/u/work/.gitconfig" w1) in
  globalConfigText sample_env w2
  = nl +:+ "[includeIf " +:+ dquote +:+ "gitdir:/home/u/work/" +:+ dquote +:+ "]"
    +:+ nl +:+ tab +:+ "path = /home/u/work/.gitconfig" +:+ nl.
Proof. vm_compute. reflexivity. Qed.

(** C1.  The claim fails on a configuration that holds the stanza of a
    subdirectory.  The check for an existing include is a substring
    test, so [gitdir:/home/u/work/sub/] counts as [gitdir:/home/u/work/]:
    both calls for [/home/u/work] (without and with the trailing slash)
    succeed and report the include as existing, the file stays as it
    was, and it holds no stanza for [/home/u/work/] where the claim
    promises exactly one. *)
Theorem C1_subdirectory_stanza_hides_parent :
  let text := includeSection "/home/u/work/sub/" "/home/u/work/sub/.gitconfig" in
  let w := sample_world
             (<["/home/u/.gitconfig" := File text (octal 6 4 4)]> home_only) [] in
  let r1 := addConditionalInclude sample_env "/home/u/work"
              "/home/u/work/.gitconfig" w in
  let r2 := addConditionalInclude sample_env "/home/u/work/"
              "/home/u/work/.gitconfig" (snd r1) in
  stanzaLines "/home/u/work/" text = []
  /\ fst r1 = Ok tt /\ fst r2 = Ok tt
  /\ globalConfigText sample_env (snd r2) = text
  /\ stanzaLines "/home/u/work/" (globalConfigText sample_env (snd r2)) = []
  /\ stdout (snd r2)
     = [ "ℹ️  Conditional include already exists in global .gitconfig" +:+ nl;
         "ℹ️  Conditional include already exists in global .gitconfig" +:+ nl ].
Proof. vm_compute. repeat split. Qed.

(** ** C8: permissions of the SSH directory and configuration *)

Lemma appendSSHConfig_inv env name keyPath w w' :
  appendSSHConfig env name keyPath w = (Ok tt, w') ->
  exists w1 f content mode,
    ensureSSHDirectory env w = (Ok tt, w1)
    /\ OpenFile_append env (sshConfigPath env) (octal 6 4 4) (fs w1) = Some f
    /\ f !! sshConfigPath env = Some (File content mode)
    /\ content = match ReadFile (fs w1) (sshConfigPath env) with
                 | Some text => text
                 | None => EmptyString
                 end
    /\ (fs w1 !! sshConfigPath env = None ->
        mode = apply_umask (umask env) (octal 6 4 4))
    /\ (forall c m, fs w1 !! sshConfigPath env = Some (File c m) -> mode = m)
    /\ fs w' = WriteString (sshConfigPath env) (sshConfigSnippet name keyPath) f
    /\ (forall p, p <> sshConfigPath env -> fs w' !! p = fs w1 !! p)
    /\ stdin w' = stdin w /\ procs w' = procs w.
Proof.
  unfold appendSSHConfig. intros H.
  apply bind_inv in H as [(u & w1 & H1 & H)|(e & _ & [=])]. destruct u.
  apply bind_inv in H as [(u & w2 & H2 & H)|(e & _ & [=])]. destruct u.
  rewrite println_run in H. injection H as <-.
  destruct (OpenFile_append env (sshConfigPath env) (octal 6 4 4) (fs w1))
    as [f|] eqn:Hopen; [|discriminate].
  destruct (OpenFile_append_file _ _ _ _ _ Hopen)
    as (content & mode & Hlook & Hcontent & Hother & Hnew & Hold).
  injection H2 as <-.
  assert (Hw1 : stdin w1 = stdin w /\ procs w1 = procs w).
  { apply ensureSSHDirectory_inv in H1 as [(e & [=] & _)|(? & ? & _ & _ & _ & ->)].
    now split. }
  exists w1, f, content, mode. simpl. repeat split; try tauto.
  intros p Hp. rewrite WriteString_other by exact Hp. now apply Hother.
Qed.

(** C8, as the code has it.  [ensureSSHDirectory] leaves a directory at
    [~/.ssh]; one it had to create has mode 0700 less the file-creation
    mask, so neither group nor others have access.  The SSH client
    configuration that the append had to create has mode 0644 less the
    mask -- with the usual mask 022 exactly 0644, readable by group and
    others -- and holds the appended host block. *)
Theorem C8_ssh_permissions (env : environment) (name keyPath : string) (w : world) :
  (forall home w',
     UserHomeDir env = Some home ->
     ensureSSHDirectory env w = (Ok tt, w') ->
     exists m,
       fs w' !! filepath_Join [home; ".ssh"] = Some (Dir m)
       /\ (fs w !! filepath_Join [home; ".ssh"] = None ->
           m = apply_umask (umask env) (octal 7 0 0)
           /\ Z.land m (octal 0 7 7) = 0%Z))
  /\ (forall w',
        fs w !! sshConfigPath env = None ->
        appendSSHConfig env name keyPath w = (Ok tt, w') ->
        fs w' !! sshConfigPath env
        = Some (File (sshConfigSnippet name keyPath)
                  (apply_umask (umask env) (octal 6 4 4))))
  /\ (umask env = octal 0 2 2 ->
      apply_umask (umask env) (octal 7 0 0) = octal 7 0 0
      /\ apply_umask (umask env) (octal 6 4 4) = octal 6 4 4).
Proof.
  split; [|split].
  - intros home w' Hhome H.
    apply ensureSSHDirectory_inv in H as [(e & [=] & _)|(home' & f & Hh & M & _ & ->)].
    assert (home' = home) by congruence. subst home'.
    destruct (MkdirAll_spec _ _ _ _ _ M) as (_ & _ & [m Hm]).
    exists m. split; [exact Hm|]. intros Hnone.
    pose proof (MkdirAll_created _ _ _ _ _ M Hnone) as Hc. simpl in Hm.
    assert (m = apply_umask (umask env) (octal 7 0 0)) by congruence. subst m.
    split; [reflexivity | apply owner_only].
  - intros w' Hnone H.
    apply appendSSHConfig_inv in H
      as (w1 & f & content & mode & H1 & Hopen & Hlook & Hcontent & Hnew & _ & Hfs & _).
    apply ensureSSHDirectory_inv in H1 as [(e & [=] & _)|(home & f1 & _ & M & _ & ->)].
    destruct (MkdirAll_spec _ _ _ _ _ M) as (_ & Hcreated & _).
    simpl in *. destruct (Hcreated _ Hnone) as [Habsent|Hisdir].
    + rewrite Hfs. rewrite (WriteString_lookup _ _ _ _ _ Hlook).
      rewrite (Hnew Habsent). unfold ReadFile in Hcontent.
      rewrite Habsent in Hcontent. now rewrite Hcontent.
    + unfold OpenFile_append in Hopen. rewrite Hisdir in Hopen. discriminate.
  - intros ->. split; reflexivity.
Qed.

Lemma C8_ssh_permissions_witness :
  fs (snd (appendSSHConfig sample_env "work" "/home/u/.ssh/id_work"
             (sample_world home_only [])))
    !! "/home/u/.ssh/config"
  = Some (File (sshConfigSnippet "work" "/home/u/.ssh/id_work") (octal 6 4 4)).
Proof.
  destruct (C8_ssh_permissions sample_env "work" "/home/u/.ssh/id_work"
              (sample_world home_only [])) as (_ & H & _).
  apply (H (snd (appendSSHConfig sample_env "work" "/home/u/.ssh/id_work"
                   (sample_world home_only [])))).
  - vm_compute. reflexivity.
  - vm_compute. reflexivity.
Defined.

(** The claim as stated fails for the file: the configuration that the
    tool creates under the usual mask has mode 0644, not 0600. *)
Lemma C8_counterexample :
  ~ (forall env name keyPath w w',
       fs w !! sshConfigPath env = None ->
       appendSSHConfig env name keyPath w = (Ok tt, w') ->
       exists content,
         fs w' !! sshConfigPath env = Some (File content (octal 6 0 0))).
Proof.
  intros H.
  destruct (H sample_env "work" "/home/u/.ssh/id_work" (sample_world home_only [])
              (snd (appendSSHConfig sample_env "work" "/home/u/.ssh/id_work"
                      (sample_world home_only []))))
    as [content Hc].
  - vm_compute. reflexivity.
  - vm_compute. reflexivity.
  - vm_compute in Hc. discriminate Hc.
Qed.

(** ** C2: the host block of an account *)

Lemma hostLine_trimmed name :
  TrimRightSpace name = name -> TrimSpace (hostLine name) = hostLine name.
Proof.
  intros Hname. unfold TrimSpace, hostLine.
  assert (L : TrimLeftSpace ("Host github.com-" +:+ name) = "Host github.com-" +:+ name)
    by reflexivity.
  rewrite L. cbn [String.append].
  repeat (apply TrimRightSpace_cons;
          [reflexivity | | first [left; reflexivity | right; discriminate]]).
  exact Hname.
Qed.

Lemma hostLine_one_line name :
  Contains name nl = false -> Contains (hostLine name) nl = false.
Proof. intros H. unfold hostLine. now apply Contains_byte_app. Qed.

(** The host lines after the block of [name] is appended. *)
Lemma hostLines_snippet name keyPath text :
  Contains name nl = false -> Contains keyPath nl = false ->
  TrimRightSpace name = name ->
  hostLines name (text +:+ sshConfigSnippet name keyPath)
  = hostLines name text ++ [hostLine name].
Proof.
  intros Hname Hkey Htrim. unfold hostLines, sshConfigSnippet.
  fold (hostLine name).
  replace (text +:+ nl +:+ nl +:+ "Host github.com-" +:+ name +:+ nl
           +:+ "  HostName github.com" +:+ nl +:+ "  User git" +:+ nl
           +:+ "  IdentityFile " +:+ keyPath +:+ nl)
    with (text +:+ String LF (EmptyString +:+ String LF (hostLine name +:+ String LF
            ("  HostName github.com" +:+ String LF ("  User git" +:+ String LF
               (("  IdentityFile " +:+ keyPath) +:+ String LF EmptyString))))))
    by (unfold hostLine, nl; rewrite !app_assoc_s; reflexivity).
  rewrite !Split_app.
  rewrite (Split_one_line (hostLine name)) by now apply hostLine_one_line.
  rewrite (Split_one_line ("  IdentityFile " +:+ keyPath))
    by now apply Contains_byte_app.
  rewrite (Split_one_line "  HostName github.com") by reflexivity.
  rewrite (Split_one_line "  User git") by reflexivity.
  simpl (Split EmptyString LF).
  rewrite !filter_app. f_equal.
  rewrite (filter_cons_False _ EmptyString) by (unfold hostLine; discriminate).
  rewrite filter_nil. cbn [app].
  rewrite (filter_cons_True _ (hostLine name)) by now apply hostLine_trimmed.
  rewrite (filter_cons_False _ "  HostName github.com")
    by (intros E; vm_compute in E; discriminate E).
  rewrite (filter_cons_False _ "  User git")
    by (intros E; vm_compute in E; discriminate E).
  rewrite (filter_cons_False _ ("  IdentityFile " +:+ keyPath)).
  - reflexivity.
  - unfold TrimSpace.
    change (TrimLeftSpace ("  IdentityFile " +:+ keyPath))
      with ("IdentityFile " +:+ keyPath).
    destruct (TrimRightSpace_head "I" ("dentityFile " +:+ keyPath) eq_refl eq_refl)
      as [r Hr].
    cbn [String.append] in Hr |- *. rewrite Hr. discriminate.
Qed.

Lemma ensureSSHDirectory_keeps env w w1 :
  ensureSSHDirectory env w = (Ok tt, w1) ->
  stdin w1 = stdin w /\ stdout w1 = stdout w /\ procs w1 = procs w
  /\ (forall p n, fs w !! p = Some n -> fs w1 !! p = Some n)
  /\ (forall p, ReadFile (fs w1) p = ReadFile (fs w) p).
Proof.
  intros H.
  apply ensureSSHDirectory_inv in H as [(e & [=] & _)|(home & f & _ & M & _ & ->)].
  simpl. repeat split.
  - destruct (MkdirAll_spec _ _ _ _ _ M) as (K & _). exact K.
  - intros p. apply (MkdirAll_ReadFile _ _ _ _ _ p M).
Qed.

Lemma appendSSHConfig_text env name keyPath w w' :
  appendSSHConfig env name keyPath w = (Ok tt, w') ->
  ReadFile (fs w') (sshConfigPath env)
  = Some (sshConfigText env w +:+ sshConfigSnippet name keyPath).
Proof.
  intros H. apply appendSSHConfig_inv in H
    as (w1 & f & content & mode & H1 & _ & Hlook & Hcontent & _ & _ & Hfs & _).
  destruct (ensureSSHDirectory_keeps _ _ _ H1) as (_ & _ & _ & _ & Hread).
  unfold ReadFile at 1. rewrite Hfs, (WriteString_lookup _ _ _ _ _ Hlook).
  rewrite Hcontent, Hread. reflexivity.
Qed.

Lemma appendSSHConfig_keeps env name keyPath w w' p :
  appendSSHConfig env name keyPath w = (Ok tt, w') ->
  is_Some (fs w !! p) -> is_Some (fs w' !! p).
Proof.
  intros H [n Hn]. apply appendSSHConfig_inv in H
    as (w1 & f & content & mode & H1 & _ & Hlook & _ & _ & _ & Hfs & Hother & _).
  destruct (ensureSSHDirectory_keeps _ _ _ H1) as (_ & _ & _ & Hkeep & _).
  destruct (decide (p = sshConfigPath env)) as [->|Hne].
  - rewrite Hfs, (WriteString_lookup _ _ _ _ _ Hlook). eauto.
  - rewrite (Hother _ Hne). eauto.
Qed.

Lemma generateSSHKey_config_keeps env name keyPath pubKey w w' p :
  generateSSHKey_config env name keyPath pubKey w = (Ok tt, w') ->
  is_Some (fs w !! p) -> is_Some (fs w' !! p).
Proof.
  unfold generateSSHKey_config. intros H Hp.
  apply bind_inv in H as [(u & w1 & H1 & H)|(e & _ & [=])].
  rewrite print_run in H1. injection H1 as _ <-.
  apply bind_inv in H as [(resp & w2 & H2 & H)|(e & _ & [=])].
  assert (Hfs2 : fs w2 = fs w).
  { unfold readLine in H2. simpl in H2.
    destruct (stdin w); injection H2 as _ <-; reflexivity. }
  apply bind_inv in H as [(u' & w3 & H3 & H)|(e & _ & [=])].
  assert (Hp3 : is_Some (fs w3 !! p)).
  { destruct (String.eqb (ToLower (TrimSpace resp)) "y"
              || String.eqb (ToLower (TrimSpace resp)) EmptyString).
    - destruct u'. eapply appendSSHConfig_keeps; [exact H3|]. now rewrite Hfs2.
    - rewrite println_run in H3. injection H3 as _ <-. simpl. now rewrite Hfs2. }
  repeat (apply bind_inv in H as [(? & ? & Hq & H)|(e & _ & [=])];
          rewrite println_run in Hq; injection Hq as _ <-).
  rewrite print_run in H. injection H as <-. exact Hp3.
Qed.

Lemma generateSSHKey_occupied env name email keyPath w :
  is_Some (fs w !! keyPath) ->
  exists e w',
    generateSSHKey env name email keyPath w = (Err e, w')
    /\ (e = ErrKeyExists keyPath \/ kind e = IOFailure)
    /\ procs w' = procs w /\ stdin w' = stdin w /\ stdout w' = stdout w
    /\ sshConfigText env w' = sshConfigText env w.
Proof.
  intros [n Hn]. unfold generateSSHKey.
  destruct (ensureSSHDirectory env w) as [[[]|e] w1] eqn:H1.
  - destruct (ensureSSHKeyDirectory env keyPath w1) as [[[]|e] w2] eqn:H2.
    + destruct (dirs_keep _ _ _ _ _ H1 H2) as (Hp & Hi & Ho & Hkeep & Hread).
      exists (ErrKeyExists keyPath), w2. split.
      { apply bind_Err. rewrite (keypair_after_dirs _ _ _ _ _ _ H1 H2).
        assert (E : exists_at (fs w2) keyPath = true)
          by (apply exists_at_true; eauto).
        now rewrite E. }
      unfold sshConfigText. rewrite Hread. tauto.
    + destruct (ensureSSHDirectory_keeps _ _ _ H1) as (Hi & Ho & Hp & _ & Hread).
      destruct (ensureSSHKeyDirectory_inv _ _ _ _ _ H2)
        as [(e' & [= <-] & -> & Hk)|(? & _ & [=] & _)].
      exists e, w1. split.
      { apply bind_Err. unfold generateSSHKey_keypair.
        erewrite bind_Ok by exact H1. now apply bind_Err. }
      unfold sshConfigText. rewrite Hread. tauto.
  - destruct (ensureSSHDirectory_inv _ _ _ _ H1)
      as [(e' & [= <-] & -> & Hk)|(? & ? & _ & _ & [=] & _)].
    exists e, w. split.
    { apply bind_Err. now apply bind_Err. }
    tauto.
Qed.

Lemma generateSSHKey_leaves_key env name email keyPath w w1 :
  (forall f, exit_ok (run_process env (sshKeygen_argv email keyPath) f) = true ->
     is_Some (fs_after (run_process env (sshKeygen_argv email keyPath) f) !! keyPath)) ->
  generateSSHKey env name email keyPath w = (Ok tt, w1) ->
  is_Some (fs w1 !! keyPath).
Proof.
  intros Hkeygen H. unfold generateSSHKey in H.
  apply bind_inv in H as [(pubKey & wk & Hk & H)|(e & _ & [=])].
  eapply generateSSHKey_config_keeps; [exact H|].
  destruct (ensureSSHDirectory env w) as [[[]|e] wa] eqn:H1.
  2:{ unfold generateSSHKey_keypair in Hk.
      rewrite (bind_Err _ _ _ _ _ H1) in Hk. discriminate. }
  destruct (ensureSSHKeyDirectory env keyPath wa) as [[[]|e] wb] eqn:H2.
  2:{ unfold generateSSHKey_keypair in Hk.
      rewrite (bind_Ok _ _ _ _ _ H1), (bind_Err _ _ _ _ _ H2) in Hk. discriminate. }
  rewrite (keypair_after_dirs _ _ _ _ _ _ H1 H2) in Hk.
  destruct (exists_at (fs wb) keyPath); [discriminate|]. simpl in Hk.
  destruct (exit_ok (run_process env (sshKeygen_argv email keyPath) (fs wb))) eqn:Hok;
    simpl in Hk; [|discriminate].
  destruct (ReadFile (fs_after (run_process env (sshKeygen_argv email keyPath) (fs wb)))
              (keyPath +:+ ".pub")); [|discriminate].
  injection Hk as _ <-. simpl. now apply Hkeygen.
Qed.

(** C2, as the code has it.  The append of the host block does not look
    at what the SSH client configuration holds: whenever it succeeds the
    file is its former text followed by the block, so that each run adds
    one more [Host github.com-<name>] line.  [generateSSHKey] as a whole
    is kept from repeating the block only by its key check: on a key path
    that is occupied it stops with an error, runs no program and leaves
    the configuration text as it was; so a second call after a
    successful one, whose [ssh-keygen] wrote the key, adds nothing. *)
Theorem C2_host_block_appended (env : environment) (name email keyPath : string)
    (w : world) :
  (forall w', appendSSHConfig env name keyPath w = (Ok tt, w') ->
     sshConfigText env w' = sshConfigText env w +:+ sshConfigSnippet name keyPath)
  /\ (Contains name nl = false -> Contains keyPath nl = false ->
      TrimRightSpace name = name ->
      forall text,
        hostLines name (text +:+ sshConfigSnippet name keyPath)
        = hostLines name text ++ [hostLine name])
  /\ (is_Some (fs w !! keyPath) ->
      exists e w',
        generateSSHKey env name email keyPath w = (Err e, w')
        /\ (e = ErrKeyExists keyPath \/ kind e = IOFailure)
        /\ procs w' = procs w
        /\ sshConfigText env w' = sshConfigText env w)
  /\ (forall w1,
        (forall f,
           exit_ok (run_process env (sshKeygen_argv email keyPath) f) = true ->
           is_Some (fs_after (run_process env (sshKeygen_argv email keyPath) f)
                      !! keyPath)) ->
        generateSSHKey env name email keyPath w = (Ok tt, w1) ->
        exists e w2,
          generateSSHKey env name email keyPath w1 = (Err e, w2)
          /\ procs w2 = procs w1
          /\ sshConfigText env w2 = sshConfigText env w1).
Proof.
  split; [|split; [|split]].
  - intros w' H. unfold sshConfigText at 1.
    now rewrite (appendSSHConfig_text _ _ _ _ _ H).
  - intros Hname Hkey Htrim text. now apply hostLines_snippet.
  - intros Hocc.
    destruct (generateSSHKey_occupied env name email keyPath w Hocc)
      as (e & w' & H & He & Hp & _ & _ & Ht).
    eauto 10.
  - intros w1 Hkeygen H.
    pose proof (generateSSHKey_leaves_key _ _ _ _ _ _ Hkeygen H) as Hocc.
    destruct (generateSSHKey_occupied env name email keyPath w1 Hocc)
      as (e & w2 & H2 & _ & Hp & _ & _ & Ht).
    eauto 10.
Qed.

Lemma C2_host_block_appended_witness :
  let w := sample_world home_only ["y"] in
  let w1 := snd (generateSSHKey sample_env "work" "me@x.org" "/home/u/.ssh/id_work" w) in
  hostLines "work" (sshConfigText sample_env w1) = [hostLine "work"]
  /\ exists e w2,
       generateSSHKey sample_env "work" "me@x.org" "/home/u/.ssh/id_work" w1
       = (Err e, w2)
       /\ procs w2 = procs w1
       /\ sshConfigText sample_env w2 = sshConfigText sample_env w1.
Proof.
  intros w w1. split; [vm_compute; reflexivity|].
  destruct (C2_host_block_appended sample_env "work" "me@x.org"
              "/home/u/.ssh/id_work" w) as (_ & _ & _ & H).
  apply (H w1).
  - intros f _. simpl. rewrite lookup_insert_ne by discriminate.
    rewrite lookup_insert_eq. eauto.
  - vm_compute. reflexivity.
Defined.

(** The claim as stated fails: the append does not scan for an existing
    host line, and run twice for the same account it leaves two. *)
Lemma C2_counterexample :
  ~ (forall env name keyPath w w1 w2,
       appendSSHConfig env name keyPath w = (Ok tt, w1) ->
       appendSSHConfig env name keyPath w1 = (Ok tt, w2) ->
       length (hostLines name (sshConfigText env w2)) = 1).
Proof.
  intros H.
  set (w := sample_world home_only []).
  set (w1 := snd (appendSSHConfig sample_env "work" "/home/u/.ssh/id_work" w)).
  set (w2 := snd (appendSSHConfig sample_env "work" "/home/u/.ssh/id_work" w1)).
  specialize (H sample_env "work" "/home/u/.ssh/id_work" w w1 w2).
  assert (E : length (hostLines "work" (sshConfigText sample_env w2)) = 2)
    by (vm_compute; reflexivity).
  rewrite E in H. discriminate H; vm_compute; reflexivity.
Qed.

(** The same through the whole of [generateSSHKey]: adding the account
    "work" again with another key path repeats its host block. *)
Example generateSSHKey_repeats_host_block :
  let w := sample_world home_only ["y"; "y"] in
  let w1 := snd (generateSSHKey sample_env "work" "me@x.org" "/home/u/.ssh/id_a" w) in
  let r2 := generateSSHKey sample_env "work" "me@x.org" "/home/u/.ssh/id_b" w1 in
  fst r2 = Ok tt
  /\ hostLines "work" (sshConfigText sample_env (snd r2))
     = [hostLine "work"; hostLine "work"].
Proof. vm_compute. split; reflexivity. Qed.

(** ** What the commands store *)

Lemma wrap_inv {A} context (m : M A) w a w' :
  wrap context m w = (Ok a, w') -> m w = (Ok a, w').
Proof.
  unfold wrap. destruct (m w) as [[a'|e] w1]; intros [= <- <-]; reflexivity.
Qed.

Lemma WriteFile_read env path data perm (f f' : gmap string node) :
  WriteFile env path data perm f = Some f' -> ReadFile f' path = Some data.
Proof.
  unfold WriteFile, ReadFile.
  destruct (f !! path) as [[content mode|mode]|]; [| discriminate |];
    [|destruct (parentIsDir f path); [|discriminate]];
    intros [= <-]; now rewrite lookup_insert_eq.
Qed.

Lemma saveConfig_stores env c w w' :
  saveConfig env c w = (Ok tt, w') ->
  ReadFile (fs w') (getConfigPath env) = Some (json_MarshalIndent env c).
Proof.
  unfold saveConfig. intros H.
  apply bind_inv in H as [(u & w1 & _ & H)|(e & _ & [=])].
  destruct (WriteFile env (getConfigPath env) (json_MarshalIndent env c)
              (octal 6 4 4) (fs w1)) as [f|] eqn:E; [|discriminate].
  injection H as <-. simpl. eapply WriteFile_read; eauto.
Qed.

Lemma println_fs text w r w' : println text w = (r, w') -> fs w' = fs w.
Proof. rewrite println_run. now intros [= _ <-]. Qed.

(** A successful [useCmd] without a path stores the result of the
    mutation on the store it loaded. *)
Lemma useCmd_global_stores env accountName globalFlag w w' :
  useCmd env accountName [] globalFlag w = (Ok tt, w') ->
  exists config,
    loadConfig env w = (Ok config, w)
    /\ is_Some (getAccount config accountName)
    /\ ReadFile (fs w') (getConfigPath env)
       = Some (json_MarshalIndent env
                 (applyMutation env (MutUseGlobal accountName) config)).
Proof.
  unfold useCmd. intros H.
  rewrite (bind_Ok _ _ w (EmptyString, true) w eq_refl) in H. simpl fst in H.
  simpl snd in H.
  apply bind_inv in H as [(config & w0 & Hl & H)|(e & _ & [=])].
  apply wrap_inv in Hl. pose proof (loadConfig_world _ _ _ _ Hl) as ->.
  exists config. split; [exact Hl|].
  simpl applyMutation.
  destruct (getAccount config accountName) as [account|]; [|discriminate].
  split; [eauto|].
  apply bind_inv in H as [(u1 & w1 & _ & H)|(e & _ & [=])].
  apply bind_inv in H as [(u2 & w2 & _ & H)|(e & _ & [=])].
  apply bind_inv in H as [(u3 & w3 & Hs & H)|(e & _ & [=])].
  apply wrap_inv in Hs. destruct u3. apply saveConfig_stores in Hs.
  repeat (apply bind_inv in H as [(? & ? & Hq & H)|(e & _ & [=])];
          apply println_fs in Hq; rewrite <- Hq in Hs; clear Hq).
  apply println_fs in H. now rewrite H.
Qed.

(** A successful [globalCmd] stores the result of the mutation on the
    store it loaded. *)
Lemma globalCmd_stores env accountName w w' :
  globalCmd env accountName w = (Ok tt, w') ->
  exists config,
    loadConfig env w = (Ok config, w)
    /\ is_Some (getAccount config accountName)
    /\ ReadFile (fs w') (getConfigPath env)
       = Some (json_MarshalIndent env
                 (applyMutation env (MutGlobalCmd accountName) config)).
Proof.
  unfold globalCmd. intros H.
  apply bind_inv in H as [(config & w0 & Hl & H)|(e & _ & [=])].
  apply wrap_inv in Hl. pose proof (loadConfig_world _ _ _ _ Hl) as ->.
  exists config. split; [exact Hl|].
  simpl applyMutation.
  destruct (getAccount config accountName) as [account|]; [|discriminate].
  split; [eauto|].
  apply bind_inv in H as [(u1 & w1 & _ & H)|(e & _ & [=])].
  apply bind_inv in H as [(u2 & w2 & _ & H)|(e & _ & [=])].
  apply bind_inv in H as [(u3 & w3 & Hs & H)|(e & _ & [=])].
  apply wrap_inv in Hs. destruct u3. apply saveConfig_stores in Hs.
  repeat (apply bind_inv in H as [(? & ? & Hq & H)|(e & _ & [=])];
          apply println_fs in Hq; rewrite <- Hq in Hs; clear Hq).
  apply println_fs in H. now rewrite H.
Qed.

(** ** The commands at work *)

Example removeCmd_repoints_current :
  let w := sample_world sample_repo_fs ["y" +:+ nl; "n" +:+ nl] in
  let r := removeCmd (sample_env_holding two_accounts) "work" w in
  fst r = Ok tt
  /\ ReadFile (fs (snd r)) "/home/u/.krakncat/config.json"
     = Some (sample_marshal (applyMutation sample_env (MutRemove "work") two_accounts))
  /\ sample_marshal (applyMutation sample_env (MutRemove "work") two_accounts)
     = "home:home".
Proof. vm_compute. repeat split. Qed.

Example listCmd_ghost_marks_none :
  let w := sample_world sample_repo_fs [] in
  let r := listCmd (sample_env_holding ghost_store) false w in
  fst r = Ok tt
  /\ Forall (fun line => Contains line "(current)" = false) (stdout (snd r))
  /\ getAccount ghost_store (CurrentAccount ghost_store) = None.
Proof.
  vm_compute. split; [reflexivity|]. split; [|reflexivity].
  repeat constructor.
Qed.

Example listCmd_marks_current :
  let w := sample_world sample_repo_fs [] in
  let r := listCmd (sample_env_holding two_accounts) false w in
  filter (fun line => Contains line "(current)" = true) (stdout (snd r))
  = ["👤 work ✅ (current)" +:+ nl].
Proof. vm_compute. reflexivity. Qed.

Example discovery_with_global_name :
  fst (discoverExistingAccounts sample_env_git
         (sample_world (<["/home/u/.ssh/config" := File sample_ssh_config (octal 6 4 4)]>
                          home_only) []))
  = Ok [ {| Discovered.Name := "Ada Lovelace"; Discovered.Email := EmptyString;
            Discovered.Username := EmptyString;
            Discovered.Source := "Global Git Config";
            Discovered.Suggested := true |};
         {| Discovered.Name := EmptyString; Discovered.Email := EmptyString;
            Discovered.Username := "git";
            Discovered.Source := "SSH Config (github.com-work)";
            Discovered.Suggested := false |} ].
Proof. vm_compute. reflexivity. Qed.

Example setupDirectoryConfig_sample :
  let f := <["/home/u/work" := Dir (octal 7 5 5)]> home_only in
  let r := setupDirectoryConfig sample_env "/home/u/work" sample_work
             (sample_world f []) in
  fst r = Ok tt
  /\ ReadFile (fs (snd r)) "/home/u/work/.gitconfig"
     = Some ("[user]" +:+ nl +:+ tab +:+ "name = worker" +:+ nl
             +:+ tab +:+ "email = w@x.org" +:+ nl)
  /\ globalConfigText sample_env (snd r)
     = includeSection "/home/u/work/" "/home/u/work/.gitconfig".
Proof. vm_compute. repeat split. Qed.

(* ================================================================= *)
(** * Further properties of the code *)

(** ** The store: saving, loading, adding, removing *)

(** X1. What [saveConfig] wrote is what [loadConfig] reads: for a JSON
    reader that inverts the writer on [c], loading after a successful
    save yields [c] again, with its accounts in order and its current
    account. *)
Theorem saveConfig_loadConfig_roundtrip (env : environment) (c : Config)
    (w w' : world) :
  json_Unmarshal env (json_MarshalIndent env c) = Some c ->
  saveConfig env c w = (Ok tt, w') ->
  loadConfig env w' = (Ok c, w').
Proof.
  intros Hjson Hsave. apply saveConfig_stores in Hsave.
  unfold loadConfig.
  pose proof (notExist_read _ _ _ Hsave) as E.
  now rewrite E, Hsave, Hjson.
Qed.

Lemma saveConfig_loadConfig_roundtrip_witness :
  let env := sample_env_holding two_accounts in
  let w' := snd (saveConfig env two_accounts (sample_world home_only [])) in
  loadConfig env w' = (Ok two_accounts, w').
Proof.
  intros env w'.
  apply (saveConfig_loadConfig_roundtrip env two_accounts (sample_world home_only [])).
  - reflexivity.
  - vm_compute. reflexivity.
Defined.

Lemma getAccount_in_insert l i a :
  indexOfName (Name a) l = Some i ->
  getAccount_in (<[i := a]> l) (Name a) = Some a.
Proof.
  revert i; induction l as [|b l IH]; intros i; simpl; [discriminate|].
  destruct (String.eqb_spec (Name b) (Name a)) as [E|E].
  - intros [= <-]. simpl. now rewrite String.eqb_refl.
  - destruct (indexOfName (Name a) l) as [k|] eqn:Ek; [|discriminate].
    intros [= <-]. simpl. apply String.eqb_neq in E. rewrite E. now apply IH.
Qed.

Lemma getAccount_in_insert_other l i a n :
  indexOfName (Name a) l = Some i -> n <> Name a ->
  getAccount_in (<[i := a]> l) n = getAccount_in l n.
Proof.
  revert i; induction l as [|b l IH]; intros i; simpl; [discriminate|].
  destruct (String.eqb_spec (Name b) (Name a)) as [E|E].
  - intros [= <-] Hn. simpl. rewrite E.
    assert (En : String.eqb (Name a) n = false) by (apply String.eqb_neq; congruence).
    now rewrite En.
  - destruct (indexOfName (Name a) l) as [k|] eqn:Ek; [|discriminate].
    intros [= <-] Hn. simpl. destruct (String.eqb (Name b) n); [reflexivity|].
    now apply IH.
Qed.

Lemma getAccount_in_app l l' n :
  getAccount_in (l ++ l') n
  = match getAccount_in l n with
    | Some a => Some a
    | None => getAccount_in l' n
    end.
Proof.
  induction l as [|b l IH]; simpl; [reflexivity|].
  now destruct (String.eqb (Name b) n).
Qed.

Lemma indexOfName_None_getAccount n l :
  indexOfName n l = None -> getAccount_in l n = None.
Proof. rewrite indexOfName_None, getAccount_in_None. trivial. Qed.

(** X2. An account that was added is found under its name -- as
    given, or flagged as default when it is the first account of the
    store -- and the lookup of every other name is what it was. *)
Theorem addAccount_then_getAccount (env : environment) (a : Account) (c : Config) :
  let c' := fst (addAccount env a c) in
  getAccount c' (Name a)
  = Some (if length (Accounts c) =? 0 then setIsDefault true a else a)
  /\ (forall n, n <> Name a -> getAccount c' n = getAccount c n).
Proof.
  simpl. unfold addAccount_store, getAccount.
  destruct (indexOfName (Name a) (Accounts c)) as [i|] eqn:Hi.
  - simpl. split.
    + rewrite (getAccount_in_insert _ _ _ Hi).
      destruct (Accounts c); [discriminate | reflexivity].
    + intros n Hn. now apply getAccount_in_insert_other.
  - pose proof (indexOfName_None_getAccount _ _ Hi) as Hnone.
    cbn [Accounts setAccounts].
    destruct (length (Accounts c ++ [a]) =? 1) eqn:Hlen.
    + rewrite length_app in Hlen. cbn [length] in Hlen.
      apply Nat.eqb_eq in Hlen.
      destruct (Accounts c) as [|b l]; [|cbn [length] in Hlen; lia].
      simpl. rewrite String.eqb_refl. split; [reflexivity|].
      intros n Hn. assert (E : String.eqb (Name a) n = false)
        by (apply String.eqb_neq; congruence).
      now rewrite E.
    + rewrite length_app in Hlen. cbn [length] in Hlen.
      apply Nat.eqb_neq in Hlen.
      replace (length (Accounts c) =? 0) with false
        by (symmetry; apply Nat.eqb_neq; lia).
      simpl Accounts. split.
      * rewrite getAccount_in_app, Hnone. simpl. now rewrite String.eqb_refl.
      * intros n Hn. rewrite getAccount_in_app.
        destruct (getAccount_in (Accounts c) n); [reflexivity|]. simpl.
        assert (E : String.eqb (Name a) n = false)
          by (apply String.eqb_neq; congruence).
        now rewrite E.
Qed.

Lemma addAccount_then_getAccount_witness :
  getAccount (fst (addAccount sample_env sample_home
                     (fst (addAccount sample_env sample_work emptyConfig)))) "work"
  = Some sample_work.
Proof.
  destruct (addAccount_then_getAccount sample_env sample_home
              (fst (addAccount sample_env sample_work emptyConfig))) as [_ H].
  rewrite H by discriminate.
  destruct (addAccount_then_getAccount sample_env sample_work emptyConfig) as [H1 _].
  exact H1.
Defined.

Lemma getAccount_in_filter l name n :
  getAccount_in (filter (fun acc => Name acc <> name) l) n
  = if String.eqb n name then None else getAccount_in l n.
Proof.
  induction l as [|b l IH]; simpl; [now destruct (String.eqb n name)|].
  destruct (decide (Name b <> name)) as [Hb|Hb].
  - rewrite filter_cons_True by exact Hb. simpl. rewrite IH.
    destruct (String.eqb_spec (Name b) n) as [E|E]; [|reflexivity].
    assert (En : String.eqb n name = false) by (apply String.eqb_neq; congruence).
    now rewrite En.
  - rewrite filter_cons_False by exact Hb. rewrite IH.
    apply dec_stable in Hb.
    destruct (String.eqb_spec n name) as [E|E]; [reflexivity|].
    assert (En : String.eqb (Name b) n = false) by (apply String.eqb_neq; congruence).
    now rewrite En.
Qed.

(** X3. Removing an account removes every entry of that name -- the
    name is no longer found -- leaves the lookup of every other name as
    it was, keeps the remaining accounts in their order, and shortens
    the list when the name was present. *)
Theorem removeAccount_then_getAccount (name : string) (c : Config) :
  let c' := removeAccount_store name c in
  getAccount c' name = None
  /\ (forall n, n <> name -> getAccount c' n = getAccount c n)
  /\ Accounts c' = filter (fun acc => Name acc <> name) (Accounts c)
  /\ (is_Some (getAccount c name) -> length (Accounts c') < length (Accounts c)).
Proof.
  assert (Hacc : Accounts (removeAccount_store name c)
                 = filter (fun acc => Name acc <> name) (Accounts c)).
  { unfold removeAccount_store. simpl.
    destruct (String.eqb (CurrentAccount c) name); [|reflexivity].
    now destruct (filter (fun acc => Name acc <> name) (Accounts c)). }
  simpl. unfold getAccount. rewrite Hacc. repeat split.
  - rewrite getAccount_in_filter. now rewrite String.eqb_refl.
  - intros n Hn. rewrite getAccount_in_filter.
    apply String.eqb_neq in Hn. now rewrite Hn.
  - intros [a Ha]. apply getAccount_in_Some in Ha as [Hin Hname].
    eapply length_filter_lt; [exact Hin|]. intros H. now apply H.
Qed.

Lemma removeAccount_then_getAccount_witness :
  getAccount (removeAccount_store "work" two_accounts) "home" = Some sample_home
  /\ length (Accounts (removeAccount_store "work" two_accounts)) < 2.
Proof.
  destruct (removeAccount_then_getAccount "work" two_accounts) as (_ & H & _ & Hlen).
  split.
  - rewrite H by discriminate. reflexivity.
  - apply Hlen. vm_compute. eauto.
Defined.

Lemma filter_current_none (c : Config) l :
  (forall b, b ∈ l -> Name b <> CurrentAccount c) ->
  filter (fun account => accountStatus c account <> EmptyString) l = [].
Proof.
  intros H. apply filter_none. intros b Hb Hs. apply Hs.
  unfold accountStatus. specialize (H b Hb). apply String.eqb_neq in H.
  now rewrite H.
Qed.

(** X4. In a store without duplicate names whose current account
    exists, the listing marks exactly one account as current: the one
    that [getAccount] returns for the current name. *)
Theorem listing_marks_the_current_account (c : Config) (a : Account) :
  NoDup (map Name (Accounts c)) ->
  getAccount c (CurrentAccount c) = Some a ->
  shownAsCurrent c = [a].
Proof.
  unfold getAccount, shownAsCurrent.
  induction (Accounts c) as [|b l IH]; simpl; [discriminate|].
  intros Hnd Hget. apply NoDup_cons in Hnd as [Hb Hnd].
  destruct (String.eqb_spec (Name b) (CurrentAccount c)) as [E|E].
  - injection Hget as ->. rewrite filter_cons_True.
    + f_equal. apply filter_current_none. intros b' Hb' Heq. apply Hb.
      rewrite E, <- Heq. now apply list_elem_of_fmap_2.
    + unfold accountStatus. apply String.eqb_eq in E. now rewrite E.
  - rewrite filter_cons_False; [now apply IH|].
    unfold accountStatus. apply String.eqb_neq in E. rewrite E.
    intros H. now apply H.
Qed.

Lemma listing_marks_the_current_account_witness :
  shownAsCurrent two_accounts = [sample_work].
Proof.
  apply listing_marks_the_current_account; [|reflexivity].
  apply (bool_decide_unpack (NoDup (map Name (Accounts two_accounts)))).
  vm_compute. exact I.
Defined.

(** ** The commands: what they refuse and in which order they act *)

Lemma readLine_run w :
  readLine w = (Ok (hd EmptyString (stdin w)),
                {| fs := fs w; stdin := tl (stdin w); stdout := stdout w;
                   procs := procs w |}).
Proof. unfold readLine. destruct w as [f [|line rest] o p]; reflexivity. Qed.

(** X5. [removeCmd] changes nothing unless the removal is confirmed.
    For an unknown name it returns the not-found error that lists the
    stored names and leaves the world as it was; for a known name and an
    answer other than "y" or "yes" (in any case, with surrounding white
    space; also the end of the input) it succeeds without touching a
    file or running a program, having read one line. *)
Theorem removeCmd_needs_confirmation (env : environment) (accountName : string)
    (config : Config) (w : world) :
  loadConfig env w = (Ok config, w) ->
  (getAccount config accountName = None ->
   removeCmd env accountName w
   = (Err (ErrUnknownAccount accountName (map Name (Accounts config))), w))
  /\ (is_Some (getAccount config accountName) ->
      let resp := ToLower (TrimSpace (hd EmptyString (stdin w))) in
      resp <> "y" -> resp <> "yes" ->
      exists w',
        removeCmd env accountName w = (Ok tt, w')
        /\ fs w' = fs w /\ procs w' = procs w /\ stdin w' = tl (stdin w)).
Proof.
  intros Hload. unfold removeCmd.
  erewrite bind_Ok by (apply wrap_Ok; exact Hload).
  split.
  - intros ->. reflexivity.
  - intros [account ->] Hy Hyes.
    erewrite bind_Ok by apply print_run.
    erewrite bind_Ok by apply readLine_run.
    apply String.eqb_neq in Hy, Hyes. cbn [stdin]. rewrite Hy, Hyes. simpl.
    eexists. split; [apply println_run|]. simpl. repeat split.
Qed.

Lemma removeCmd_needs_confirmation_witness :
  let env := sample_env_holding two_accounts in
  let w := sample_world sample_repo_fs ["No" +:+ nl] in
  fst (removeCmd env "ghost" w) = Err (ErrUnknownAccount "ghost" ["work"; "home"])
  /\ exists w', removeCmd env "work" w = (Ok tt, w') /\ fs w' = fs w.
Proof.
  intros env w.
  assert (Hload : loadConfig env w = (Ok two_accounts, w)) by (vm_compute; reflexivity).
  destruct (removeCmd_needs_confirmation env "ghost" two_accounts w Hload) as [H1 _].
  destruct (removeCmd_needs_confirmation env "work" two_accounts w Hload) as [_ H2].
  split.
  - rewrite H1 by reflexivity. reflexivity.
  - destruct H2 as (w' & Hrun & Hfs & _); [vm_compute; eauto | discriminate..|].
    eauto.
Defined.

(** X6. A command given an unknown account name changes nothing: [useCmd]
    (global or for a repository) and [globalCmd] return the not-found
    error -- "no accounts" for an empty store, else the error listing the
    stored names -- without running git and without saving; and [useCmd]
    given both a path and [--global] stops before it reads anything. *)
Theorem unknown_account_changes_nothing (env : environment) (accountName : string)
    (config : Config) (w : world) :
  (forall p more globalFlag,
     useCmd env accountName (p :: more) true w = (Err ErrPathAndGlobal, w)
     /\ (loadConfig env w = (Ok config, w) ->
         getAccount config accountName = None ->
         useCmd env accountName [] globalFlag w
         = (Err (accountNotFound config accountName), w)
         /\ globalCmd env accountName w
            = (Err (accountNotFound config accountName), w)
         /\ (isGitRepository (fs w) p = true ->
             useCmd env accountName (p :: more) false w
             = (Err (accountNotFound config accountName), w))))
  /\ kind (accountNotFound config accountName) = NotFound
  /\ (Accounts config = [] -> accountNotFound config accountName = ErrNoAccounts).
Proof.
  split; [|split].
  - intros p more globalFlag. split; [reflexivity|].
    intros Hload Hnone. repeat split.
    + unfold useCmd. erewrite bind_Ok by reflexivity.
      erewrite bind_Ok by (apply wrap_Ok; exact Hload). now rewrite Hnone.
    + unfold globalCmd.
      erewrite bind_Ok by (apply wrap_Ok; exact Hload). now rewrite Hnone.
    + intros Hrepo. unfold useCmd. simpl negb. cbv iota.
      assert (Hstart : forall k : string * bool -> M unit,
                 bind (fun w0 => if negb (isGitRepository (fs w0) p)
                                 then (Err (ErrNotGitRepository p), w0)
                                 else (Ok (p, false), w0)) k w
                 = k (p, false) w).
      { intros k. apply bind_Ok. now rewrite Hrepo. }
      rewrite Hstart.
      erewrite bind_Ok by (apply wrap_Ok; exact Hload). now rewrite Hnone.
  - unfold accountNotFound. now destruct (length (Accounts config) =? 0).
  - intros E. unfold accountNotFound. now rewrite E.
Qed.

Lemma unknown_account_changes_nothing_witness :
  let env := sample_env_holding two_accounts in
  let w := sample_world sample_repo_fs [] in
  useCmd env "ghost" [] false w
  = (Err (ErrUnknownAccount "ghost" ["work"; "home"]), w)
  /\ useCmd env "ghost" ["/repo"] false w
     = (Err (ErrUnknownAccount "ghost" ["work"; "home"]), w).
Proof.
  intros env w.
  destruct (unknown_account_changes_nothing env "ghost" two_accounts w) as [H _].
  destruct (H "/repo" [] false) as [_ H'].
  destruct H' as (H1 & _ & H3); [vm_compute; reflexivity | reflexivity |].
  split; [exact H1 | apply H3; vm_compute; reflexivity].
Defined.

Lemma setGlobal_run env key value w :
  let argv := ["git"; "config"; "--global"; key; value] in
  let r := run_process env argv (fs w) in
  setGitConfig env key value EmptyString true w
  = (if exit_ok r then Ok tt else Err ErrRunGit,
     {| fs := fs_after r; stdin := stdin w; stdout := stdout w;
        procs := procs w ++ [argv] |}).
Proof. apply (setGitConfig_run env key value EmptyString true w). Qed.

(** X7. [useCmd] without a path saves the store only after both git
    commands have exited with status zero.  It runs
    [git config --global user.name] first and [user.email] second; when
    one of them fails it returns that git error and the file system is
    the one git left -- the store is not written, although [user.name]
    may already be changed. *)
Theorem useCmd_global_saves_last (env : environment) (accountName : string)
    (globalFlag : bool) (config : Config) (account : Account) (w : world) :
  loadConfig env w = (Ok config, w) ->
  getAccount config accountName = Some account ->
  let argv1 := ["git"; "config"; "--global"; "user.name"; Username account] in
  let argv2 := ["git"; "config"; "--global"; "user.email"; Email account] in
  let r1 := run_process env argv1 (fs w) in
  let r2 := run_process env argv2 (fs_after r1) in
  (exit_ok r1 = false ->
   exists e w',
     useCmd env accountName [] globalFlag w = (Err e, w')
     /\ kind e = GitCommandFailed
     /\ procs w' = procs w ++ [argv1] /\ fs w' = fs_after r1)
  /\ (exit_ok r1 = true -> exit_ok r2 = false ->
      exists e w',
        useCmd env accountName [] globalFlag w = (Err e, w')
        /\ kind e = GitCommandFailed
        /\ procs w' = procs w ++ [argv1; argv2] /\ fs w' = fs_after r2)
  /\ (exit_ok r1 = true -> exit_ok r2 = true ->
      forall w', useCmd env accountName [] globalFlag w = (Ok tt, w') ->
      procs w' = procs w ++ [argv1; argv2]
      /\ ReadFile (fs w') (getConfigPath env)
         = Some (json_MarshalIndent env (setCurrent accountName config))).
Proof.
  intros Hload Hacc argv1 argv2 r1 r2.
  pose proof (setGlobal_run env "user.name" (Username account) w) as H1.
  simpl in H1. fold argv1 r1 in H1.
  unfold useCmd. erewrite bind_Ok by reflexivity. simpl fst. simpl snd.
  erewrite bind_Ok by (apply wrap_Ok; exact Hload). rewrite Hacc.
  split; [|split].
  - intros Hok. rewrite Hok in H1. eexists. eexists. split.
    { eapply bind_Err. apply wrap_Err. exact H1. }
    repeat split.
  - intros Hok1 Hok2. rewrite Hok1 in H1.
    erewrite bind_Ok by (apply wrap_Ok; exact H1).
    match goal with |- context [bind (wrap _ (setGitConfig _ _ _ _ _)) _ ?w1] =>
      pose proof (setGlobal_run env "user.email" (Email account) w1) as H2
    end.
    simpl in H2. fold argv2 r2 in H2. rewrite Hok2 in H2.
    eexists. eexists. split.
    { eapply bind_Err. apply wrap_Err. exact H2. }
    split; [reflexivity|]. simpl. rewrite <- app_assoc. now split.
  - intros Hok1 Hok2 w' Hrun. rewrite Hok1 in H1.
    erewrite bind_Ok in Hrun by (apply wrap_Ok; exact H1).
    match type of Hrun with context [bind (wrap _ (setGitConfig _ _ _ _ _)) _ ?w1] =>
      pose proof (setGlobal_run env "user.email" (Email account) w1) as H2
    end.
    simpl in H2. fold argv2 r2 in H2. rewrite Hok2 in H2.
    erewrite bind_Ok in Hrun by (apply wrap_Ok; exact H2).
    apply bind_inv in Hrun as [(u3 & w3 & Hs & Hrun)|(e & _ & [=])].
    apply wrap_inv in Hs. destruct u3.
    assert (Hprocs : procs w3 = procs w ++ [argv1; argv2]).
    { unfold saveConfig in Hs.
      apply bind_inv in Hs as [(u & wa & Ha & Hs)|(e & _ & [=])].
      apply wrap_inv in Ha. unfold ensureConfigDir in Ha.
      destruct (MkdirAll env (filepath_Join [homeDir env; ".krakncat"]) (octal 7 5 5)
                  _) in Ha; [|discriminate].
      injection Ha as _ <-.
      destruct (WriteFile env (getConfigPath env) _ (octal 6 4 4) _) in Hs;
        [|discriminate].
      injection Hs as <-. simpl. now rewrite <- app_assoc. }
    apply saveConfig_stores in Hs.
    assert (Hkeep : forall wa wb text,
               println text wa = (Ok tt, wb) ->
               procs wb = procs wa /\ fs wb = fs wa).
    { intros wa wb text Hp. rewrite println_run in Hp. injection Hp as <-. now split. }
    repeat (apply bind_inv in Hrun as [(? & ? & Hq & Hrun)|(e & _ & [=])];
            match type of Hq with _ = (Ok ?u, _) => destruct u end;
            apply Hkeep in Hq as [Hq1 Hq2];
            rewrite <- Hq1 in Hprocs; rewrite <- Hq2 in Hs; clear Hq1 Hq2).
    apply Hkeep in Hrun as [Hq1 Hq2]. rewrite Hq1, Hq2. now split.
Qed.

Lemma useCmd_global_saves_last_witness :
  let env := sample_env_holding two_accounts in
  let w := sample_world sample_repo_fs [] in
  ReadFile (fs (snd (useCmd env "home" [] false w))) (getConfigPath env)
  = Some (sample_marshal (setCurrent "home" two_accounts)).
Proof.
  intros env w.
  assert (Hload : loadConfig env w = (Ok two_accounts, w)) by (vm_compute; reflexivity).
  destruct (useCmd_global_saves_last env "home" false two_accounts sample_home w
              Hload eq_refl) as (_ & _ & H).
  destruct (H eq_refl eq_refl (snd (useCmd env "home" [] false w))) as [_ Hread].
  - vm_compute. reflexivity.
  - exact Hread.
Defined.

(** ** Key suffixes *)

Lemma has_dot_cons c s : has_dot (String c s) = Ascii.eqb c "." || has_dot s.
Proof. unfold has_dot. simpl. now destruct (Ascii.eqb c "."). Qed.

Lemma first_label_dot_free s : has_dot (first_label s) = false.
Proof.
  induction s as [|c s IH]; [reflexivity|]. simpl.
  destruct (Ascii.eqb c ".") eqn:E; [reflexivity|].
  now rewrite has_dot_cons, E, IH.
Qed.

Lemma slice_to_dot_free n s : has_dot s = false -> has_dot (slice_to n s) = false.
Proof.
  revert s; induction n as [|n IH]; intros [|c s]; simpl; try reflexivity.
  rewrite !has_dot_cons. intros H. apply orb_false_iff in H as [-> H].
  now rewrite (IH _ H).
Qed.

Lemma slice_to_length n s : String.length (slice_to n s) <= n.
Proof.
  revert s; induction n as [|n IH]; intros [|c s]; simpl; try lia.
  specialize (IH s). lia.
Qed.

(** X8. The suffix [generateKeySuffix] derives is at most 8 bytes long and
    holds no dot, so that it is one label of the key file's name; and
    deriving a suffix from a suffix changes nothing. *)
Theorem generateKeySuffix_is_a_label (hostname : string) :
  String.length (generateKeySuffix hostname) <= 8
  /\ Contains (generateKeySuffix hostname) "." = false
  /\ generateKeySuffix (generateKeySuffix hostname) = generateKeySuffix hostname.
Proof.
  assert (Hlen : String.length (generateKeySuffix hostname) <= 8).
  { rewrite generateKeySuffix_refines. unfold deriveKeySuffix_spec.
    rewrite <- slice_to_substring. apply slice_to_length. }
  assert (Hdot : has_dot (generateKeySuffix hostname) = false).
  { rewrite generateKeySuffix_refines. unfold deriveKeySuffix_spec.
    rewrite <- slice_to_substring. apply slice_to_dot_free, first_label_dot_free. }
  repeat split; [exact Hlen | exact Hdot |].
  rewrite (generateKeySuffix_refines (generateKeySuffix hostname)).
  unfold deriveKeySuffix_spec.
  rewrite (strip_common_prefixes_no_dot _ Hdot), (first_label_no_dot _ Hdot).
  rewrite <- slice_to_substring. now apply slice_to_all.
Qed.

(** ** Regular expressions: the matcher against the matched language *)

Lemma nullable_lang r : nullable r = true <-> lang r EmptyString.
Proof.
  induction r as [| |m|r1 IH1 r2 IH2|r1 IH1 r2 IH2|r IH]; simpl.
  - split; [discriminate | intros H; inversion H].
  - split; [constructor | reflexivity].
  - split; [discriminate | intros H; inversion H].
  - rewrite andb_true_iff, IH1, IH2. split.
    + intros [H1 H2]. exact (LSeq _ _ _ _ H1 H2).
    + intros H. inversion H as [| |? ? s1 s2 H1 H2 E1 E2| | | |]; subst.
      destruct s1; [|discriminate]. destruct s2; [|discriminate]. now split.
  - rewrite orb_true_iff, IH1, IH2. split.
    + intros [H|H]; [now apply LAltL | now apply LAltR].
    + intros H. inversion H; subst; [now left | now right].
  - split; [constructor | reflexivity].
Qed.

Lemma lang_Star_cons r c s :
  lang (Star r) (String c s) ->
  exists s1 s2, s = s1 +:+ s2 /\ lang r (String c s1) /\ lang (Star r) s2.
Proof.
  intros H. remember (Star r) as r' eqn:Er. remember (String c s) as t eqn:Et.
  revert c s Et. induction H as [| | | | | |r0 s1 s2 H1 _ H2 IH2]; try discriminate.
  injection Er as ->. intros c s Et.
  destruct s1 as [|c1 s1].
  - simpl in Et. now apply IH2.
  - simpl in Et. injection Et as -> <-. now exists s1, s2.
Qed.

Lemma deriv_lang r c s : lang (deriv c r) s <-> lang r (String c s).
Proof.
  revert s. induction r as [| |m|r1 IH1 r2 IH2|r1 IH1 r2 IH2|r IH]; intros s; simpl.
  - split; intros H; inversion H.
  - split; intros H; inversion H.
  - destruct (m c) eqn:Em; split; intros H; inversion H; subst.
    + now constructor.
    + constructor.
    + congruence.
  - assert (Hseq : lang (Seq (deriv c r1) r2) s ->
                   lang (Seq r1 r2) (String c s)).
    { intros H. inversion H as [| |? ? s1 s2 H1 H2| | | |]; subst.
      apply IH1 in H1. exact (LSeq _ _ _ _ H1 H2). }
    assert (Hback : lang (Seq r1 r2) (String c s) ->
                    lang (Seq (deriv c r1) r2) s
                    \/ (lang r1 EmptyString /\ lang (deriv c r2) s)).
    { intros H. inversion H as [| |? ? s1 s2 H1 H2 E1 E2| | | |]; subst.
      destruct s1 as [|c1 s1].
      - simpl in E2. subst s2. right. split; [exact H1 | now apply IH2].
      - simpl in E2. injection E2 as -> <-. left.
        apply LSeq; [now apply IH1 | exact H2]. }
    destruct (nullable r1) eqn:En.
    + split.
      * intros H. inversion H; subst; [now apply Hseq|].
        apply nullable_lang in En.
        apply (LSeq _ _ EmptyString (String c s) En). now apply IH2.
      * intros H. destruct (Hback H) as [H1|[_ H2]];
          [now apply LAltL | now apply LAltR].
    + split; [exact Hseq|].
      intros H. destruct (Hback H) as [H1|[H1 _]]; [exact H1|].
      apply nullable_lang in H1. congruence.
  - split; intros H; inversion H; subst.
    + apply LAltL. now apply IH1.
    + apply LAltR. now apply IH2.
    + apply LAltL. now apply IH1.
    + apply LAltR. now apply IH2.
  - split.
    + intros H. inversion H as [| |? ? s1 s2 H1 H2| | | |]; subst.
      apply IH in H1. exact (LStarApp _ _ _ H1 H2).
    + intros H. apply lang_Star_cons in H as (s1 & s2 & -> & H1 & H2).
      apply LSeq; [now apply IH | exact H2].
Qed.

Lemma MatchString_lang r s : MatchString r s = true <-> lang r s.
Proof.
  revert r; induction s as [|c s IH]; intros r; simpl.
  - apply nullable_lang.
  - rewrite IH. apply deriv_lang.
Qed.

(** ** Host names *)

Lemma allBytes_app m a b : allBytes m (a +:+ b) = allBytes m a && allBytes m b.
Proof.
  induction a as [|c a IH]; simpl; [reflexivity|].
  now rewrite IH, andb_assoc.
Qed.

Lemma lastByte_snoc c mid d : lastByte c (mid +:+ String d EmptyString) = d.
Proof. revert c; induction mid as [|x mid IH]; intros c; simpl; [reflexivity | apply IH]. Qed.

Lemma snoc_lastByte c s :
  exists mid, String c s = mid +:+ String (lastByte c s) EmptyString.
Proof.
  revert c; induction s as [|x s IH]; intros c; simpl.
  - now exists EmptyString.
  - destruct (IH x) as [mid Hmid]. exists (String c mid). simpl. now rewrite <- Hmid.
Qed.

Lemma lang_Star_Class m s : lang (Star (Class m)) s <-> allBytes m s = true.
Proof.
  split.
  - intros H. remember (Star (Class m)) as r eqn:Er.
    induction H as [| | | | | |r0 s1 s2 H1 _ H2 IH2]; try discriminate.
    + reflexivity.
    + injection Er as ->. inversion H1; subst. simpl.
      rewrite IH2 by reflexivity. now rewrite andb_true_r.
  - induction s as [|c s IH]; simpl; [constructor|].
    intros H. apply andb_true_iff in H as [Hc Hs].
    apply (LStarApp _ (String c EmptyString) s); [now constructor | now apply IH].
Qed.

Lemma alnum_hostByte c : alnum c = true -> hostByte c = true.
Proof. unfold hostByte. now intros ->. Qed.

Lemma hostnameRegex_shape s : MatchString hostnameRegex s = hostnameShape s.
Proof.
  apply eq_true_iff_eq. rewrite MatchString_lang. unfold hostnameRegex, Opt. split.
  - intros H. inversion H as [| |? ? s1 s2 H1 H2| | | |]; subst.
    inversion H1 as [|? c Hc| | | | |]; subst. simpl.
    rewrite Hc. simpl.
    inversion H2 as [| | |? ? ? H3|? ? ? H3| |]; subst.
    + inversion H3; subst. simpl. exact Hc.
    + inversion H3 as [| |? ? mid t Hmid Ht| | | |]; subst.
      inversion Ht as [|? d Hd| | | | |]; subst.
      apply lang_Star_Class in Hmid.
      rewrite allBytes_app, Hmid, lastByte_snoc, Hd. simpl.
      now rewrite (alnum_hostByte _ Hd).
  - destruct s as [|c rest]; simpl; [discriminate|].
    intros H. apply andb_true_iff in H as [H Hlast].
    apply andb_true_iff in H as [Hc Hrest].
    apply (LSeq _ _ (String c EmptyString) rest); [now constructor|].
    destruct rest as [|x rest]; [apply LAltL; constructor|].
    apply LAltR. simpl in Hlast.
    destruct (snoc_lastByte x rest) as [mid Hmid].
    rewrite Hmid in Hrest |- *.
    rewrite allBytes_app in Hrest. apply andb_true_iff in Hrest as [Hmids _].
    apply LSeq; [now apply lang_Star_Class | now constructor].
Qed.

Lemma allBytes_Contains m s x c :
  allBytes m s = true -> m c = false -> c ∈ list_ascii_of_string x ->
  Contains s x = false.
Proof.
  intros Hs Hc Hin. destruct (Contains s x) eqn:E; [|reflexivity].
  apply Contains_elim in E as (u & v & ->).
  rewrite !allBytes_app in Hs.
  apply andb_true_iff in Hs as [_ Hs]. apply andb_true_iff in Hs as [Hx _].
  clear -Hx Hc Hin. exfalso. induction x as [|y x IH]; simpl in *.
  - inversion Hin.
  - apply andb_true_iff in Hx as [Hy Hx].
    apply elem_of_cons in Hin as [->|Hin]; [congruence | now apply IH].
Qed.

Lemma hostnameShape_allBytes s : hostnameShape s = true -> allBytes hostByte s = true.
Proof.
  destruct s as [|c rest]; simpl; [discriminate|].
  intros H. apply andb_true_iff in H as [H _].
  apply andb_true_iff in H as [Hc Hrest].
  now rewrite (alnum_hostByte _ Hc), Hrest.
Qed.

Lemma hostnameRegex_no_scheme hostname :
  MatchString hostnameRegex hostname = true -> Contains hostname "://" = false.
Proof.
  rewrite hostnameRegex_shape. intros H.
  apply (allBytes_Contains hostByte _ _ ":" (hostnameShape_allBytes _ H));
    [reflexivity | left].
Qed.

Lemma isValidHostname_hostnameShape (url_Parse_ok : string -> bool) hostname :
  isValidHostname url_Parse_ok hostname = hostnameShape hostname.
Proof.
  unfold isValidHostname.
  destruct (String.eqb_spec hostname EmptyString) as [->|_]; [reflexivity|].
  destruct (MatchString hostnameRegex hostname) eqn:E; simpl.
  - rewrite (hostnameRegex_no_scheme _ E). now rewrite <- hostnameRegex_shape.
  - now rewrite <- hostnameRegex_shape.
Qed.

(** X9. [isValidHostname] accepts exactly the strings that start and end
    with a letter or a digit and hold only letters, digits, dashes and
    dots.  Such a string never contains [://], so the call of
    [url.Parse] is never reached and its answer plays no part. *)
Theorem isValidHostname_shape (url_Parse_ok : string -> bool) (hostname : string) :
  isValidHostname url_Parse_ok hostname = hostnameShape hostname
  /\ (MatchString hostnameRegex hostname = true -> Contains hostname "://" = false).
Proof.
  split; [apply isValidHostname_hostnameShape | apply hostnameRegex_no_scheme].
Qed.

Lemma HasSuffix_app_r p r x : HasSuffix r x = true -> HasSuffix (p +:+ r) x = true.
Proof.
  intros H. induction p as [|c p IH]; [exact H|].
  rewrite HasSuffix_unfold. simpl String.append. cbv iota. rewrite IH.
  now destruct (String.eqb (String c (p +:+ r)) x).
Qed.

Lemma HasSuffix_lastByte c s x :
  HasSuffix (String c s) (String x EmptyString) = true -> lastByte c s = x.
Proof.
  revert c; induction s as [|y s IH]; intros c; rewrite HasSuffix_unfold.
  - simpl. destruct (Ascii.eqb_spec c x) as [->|]; [reflexivity | discriminate].
  - simpl String.eqb. destruct (Ascii.eqb c x); simpl lastByte; apply IH.
Qed.

Lemma TrimPrefix_dotsInside s q :
  dotsInside s -> dotsInside (TrimPrefix s (q +:+ ".")).
Proof.
  intros Hs. unfold TrimPrefix.
  destruct (CutPrefix s (q +:+ ".")) as [r|] eqn:E; [|exact Hs].
  apply CutPrefix_Some in E. subst s.
  destruct Hs as (_ & _ & Hsuf & Hdots).
  assert (Hr : r <> EmptyString).
  { intros ->. rewrite app_nil_r_s in Hsuf. now rewrite HasSuffix_app in Hsuf. }
  repeat split.
  - exact Hr.
  - destruct r as [|x r]; [reflexivity|]. simpl.
    destruct (Ascii.eqb_spec x ".") as [->|]; [|reflexivity].
    rewrite app_assoc_s in Hdots.
    change ("." +:+ String "." r) with (".." +:+ r) in Hdots.
    now rewrite Contains_intro in Hdots.
  - destruct (HasSuffix r ".") eqn:Er; [|reflexivity].
    now rewrite (HasSuffix_app_r _ _ _ Er) in Hsuf.
  - destruct (Contains r "..") eqn:Er; [|reflexivity].
    rewrite (Contains_within _ (q +:+ ".") r EmptyString "..") in Hdots;
      [discriminate | now rewrite app_nil_r_s | exact Er].
Qed.

Lemma hostnameShape_dotsInside s :
  hostnameShape s = true -> Contains s ".." = false -> dotsInside s.
Proof.
  destruct s as [|c rest]; simpl hostnameShape; [discriminate|].
  intros H Hdots. apply andb_true_iff in H as [H Hlast].
  apply andb_true_iff in H as [Hc _].
  repeat split.
  - discriminate.
  - simpl. destruct (Ascii.eqb_spec c ".") as [->|]; [discriminate Hc | reflexivity].
  - destruct (HasSuffix (String c rest) ".") eqn:E; [|reflexivity].
    apply HasSuffix_lastByte in E. rewrite E in Hlast. discriminate Hlast.
  - exact Hdots.
Qed.

(** X10. A host name that [isValidHostname] accepts and that holds no two
    dots in a row gets a key suffix that is not empty. *)
Theorem valid_hostname_has_a_suffix (url_Parse_ok : string -> bool)
    (hostname : string) :
  isValidHostname url_Parse_ok hostname = true ->
  Contains hostname ".." = false ->
  generateKeySuffix hostname <> EmptyString.
Proof.
  intros Hvalid Hdots.
  rewrite (isValidHostname_hostnameShape url_Parse_ok hostname) in Hvalid.
  pose proof (hostnameShape_dotsInside _ Hvalid Hdots) as H.
  apply (TrimPrefix_dotsInside _ "git") in H.
  apply (TrimPrefix_dotsInside _ "code") in H.
  apply (TrimPrefix_dotsInside _ "source") in H.
  rewrite generateKeySuffix_refines.
  unfold deriveKeySuffix_spec, strip_common_prefixes. cbv [fold_left].
  change ("git" +:+ ".") with "git." in H.
  change ("code" +:+ ".") with "code." in H.
  change ("source" +:+ ".") with "source." in H.
  destruct H as (Hne & Hpre & _ & _).
  destruct (TrimPrefix (TrimPrefix (TrimPrefix hostname "git.") "code.") "source.")
    as [|c s]; [congruence|].
  simpl in Hpre. simpl first_label.
  destruct (Ascii.eqb c "."); [discriminate Hpre|].
  rewrite <- slice_to_substring. discriminate.
Qed.

Lemma valid_hostname_has_a_suffix_witness :
  generateKeySuffix "git.company.com" <> EmptyString.
Proof.
  apply (valid_hostname_has_a_suffix (fun _ => true) "git.company.com");
    reflexivity.
Defined.

(** Two dots in a row pass the validation and can leave the suffix
    empty. *)
Example empty_suffix_of_a_valid_hostname :
  isValidHostname (fun _ => true) "git..com" = true
  /\ generateKeySuffix "git..com" = EmptyString.
Proof. split; reflexivity. Qed.

(** ** providers.go: accounts with a provider *)

Lemma Join_Split s c : Join (Split s c) (String c EmptyString) = s.
Proof.
  induction s as [|x s IH]; [reflexivity|]. simpl Split.
  destruct (Split s c) as [|p ps] eqn:E; [now destruct (Split_nonempty s c)|].
  destruct (Ascii.eqb_spec x c) as [->|_].
  - change (Join (EmptyString :: p :: ps) (String c EmptyString))
      with (String c (Join (p :: ps) (String c EmptyString))).
    now rewrite IH.
  - destruct ps as [|q qs]; cbn [Join] in *; now rewrite <- IH.
Qed.

Lemma DefaultProviders_github : DefaultProviders_at "github" = github.
Proof. reflexivity. Qed.

(** X11. [detectProviderFromSSHHost] against [GetSSHHost]: the host alias of
    an account whose provider's host name holds [github.com] is taken
    for GitHub; and from the alias of an account on another server, as
    long as it holds none of the three known names and the account name
    holds no dash, the provider's host name is recovered, with the
    defaults of a custom provider around it. *)
Theorem detectProviderFromSSHHost_of_GetSSHHost (a : AccountV2) :
  (Contains (Prov.Hostname (V2.Provider a)) "github.com" = true ->
   detectProviderFromSSHHost (GetSSHHost a) = Some github)
  /\ (Contains (GetSSHHost a) "github.com" = false ->
      Contains (GetSSHHost a) "gitlab.com" = false ->
      Contains (GetSSHHost a) "gitea" = false ->
      Contains (V2.Name a) "-" = false ->
      detectProviderFromSSHHost (GetSSHHost a)
      = Some {| Prov.Name := "custom";
                Prov.DisplayName := "Custom Git Host";
                Prov.Hostname := Prov.Hostname (V2.Provider a);
                Prov.SSHUser := "git";
                Prov.SSHPort := EmptyString;
                Prov.WebURL := "https://" +:+ Prov.Hostname (V2.Provider a);
                Prov.KeySuffix := "custom" |}).
Proof.
  unfold detectProviderFromSSHHost. split.
  - intros H. unfold GetSSHHost.
    rewrite (Contains_app_l _ _ _ H). now rewrite DefaultProviders_github.
  - intros H1 H2 H3 Hname. rewrite H1, H2, H3.
    unfold GetSSHHost.
    change ("-" +:+ V2.Name a) with (String "-" (V2.Name a)).
    rewrite Split_app, (Split_one_line _ _ Hname).
    rewrite length_app. simpl length.
    destruct (Split (Prov.Hostname (V2.Provider a)) "-") as [|p ps] eqn:E;
      [now destruct (Split_nonempty (Prov.Hostname (V2.Provider a)) "-")|].
    replace (2 <=? length (p :: ps) + 1) with true
      by (symmetry; apply Nat.leb_le; simpl; lia).
    replace (length (p :: ps) + 1 - 1) with (length (p :: ps)) by lia.
    rewrite take_app_length, <- E, Join_Split. reflexivity.
Qed.

Lemma detectProviderFromSSHHost_of_GetSSHHost_witness :
  option_map Prov.Hostname (detectProviderFromSSHHost (GetSSHHost sample_custom))
  = Some "git.acme.io".
Proof.
  destruct (detectProviderFromSSHHost_of_GetSSHHost sample_custom) as [_ H].
  rewrite H; reflexivity.
Defined.

(** With a dash in the account name, the part of the name before its
    last dash is taken for a part of the host name. *)
Example detectProviderFromSSHHost_dash_in_name :
  option_map Prov.Hostname (detectProviderFromSSHHost "git.acme.io-my-work")
  = Some "git.acme.io-my".
Proof. reflexivity. Qed.

(** X12. The lines of the host block of an account: an empty line, the host
    alias, host name, user and key file, a port line exactly when the
    provider names a port other than 22, and the end of the last line. *)
Theorem GenerateSSHConfig_lines (env : environment) (a : AccountV2) :
  let p := V2.Provider a in
  Contains (GetSSHHost a) nl = false ->
  Contains (Prov.Hostname p) nl = false ->
  Contains (Prov.SSHUser p) nl = false ->
  Contains (GetKeyPath env a) nl = false ->
  Contains (Prov.SSHPort p) nl = false ->
  Split (GenerateSSHConfig env a) LF
  = [EmptyString;
     "Host " +:+ GetSSHHost a;
     "  HostName " +:+ Prov.Hostname p;
     "  User " +:+ Prov.SSHUser p;
     "  IdentityFile " +:+ GetKeyPath env a]
    ++ (if decide (Prov.SSHPort p = EmptyString \/ Prov.SSHPort p = "22")
        then [] else ["  Port " +:+ Prov.SSHPort p])
    ++ [EmptyString].
Proof.
  intros p Hhost Hname Huser Hkey Hport. unfold GenerateSSHConfig. fold p.
  assert (Hlines :
    forall rest,
      Split (nl +:+ "Host " +:+ GetSSHHost a +:+ nl
             +:+ "  HostName " +:+ Prov.Hostname p +:+ nl
             +:+ "  User " +:+ Prov.SSHUser p +:+ nl
             +:+ "  IdentityFile " +:+ GetKeyPath env a +:+ String LF rest) LF
      = [EmptyString; "Host " +:+ GetSSHHost a; "  HostName " +:+ Prov.Hostname p;
         "  User " +:+ Prov.SSHUser p; "  IdentityFile " +:+ GetKeyPath env a]
        ++ Split rest LF).
  { intros rest.
    replace (nl +:+ "Host " +:+ GetSSHHost a +:+ nl
             +:+ "  HostName " +:+ Prov.Hostname p +:+ nl
             +:+ "  User " +:+ Prov.SSHUser p +:+ nl
             +:+ "  IdentityFile " +:+ GetKeyPath env a +:+ String LF rest)
      with (EmptyString +:+ String LF (("Host " +:+ GetSSHHost a) +:+ String LF
              (("  HostName " +:+ Prov.Hostname p) +:+ String LF
                 (("  User " +:+ Prov.SSHUser p) +:+ String LF
                    (("  IdentityFile " +:+ GetKeyPath env a) +:+ String LF rest)))))
      by (unfold nl; rewrite !app_assoc_s; reflexivity).
    rewrite !Split_app.
    rewrite (Split_one_line ("Host " +:+ GetSSHHost a))
      by now apply Contains_byte_app.
    rewrite (Split_one_line ("  HostName " +:+ Prov.Hostname p))
      by now apply Contains_byte_app.
    rewrite (Split_one_line ("  User " +:+ Prov.SSHUser p))
      by now apply Contains_byte_app.
    rewrite (Split_one_line ("  IdentityFile " +:+ GetKeyPath env a))
      by now apply Contains_byte_app.
    reflexivity. }
  destruct (decide (Prov.SSHPort p = EmptyString \/ Prov.SSHPort p = "22"))
    as [Hdefault|Hset].
  - replace (negb (String.eqb (Prov.SSHPort p) EmptyString)
             && negb (String.eqb (Prov.SSHPort p) "22")) with false.
    + rewrite !app_assoc_s. apply (Hlines EmptyString).
    + destruct Hdefault as [->| ->]; reflexivity.
  - replace (negb (String.eqb (Prov.SSHPort p) EmptyString)
             && negb (String.eqb (Prov.SSHPort p) "22")) with true.
    + rewrite !app_assoc_s.
      change (nl +:+ "  Port " +:+ Prov.SSHPort p +:+ nl)
        with (String LF (("  Port " +:+ Prov.SSHPort p) +:+ String LF EmptyString)).
      rewrite Hlines, Split_app.
      rewrite (Split_one_line ("  Port " +:+ Prov.SSHPort p))
        by now apply Contains_byte_app.
      reflexivity.
    + destruct (String.eqb_spec (Prov.SSHPort p) EmptyString) as [E|_]; [tauto|].
      destruct (String.eqb_spec (Prov.SSHPort p) "22") as [E|_]; [tauto|].
      reflexivity.
Qed.

Lemma GenerateSSHConfig_lines_witness :
  Split (GenerateSSHConfig sample_env sample_custom) LF
  = [EmptyString; "Host git.acme.io-work"; "  HostName git.acme.io";
     "  User git"; "  IdentityFile /home/u/.ssh/id_ed25519_acme_work";
     "  Port 2222"; EmptyString].
Proof.
  exact (GenerateSSHConfig_lines sample_env sample_custom
           eq_refl eq_refl eq_refl eq_refl eq_refl).
Defined.

Lemma migrate_fold (l : list Account) (c2 : ConfigV2) :
  let c2' :=
    fold_left
      (fun newConfig oldAccount =>
         {| V2.Accounts := V2.Accounts newConfig ++ [upgradeAccount oldAccount];
            V2.CurrentAccount := V2.CurrentAccount newConfig;
            V2.MigrationDone := V2.MigrationDone newConfig;
            V2.ConfigVersion := V2.ConfigVersion newConfig |}) l c2 in
  V2.Accounts c2' = V2.Accounts c2 ++ map upgradeAccount l
  /\ V2.CurrentAccount c2' = V2.CurrentAccount c2
  /\ V2.MigrationDone c2' = V2.MigrationDone c2
  /\ V2.ConfigVersion c2' = V2.ConfigVersion c2.
Proof.
  revert c2; induction l as [|a l IH]; intros c2; simpl.
  - now rewrite app_nil_r.
  - destruct (IH {| V2.Accounts := V2.Accounts c2 ++ [upgradeAccount a];
                    V2.CurrentAccount := V2.CurrentAccount c2;
                    V2.MigrationDone := V2.MigrationDone c2;
                    V2.ConfigVersion := V2.ConfigVersion c2 |})
      as (H1 & H2 & H3 & H4).
    simpl in *. rewrite H1, <- app_assoc. now repeat split.
Qed.

(** X13. [migrateConfigToV2] keeps the accounts with their names and their
    order, the current account and the migration mark; every account
    becomes a GitHub account, whose host alias is the one the old format
    uses and whose host block, for an account with a key path, is the
    block [generateSSHKey] writes less its first empty line. *)
Theorem migrateConfigToV2_keeps_the_store (env : environment) (oldConfig : Config) :
  let newConfig := migrateConfigToV2 oldConfig in
  map V2.Name (V2.Accounts newConfig) = map Name (Accounts oldConfig)
  /\ V2.CurrentAccount newConfig = CurrentAccount oldConfig
  /\ V2.MigrationDone newConfig = MigrationDone oldConfig
  /\ V2.ConfigVersion newConfig = 2%Z
  /\ Forall2 (fun old new =>
                V2.Email new = Email old /\ V2.Username new = Username old
                /\ V2.SSHKey new = SSHKey old /\ V2.IsDefault new = IsDefault old
                /\ V2.Provider new = github
                /\ "Host " +:+ GetSSHHost new = hostLine (Name old)
                /\ (SSHKey old <> EmptyString ->
                    nl +:+ GenerateSSHConfig env new
                    = sshConfigSnippet (Name old) (SSHKey old)))
       (Accounts oldConfig) (V2.Accounts newConfig).
Proof.
  unfold migrateConfigToV2.
  destruct (migrate_fold (Accounts oldConfig)
              {| V2.Accounts := []; V2.CurrentAccount := CurrentAccount oldConfig;
                 V2.MigrationDone := MigrationDone oldConfig;
                 V2.ConfigVersion := 2 |}) as (H1 & H2 & H3 & H4).
  cbv zeta. rewrite H1, H2, H3, H4. simpl.
  repeat split.
  - rewrite map_map. reflexivity.
  - clear. induction (Accounts oldConfig) as [|old l IH]; simpl; [constructor|].
    constructor; [|exact IH].
    repeat split. intros Hkey.
    unfold GenerateSSHConfig, GetKeyPath, GetSSHHost, sshConfigSnippet, upgradeAccount.
    cbn [V2.Provider V2.SSHKey V2.Name]. rewrite DefaultProviders_github.
    destruct (String.eqb_spec (SSHKey old) EmptyString) as [E|_]; [congruence|].
    unfold nl. simpl. rewrite !app_assoc_s. reflexivity.
Qed.

Lemma migrateConfigToV2_keeps_the_store_witness :
  nl +:+ GenerateSSHConfig sample_env (upgradeAccount sample_work)
  = sshConfigSnippet "work" "/home/u/.ssh/id_work".
Proof.
  destruct (migrateConfigToV2_keeps_the_store sample_env sample_store)
    as (_ & _ & _ & _ & H).
  assert (H' := H : Forall2 _ [sample_work] [upgradeAccount sample_work]).
  apply Forall2_cons_1 in H' as [(_ & _ & _ & _ & _ & _ & Hblock) _].
  apply Hblock. discriminate.
Defined.

Lemma isValidHostname_shape_witness : Contains "git.acme.io" "://" = false.
Proof.
  exact (proj2 (isValidHostname_shape (fun _ => true) "git.acme.io") eq_refl).
Defined.

(** ** Discovery of the host blocks the tool writes *)

Lemma scanLine_skip st line c r :
  TrimSpace line = String c r -> c <> "H"%char -> c <> "U"%char ->
  scanLine st line = st.
Proof.
  intros Hline HH HU. unfold scanLine. rewrite Hline. simpl.
  destruct (Ascii.eqb_spec c "H"); [congruence|].
  destruct (Ascii.eqb_spec c "U"); [congruence|]. reflexivity.
Qed.

Lemma scanLine_empty st : scanLine st EmptyString = st.
Proof. reflexivity. Qed.

(** The scan of the lines of a host block, from any state of the loop. *)
Lemma scan_snippet name keyPath st :
  TrimRightSpace name = name ->
  Contains name nl = false -> Contains keyPath nl = false ->
  accounts (fold_left scanLine
              (Split (nl +:+ sshConfigSnippet name keyPath) LF) st)
  = accounts st
    ++ (if decide (name = EmptyString \/ name = "github.com") then []
        else [discoveredBlock name]).
Proof.
  intros Htrim Hname Hkey. unfold sshConfigSnippet.
  replace (nl +:+ nl +:+ nl +:+ "Host github.com-" +:+ name +:+ nl
           +:+ "  HostName github.com" +:+ nl +:+ "  User git" +:+ nl
           +:+ "  IdentityFile " +:+ keyPath +:+ nl)
    with (EmptyString +:+ String LF (EmptyString +:+ String LF
            (EmptyString +:+ String LF (hostLine name +:+ String LF
            ("  HostName github.com" +:+ String LF ("  User git" +:+ String LF
               (("  IdentityFile " +:+ keyPath) +:+ String LF EmptyString)))))))
    by (unfold hostLine, nl; rewrite !app_assoc_s; reflexivity).
  rewrite !Split_app.
  rewrite (Split_one_line (hostLine name)) by now apply hostLine_one_line.
  rewrite (Split_one_line ("  IdentityFile " +:+ keyPath))
    by now apply Contains_byte_app.
  rewrite (Split_one_line "  HostName github.com") by reflexivity.
  rewrite (Split_one_line "  User git") by reflexivity.
  simpl (Split EmptyString LF). cbn [app fold_left].
  rewrite !scanLine_empty.
  assert (Hhost : scanLine st (hostLine name)
                  = {| currentHost := "github.com-" +:+ name;
                       currentUser := EmptyString; accounts := accounts st |}).
  { unfold scanLine. rewrite (hostLine_trimmed _ Htrim). unfold hostLine.
    rewrite HasPrefix_app. reflexivity. }
  rewrite Hhost.
  set (st1 := {| currentHost := "github.com-" +:+ name;
                 currentUser := EmptyString; accounts := accounts st |}).
  change (scanLine st1 "  HostName github.com") with st1.
  assert (Hskip : forall st', scanLine st' ("  IdentityFile " +:+ keyPath) = st').
  { intros st'.
    destruct (TrimRightSpace_head "I" ("dentityFile " +:+ keyPath) eq_refl eq_refl) as [r Hr].
    apply (scanLine_skip st' _ "I" r); [exact Hr | discriminate | discriminate]. }
  rewrite Hskip.
  unfold scanLine, st1, TrimPrefix. simpl.
  destruct (decide (name = EmptyString \/ name = "github.com")) as [Hbad|Hgood].
  - rewrite app_nil_r. destruct Hbad as [-> | ->]; reflexivity.
  - destruct (String.eqb_spec name EmptyString) as [E|_]; [tauto|].
    destruct (String.eqb_spec name "github.com") as [E|_]; [tauto|].
    reflexivity.
Qed.

(** X14. What [generateSSHKey] appends to the SSH client configuration,
    [discoverSSHAccounts] finds: after the append the scan yields what it
    yielded before and one more entry, with the SSH user [git] as user
    name and the host alias as source -- except for an account with the
    name [github.com], whose block the scan passes over. *)
Theorem discovery_after_append (env : environment) (name keyPath : string)
    (w w' : world) :
  name <> EmptyString ->
  TrimRightSpace name = name ->
  Contains name nl = false -> Contains keyPath nl = false ->
  appendSSHConfig env name keyPath w = (Ok tt, w') ->
  discoverSSHAccounts env (fs w')
  = discoverSSHAccounts env (fs w)
    ++ (if decide (name = "github.com") then [] else [discoveredBlock name]).
Proof.
  intros Hne Htrim Hname Hkey H.
  pose proof (appendSSHConfig_text _ _ _ _ _ H) as Htext.
  apply appendSSHConfig_inv in H as (w1 & _ & _ & _ & H1 & _).
  apply ensureSSHDirectory_inv in H1 as [(e & [=] & _)|(home & _ & Hhome & _)].
  unfold discoverSSHAccounts. rewrite Hhome.
  unfold sshConfigPath, homeDir, sshConfigText, sshConfigPath, homeDir in Htext.
  rewrite Hhome in Htext. rewrite Htext.
  set (init := {| currentHost := EmptyString; currentUser := EmptyString;
                  accounts := [] |}).
  assert (Hscan : forall text,
    accounts (fold_left scanLine
                (Split (text +:+ sshConfigSnippet name keyPath) LF) init)
    = accounts (fold_left scanLine (Split text LF) init)
      ++ (if decide (name = "github.com") then [] else [discoveredBlock name])).
  { intros text.
    set (rest := nl +:+ "Host github.com-" +:+ name +:+ nl
                 +:+ "  HostName github.com" +:+ nl +:+ "  User git" +:+ nl
                 +:+ "  IdentityFile " +:+ keyPath +:+ nl).
    pose proof (scan_snippet name keyPath (fold_left scanLine (Split text LF) init)
                  Htrim Hname Hkey) as Hs.
    change (nl +:+ sshConfigSnippet name keyPath)
      with (EmptyString +:+ String LF (EmptyString +:+ String LF rest)) in Hs.
    rewrite !Split_app in Hs. cbn [Split app fold_left] in Hs.
    rewrite !scanLine_empty in Hs.
    change (sshConfigSnippet name keyPath) with (String LF rest).
    rewrite Split_app, fold_left_app.
    rewrite Hs.
    destruct (decide (name = EmptyString \/ name = "github.com")) as [[?|?]|Hn];
      destruct (decide (name = "github.com")); try tauto; try congruence. }
  destruct (ReadFile (fs w) (filepath_Join [home; ".ssh"; "config"])) as [text|].
  - apply Hscan.
  - apply (Hscan EmptyString).
Qed.

Lemma discovery_after_append_witness :
  discoverSSHAccounts sample_env
    (fs (snd (appendSSHConfig sample_env "work" "/home/u/.ssh/id_work"
                (sample_world home_only []))))
  = [discoveredBlock "work"].
Proof.
  refine (discovery_after_append sample_env "work" "/home/u/.ssh/id_work"
            (sample_world home_only []) _ _ _ _ _ _).
  - discriminate.
  - reflexivity.
  - reflexivity.
  - reflexivity.
  - vm_compute. reflexivity.
Defined.

(** ** The listing of the conditional includes *)














(** ** The configuration of a directory *)

Lemma WriteFile_inv env path data perm (f f' : gmap string node) :
  WriteFile env path data perm f = Some f' ->
  isDir f path = false
  /\ ReadFile f' path = Some data
  /\ (forall q, q <> path -> f' !! q = f !! q)
  /\ (forall q, is_Some (f !! q) -> is_Some (f' !! q)).
Proof.
  intros H. pose proof (WriteFile_read _ _ _ _ _ _ H) as Hread.
  unfold WriteFile, isDir in *.
  assert (Hother : forall n, (forall q, q <> path -> <[path := n]> f !! q = f !! q)
                             /\ (forall q, is_Some (f !! q) ->
                                           is_Some (<[path := n]> f !! q))).
  { intros n. split; [intros q Hq; now apply lookup_insert_ne|].
    intros q Hq. destruct (decide (q = path)) as [->|Hne].
    - rewrite lookup_insert_eq. eauto.
    - now rewrite lookup_insert_ne. }
  destruct (f !! path) as [[content mode|mode]|]; [| discriminate |];
    [|destruct (parentIsDir f path); [|discriminate]];
    injection H as <-; (split; [reflexivity|]); (split; [exact Hread|]);
    apply Hother.
Qed.

Lemma WriteFile_directory env path data perm (f : gmap string node) :
  isDir f path = true -> WriteFile env path data perm f = None.
Proof.
  unfold isDir, WriteFile.
  destruct (f !! path) as [[content mode|mode]|]; try discriminate. reflexivity.
Qed.

Lemma addConditionalInclude_other env d p w w' q :
  addConditionalInclude env d p w = (Ok tt, w') ->
  q <> globalConfigPath env -> fs w' !! q = fs w !! q.
Proof.
  unfold addConditionalInclude. intros H Hq.
  erewrite bind_Ok in H by reflexivity.
  match type of H with (if ?b then _ else _) _ = _ => destruct b end.
  - rewrite println_run in H. now injection H as <-.
  - apply bind_inv in H as [([] & w1 & H1 & H)|(e & _ & [=])].
    apply println_fs in H. rewrite H.
    destruct (OpenFile_append env (globalConfigPath env) (octal 6 4 4) (fs w))
      as [f|] eqn:Hopen; [|discriminate].
    injection H1 as <-. simpl. rewrite WriteString_other by exact Hq.
    destruct (OpenFile_append_file _ _ _ _ _ Hopen) as (? & ? & _ & _ & Hother & _).
    now apply Hother.
Qed.

(** X16. What [setupDirectoryConfig] leaves behind.  It writes the [user]
    section first and the conditional include second.  A directory at
    the path of the [.gitconfig] makes it fail with the world unchanged,
    and a directory at the path of the global git configuration makes it
    fail as well.  When it fails, either the world is unchanged or the
    include failed with the directory's own [.gitconfig] already
    written.  When it succeeds, the stanza of the directory is in the
    global configuration and the files other than these two are as
    before.  For the home directory itself, where the two paths are one,
    the [user] section has replaced the global configuration before the
    stanza was appended to it. *)
Theorem setupDirectoryConfig_effect (env : environment) (dirPath : string)
    (account : Account) (w : world) :
  let gitConfigPath := filepath_Join [dirPath; ".gitconfig"] in
  (isDir (fs w) gitConfigPath = true ->
   setupDirectoryConfig env dirPath account w = (Err ErrCreateGitconfig, w))
  /\ (isDir (fs w) (globalConfigPath env) = true ->
      exists e w', setupDirectoryConfig env dirPath account w = (Err e, w'))
  /\ (forall e w',
        setupDirectoryConfig env dirPath account w = (Err e, w') ->
        (e = ErrCreateGitconfig /\ w' = w)
        \/ (e = ErrWrap "failed to add conditional include" ErrOpenGitconfig
            /\ ReadFile (fs w') gitConfigPath = Some (userSection account)
            /\ (forall q, q <> gitConfigPath -> fs w' !! q = fs w !! q)))
  /\ (forall w',
        setupDirectoryConfig env dirPath account w = (Ok tt, w') ->
        Contains (globalConfigText env w') ("gitdir:" +:+ gitDirPattern dirPath)
        = true
        /\ (forall q, q <> gitConfigPath -> q <> globalConfigPath env ->
            fs w' !! q = fs w !! q)
        /\ (gitConfigPath <> globalConfigPath env ->
            ReadFile (fs w') gitConfigPath = Some (userSection account))
        /\ (gitConfigPath = globalConfigPath env ->
            Contains (userSection account) ("gitdir:" +:+ gitDirPattern dirPath)
            = false ->
            globalConfigText env w'
            = userSection account
              +:+ includeSection (gitDirPattern dirPath) gitConfigPath)).
Proof.
  intros gitConfigPath. unfold setupDirectoryConfig. fold gitConfigPath.
  fold (userSection account).
  assert (Hfirst : forall k : M unit,
    bind (fun w0 : world =>
            match WriteFile env gitConfigPath (userSection account) (octal 6 4 4)
                    (fs w0) with
            | Some f0 => (Ok tt, set_fs f0 w0)
            | None => (Err ErrCreateGitconfig, w0)
            end) (fun _ => k) w
    = match WriteFile env gitConfigPath (userSection account) (octal 6 4 4)
              (fs w) with
      | Some f0 => k (set_fs f0 w)
      | None => (Err ErrCreateGitconfig, w)
      end).
  { intros k. unfold bind.
    now destruct (WriteFile env gitConfigPath (userSection account) (octal 6 4 4)
                    (fs w)). }
  rewrite Hfirst. clear Hfirst.
  (* the steps after the include only print *)
  assert (Htail : forall (m : M unit) w1 r w',
    (m >>>
     println ("✅ Directory '" +:+ dirPath +:+ "' configured for account '"
                +:+ Name account +:+ "'") >>>
     println ("👤 Name: " +:+ Username account) >>>
     println ("📧 Email: " +:+ Email account) >>>
     println ("📁 Config file: " +:+ gitConfigPath) >>>
     println ("🔗 SSH Host: github.com-" +:+ Name account) >>>
     println (nl +:+ "💡 Git will automatically use these settings in this directory!"))
      w1 = (r, w') ->
    (exists e, m w1 = (Err e, w') /\ r = Err e)
    \/ (exists w2, m w1 = (Ok tt, w2) /\ r = Ok tt /\ fs w' = fs w2)).
  { intros m w1 r w' H.
    apply bind_inv in H as [([] & w2 & Hm & H)|(e & Hm & ->)]; [|left; eauto].
    right. exists w2. split; [exact Hm|].
    repeat (apply bind_inv in H as [([] & ? & Hq & H)|(e & Hq & _)];
            [apply println_fs in Hq; rewrite <- Hq; clear Hq
            |rewrite println_run in Hq; discriminate Hq]).
    rewrite println_run in H. now injection H as <- <-. }
  destruct (WriteFile env gitConfigPath (userSection account) (octal 6 4 4) (fs w))
    as [f|] eqn:Hw.
  - destruct (WriteFile_inv _ _ _ _ _ _ Hw) as (Hd & Hread & Hother & _).
    split; [rewrite Hd; discriminate|].
    split; [|split].
    + intros Hg.
      assert (Hg' : isDir (fs (set_fs f w)) (globalConfigPath env) = true).
      { unfold isDir in *. simpl.
        destruct (decide (globalConfigPath env = gitConfigPath)) as [E|Hne].
        - rewrite E in Hg. congruence.
        - now rewrite Hother. }
      eexists _, _. erewrite bind_Err; [reflexivity|].
      unfold wrap. now rewrite (addConditionalInclude_directory _ _ _ _ Hg').
    + intros e w' H. right.
      apply Htail in H as [(e' & Hm & [= <-])|(w2 & _ & [=] & _)].
      unfold wrap in Hm.
      destruct (addConditionalInclude env dirPath gitConfigPath (set_fs f w))
        as [[[]|e0] w1] eqn:Hrun; [discriminate|].
      injection Hm as <- <-.
      pose proof (addConditionalInclude_fails _ _ _ _ _ _ Hrun) as ->.
      assert (He0 : e0 = ErrOpenGitconfig).
      { clear -Hrun. unfold addConditionalInclude in Hrun.
        erewrite bind_Ok in Hrun by reflexivity.
        match type of Hrun with (if ?b then _ else _) _ = _ => destruct b end.
        - rewrite println_run in Hrun. discriminate.
        - apply bind_inv in Hrun as [([] & w1 & _ & H)|(e' & H1 & He)].
          + rewrite println_run in H. discriminate.
          + destruct (OpenFile_append env (globalConfigPath env) (octal 6 4 4)
                        (fs (set_fs f w))); [discriminate|].
            congruence. }
      subst e0. split; [reflexivity|]. split; [exact Hread | exact Hother].
    + intros w' H.
      apply Htail in H as [(e' & _ & [=])|(w2 & Hm & _ & Hfs)].
      apply wrap_inv in Hm.
      destruct (addConditionalInclude_effect _ _ _ _ _ Hm) as (_ & Heff).
      pose proof (addConditionalInclude_present _ _ _ _ _ Hm) as [_ Hc].
      split; [now rewrite (globalConfigText_fs _ _ _ Hfs)|].
      split; [|split].
      * intros q Hq1 Hq2. rewrite Hfs.
        rewrite (addConditionalInclude_other _ _ _ _ _ q Hm Hq2). simpl.
        now apply Hother.
      * intros Hne. rewrite Hfs. unfold ReadFile.
        rewrite (addConditionalInclude_other _ _ _ _ _ gitConfigPath Hm Hne).
        exact Hread.
      * intros E Hfresh. rewrite (globalConfigText_fs _ _ _ Hfs).
        assert (Htext : globalConfigText env (set_fs f w) = userSection account).
        { unfold globalConfigText. simpl. now rewrite <- E, Hread. }
        rewrite Htext, Hfresh in Heff. now destruct Heff as [-> _].
  - split; [reflexivity|]. split; [eauto|]. split.
    + intros e w' [= <- <-]. now left.
    + intros w' [=].
Qed.

Lemma setupDirectoryConfig_effect_witness :
  globalConfigText sample_env
    (snd (setupDirectoryConfig sample_env "/home/u" sample_work
            (sample_world home_with_gitconfig [])))
  = userSection sample_work +:+ includeSection "/home/u/" "/home/u/.gitconfig".
Proof.
  destruct (setupDirectoryConfig_effect sample_env "/home/u" sample_work
              (sample_world home_with_gitconfig [])) as (_ & _ & _ & H).
  destruct (H (snd (setupDirectoryConfig sample_env "/home/u" sample_work
                      (sample_world home_with_gitconfig []))))
    as (_ & _ & _ & Hhome); [reflexivity|].
  apply Hhome; reflexivity.
Defined.

(** ** Removal of an account, confirmed *)





(** ** The offer to update the SSH client configuration *)

Lemma appendSSHConfig_fails env name keyPath w e w' :
  appendSSHConfig env name keyPath w = (Err e, w') ->
  kind e = IOFailure
  /\ procs w' = procs w /\ stdin w' = stdin w
  /\ sshConfigText env w' = sshConfigText env w
  /\ (forall p, is_Some (fs w !! p) -> is_Some (fs w' !! p)).
Proof.
  unfold appendSSHConfig. intros H.
  apply bind_inv in H as [([] & w1 & H1 & H)|(e1 & H1 & [= <-])].
  - destruct (ensureSSHDirectory_keeps _ _ _ H1) as (Hin & _ & Hpr & Hkeep & Hread).
    apply bind_inv in H as [([] & w2 & _ & H)|(e2 & H2 & [= <-])].
    + rewrite println_run in H. discriminate.
    + destruct (OpenFile_append env (sshConfigPath env) (octal 6 4 4) (fs w1));
        [discriminate|]. injection H2 as <- <-.
      repeat split; try assumption.
      * unfold sshConfigText. now rewrite Hread.
      * intros p [n Hn]. rewrite (Hkeep _ _ Hn). eauto.
  - apply ensureSSHDirectory_inv in H1
      as [(e' & [= <-] & -> & Hk)|(? & ? & _ & _ & [=] & _)].
    now repeat split.
Qed.

(** X18. The answer to the offer of [generateSSHKey].  Any answer other than
    "y" and the empty line -- in any case, with white space around it --
    declines: one line is read, no file is touched and the call
    succeeds.  "y", the empty line and the end of the input accept; if
    the append then fails, the call fails with an I/O error, the
    configuration is as it was and every file is still there, the new
    key pair among them. *)
Theorem generateSSHKey_config_answer (env : environment)
    (name keyPath pubKey : string) (w : world) :
  let resp := ToLower (TrimSpace (hd EmptyString (stdin w))) in
  (resp <> "y" -> resp <> EmptyString ->
   exists w',
     generateSSHKey_config env name keyPath pubKey w = (Ok tt, w')
     /\ fs w' = fs w /\ procs w' = procs w /\ stdin w' = tl (stdin w))
  /\ (resp = "y" \/ resp = EmptyString ->
      forall r w',
        generateSSHKey_config env name keyPath pubKey w = (r, w') ->
        procs w' = procs w /\ stdin w' = tl (stdin w)
        /\ (forall p, is_Some (fs w !! p) -> is_Some (fs w' !! p))
        /\ match r with
           | Ok _ => sshConfigText env w'
                     = sshConfigText env w +:+ sshConfigSnippet name keyPath
           | Err e => kind e = IOFailure
                      /\ sshConfigText env w' = sshConfigText env w
           end).
Proof.
  intros resp. unfold generateSSHKey_config. split.
  - intros Hy He.
    erewrite bind_Ok by apply print_run.
    erewrite bind_Ok by apply readLine_run.
    cbn [stdin]. fold resp.
    apply String.eqb_neq in Hy, He. rewrite Hy, He. cbn [orb].
    repeat erewrite bind_Ok by apply println_run.
    eexists. split; [apply print_run|]. simpl. now repeat split.
  - intros Hyes r w' H.
    erewrite bind_Ok in H by apply print_run.
    erewrite bind_Ok in H by apply readLine_run.
    cbn [stdin] in H. fold resp in H.
    assert (Hc : String.eqb resp "y" || String.eqb resp EmptyString = true).
    { destruct Hyes as [-> | ->]; reflexivity. }
    rewrite Hc in H. clear Hc.
    match type of H with
    | bind _ _ ?wx = _ =>
        set (w0 := wx) in H;
        assert (Hw0 : fs w0 = fs w /\ procs w0 = procs w /\ stdin w0 = tl (stdin w))
          by now repeat split
    end.
    destruct Hw0 as (Hfs0 & Hpr0 & Hin0).
    assert (Htext0 : sshConfigText env w0 = sshConfigText env w)
      by (unfold sshConfigText; now rewrite Hfs0).
    apply bind_inv in H as [([] & w1 & H1 & H)|(e & H1 & ->)].
    + pose proof (appendSSHConfig_text _ _ _ _ _ H1) as Htext.
      assert (Hkeep : forall p, is_Some (fs w !! p) -> is_Some (fs w1 !! p)).
      { intros p Hp. eapply appendSSHConfig_keeps; [exact H1|]. now rewrite Hfs0. }
      apply appendSSHConfig_inv in H1
        as (? & ? & ? & ? & _ & _ & _ & _ & _ & _ & _ & _ & Hin1 & Hpr1).
      repeat erewrite bind_Ok in H by apply println_run.
      rewrite print_run in H. injection H as Hr Hw. rewrite <- Hr, <- Hw. simpl.
      split; [congruence|]. split; [congruence|]. split; [exact Hkeep|].
      unfold sshConfigText at 1. simpl. rewrite Htext. now rewrite Htext0.
    + destruct (appendSSHConfig_fails _ _ _ _ _ _ H1) as (Hk & Hpr & Hin & Ht & Hkeep).
      split; [congruence|]. split; [congruence|].
      split; [intros p Hp; apply Hkeep; now rewrite Hfs0|].
      split; [exact Hk | congruence].
Qed.

Lemma generateSSHKey_config_answer_witness :
  fs (snd (generateSSHKey_config sample_env "work" "/home/u/.ssh/id_work" "KEY"
             (sample_world home_with_key ["no"])))
  = home_with_key.
Proof.
  destruct (generateSSHKey_config_answer sample_env "work" "/home/u/.ssh/id_work"
              "KEY" (sample_world home_with_key ["no"])) as [H _].
  destruct H as (w' & Hrun & Hfs & _); [discriminate | discriminate |].
  rewrite Hrun. exact Hfs.
Defined.

(** ** The selection of the accounts to migrate *)

Lemma quiet_ret {A} (a : A) : quiet (ret a).
Proof. intros w. exists a, w. now repeat split. Qed.

Lemma quiet_print text : quiet (print text).
Proof. intros w. eexists tt, _. split; [apply print_run|]. now repeat split. Qed.

Lemma quiet_bind {A B} (m : M A) (k : A -> M B) :
  quiet m -> (forall a, quiet (k a)) -> quiet (bind m k).
Proof.
  intros Hm Hk w. destruct (Hm w) as (a & w1 & H1 & Hf & Hi & Hp).
  destruct (Hk a w1) as (b & w2 & H2 & Hf2 & Hi2 & Hp2).
  exists b, w2. split; [now erewrite bind_Ok by exact H1|].
  repeat split; congruence.
Qed.

Lemma quiet_forEachFrom {A} (l : list A) body i :
  (forall j x, quiet (body j x)) -> quiet (forEachFrom i l body).
Proof.
  intros Hbody. revert i; induction l as [|x l IH]; intros i; simpl.
  - apply quiet_ret.
  - apply quiet_bind; [apply Hbody | intros _; apply IH].
Qed.

(** One answer is parsed without touching the world beyond the output,
    and what it selects is discovered. *)
Lemma parseChoices_run discovered choices selected w :
  exists sel valid w',
    parseChoices discovered choices selected w = (Ok (sel, valid), w')
    /\ fs w' = fs w /\ stdin w' = stdin w /\ procs w' = procs w
    /\ (Forall (fun a => a ∈ discovered) selected ->
        Forall (fun a => a ∈ discovered) sel).
Proof.
  revert selected w; induction choices as [|choice rest IH]; intros selected w.
  - exists selected, true, w. now repeat split.
  - cbn [parseChoices].
    assert (Hinvalid : exists sel valid w',
      (print ("❌ Invalid choice: " +:+ TrimSpace choice +:+ nl) >>>
       ret (selected, false)) w = (Ok (sel, valid), w')
      /\ fs w' = fs w /\ stdin w' = stdin w /\ procs w' = procs w
      /\ (Forall (fun a => a ∈ discovered) selected ->
          Forall (fun a => a ∈ discovered) sel)).
    { eexists selected, false, _. split; [reflexivity|]. now repeat split. }
    destruct (Atoi (TrimSpace choice)) as [index|]; [|exact Hinvalid].
    destruct ((index <? 1)%Z || (Z.of_nat (length discovered) <? index)%Z);
      [exact Hinvalid|].
    destruct (discovered !! Z.to_nat (index - 1)) as [acc|] eqn:E; [|exact Hinvalid].
    destruct (IH (selected ++ [acc]) w) as (sel & valid & w' & H & Hf & Hi & Hp & Hsub).
    exists sel, valid, w'. repeat split; try assumption.
    intros Hsel. apply Hsub. apply Forall_app. split; [exact Hsel|].
    constructor; [|constructor]. eapply list_elem_of_lookup_2; eauto.
Qed.

Lemma Itoa_nonempty n : Itoa n <> EmptyString.
Proof.
  unfold Itoa. intros H.
  assert (E : Nat.to_uint n = Decimal.Nil).
  { destruct (Nat.to_uint n); try discriminate; reflexivity. }
  pose proof (DecimalNat.Unsigned.of_to n) as Hn. rewrite E in Hn.
  cbv in Hn. subst n. discriminate E.
Qed.

(** The answers to the loop of [selectAccountsToMigrate]. *)
Lemma selectAccounts_loop_answers (discovered selected : list DiscoveredAccount)
    (w : world) :
  (forall fuel sel w',
     selectAccounts_loop fuel discovered selected w = (Ok (Some sel), w') ->
     Forall (fun a => a ∈ discovered) selected ->
     Forall (fun a => a ∈ discovered) sel)
  /\ (forall fuel,
        TrimSpace (hd EmptyString (stdin w)) = "0" ->
        fst (selectAccounts_loop (S fuel) discovered selected w) = Ok (Some selected))
  /\ (forall fuel line zero rest partial,
        stdin w = line :: zero :: rest ->
        TrimSpace line <> "0" ->
        TrimSpace line <> Itoa (length discovered + 1) ->
        (forall w0, fst (parseChoices discovered (Split (TrimSpace line) ",") [] w0)
                    = Ok (partial, false)) ->
        TrimSpace zero = "0" ->
        fst (selectAccounts_loop (S (S fuel)) discovered selected w)
        = Ok (Some partial))
  /\ (forall fuel,
        stdin w = [] ->
        fst (selectAccounts_loop fuel discovered selected w) = Ok None).
Proof.
  split; [|split; [|split]].
  - intros fuel. revert selected w.
    induction fuel as [|fuel IH]; intros selected w sel w' H Hsel; [discriminate|].
    cbn [selectAccounts_loop] in H.
    erewrite bind_Ok in H by apply print_run.
    erewrite bind_Ok in H by apply readLine_run.
    match type of H with
    | (if String.eqb ?input _ then _ else _) ?wx = _ =>
        set (answer := input) in H; set (w1 := wx) in H
    end.
    destruct (String.eqb answer "0"); [injection H as <- _; exact Hsel|].
    destruct (String.eqb answer (Itoa (length discovered + 1))).
    + injection H as <- _. apply Forall_forall. now intros a Ha.
    + destruct (parseChoices_run discovered (Split answer ",") [] w1)
        as (sel1 & valid & w2 & Hp & _ & _ & _ & Hsub).
      erewrite bind_Ok in H by exact Hp. cbn [fst snd] in H.
      specialize (Hsub (Forall_nil_2 _)).
      destruct valid; [injection H as <- _; exact Hsub|].
      exact (IH _ _ _ _ H Hsub).
  - intros fuel Hzero. cbn [selectAccounts_loop].
    erewrite bind_Ok by apply print_run.
    erewrite bind_Ok by apply readLine_run.
    cbn [stdin]. now rewrite Hzero.
  - intros fuel line zero rest partial Hin Hl1 Hl2 Hparse Hzero.
    cbn [selectAccounts_loop].
    erewrite bind_Ok by apply print_run.
    erewrite bind_Ok by apply readLine_run.
    cbn [stdin]. rewrite Hin. cbn [hd tl].
    apply String.eqb_neq in Hl1, Hl2. rewrite Hl1, Hl2.
    match goal with
    | |- fst (bind (parseChoices _ ?cs _) _ ?wx) = _ =>
        destruct (parseChoices_run discovered cs [] wx)
          as (sel1 & valid & w2 & Hp & _ & Hi & _);
        pose proof (Hparse wx) as Hv
    end.
    rewrite Hp in Hv. cbn [fst] in Hv. injection Hv as -> ->.
    erewrite bind_Ok by exact Hp. cbn [fst snd].
    erewrite bind_Ok by apply print_run.
    erewrite bind_Ok by apply readLine_run.
    cbn [stdin]. rewrite Hi. cbn [stdin hd]. now rewrite Hzero.
  - intros fuel. revert selected w.
    induction fuel as [|fuel IH]; intros selected w Hin; [reflexivity|].
    cbn [selectAccounts_loop].
    erewrite bind_Ok by apply print_run.
    erewrite bind_Ok by apply readLine_run.
    cbn [stdin]. rewrite Hin. cbn [hd tl].
    change (TrimSpace EmptyString) with EmptyString.
    change (String.eqb EmptyString "0") with false. cbv iota.
    destruct (String.eqb_spec EmptyString (Itoa (length discovered + 1))) as [E|_];
      [now destruct (Itoa_nonempty (length discovered + 1))|].
    change (Split EmptyString ",") with [EmptyString].
    cbn [parseChoices]. change (Atoi (TrimSpace EmptyString)) with (@None Z).
    erewrite bind_Ok by (erewrite bind_Ok by apply print_run; reflexivity).
    cbn [fst snd]. apply IH. reflexivity.
Qed.

Lemma selectAccounts_loop_talks fuel discovered selected :
  talks (selectAccounts_loop fuel discovered selected).
Proof.
  revert selected; induction fuel as [|fuel IH]; intros selected w r w' H.
  - injection H as _ <-. now split.
  - cbn [selectAccounts_loop] in H.
    erewrite bind_Ok in H by apply print_run.
    erewrite bind_Ok in H by apply readLine_run.
    match type of H with
    | (if String.eqb ?input _ then _ else _) ?wx = _ =>
        set (answer := input) in H; set (w1 := wx) in H
    end.
    destruct (String.eqb answer "0"); [injection H as _ <-; now split|].
    destruct (String.eqb answer (Itoa (length discovered + 1)));
      [injection H as _ <-; now split|].
    destruct (parseChoices_run discovered (Split answer ",") [] w1)
      as (sel1 & valid & w2 & Hp & Hf & _ & Hpr & _).
    erewrite bind_Ok in H by exact Hp. cbn [fst snd] in H.
    destruct valid.
    + injection H as _ <-. split; [exact Hf | exact Hpr].
    + destruct (IH _ _ _ _ H) as [Hf' Hpr'].
      split; [rewrite Hf'; exact Hf | rewrite Hpr'; exact Hpr].
Qed.

(** The list of the choices is printed, and the loop starts with an
    empty selection. *)
Lemma selectAccountsToMigrate_loop discovered w :
  exists w1,
    (forall fuel, selectAccountsToMigrate fuel discovered w
                  = selectAccounts_loop fuel discovered [] w1)
    /\ fs w1 = fs w /\ stdin w1 = stdin w /\ procs w1 = procs w.
Proof.
  assert (Hlist : quiet
    (forEachFrom 0 discovered
       (fun i acc =>
          print ("   " +:+ Itoa (i + 1) +:+ ". " +:+ Discovered.Source acc) >>>
          (if Discovered.Suggested acc then print " (recommended)" else ret tt) >>>
          println EmptyString))).
  { apply quiet_forEachFrom. intros j x.
    apply quiet_bind; [apply quiet_print|]. intros _.
    apply quiet_bind; [destruct (Discovered.Suggested x);
                       [apply quiet_print | apply quiet_ret]|].
    intros _. apply quiet_print. }
  match type of Hlist with quiet ?m =>
    destruct (Hlist {| fs := fs w; stdin := stdin w;
                       stdout := (stdout w ++ [(nl +:+ "📋 Select accounts to migrate:")
                                               +:+ nl])
                                 ++ ["   0. Skip migration" +:+ nl];
                       procs := procs w |})
      as ([] & w2 & Hrun & Hf & Hi & Hp)
  end.
  eexists. split.
  - intros fuel. unfold selectAccountsToMigrate.
    erewrite bind_Ok by apply println_run.
    erewrite bind_Ok by apply println_run.
    erewrite bind_Ok by exact Hrun.
    erewrite bind_Ok by apply print_run. reflexivity.
  - simpl. repeat split; assumption.
Qed.

(** X19. The answers to [selectAccountsToMigrate].  It touches no file and
    runs no program, and whatever it returns is taken from the
    discovered accounts.  "0" at the first question selects nothing; but
    "0" after an answer that was rejected returns the accounts that
    answer named before its first invalid choice.  And at the end of the
    input the loop does not end: however many questions it is allowed,
    it is still asking. *)
Theorem selectAccountsToMigrate_answers (discovered : list DiscoveredAccount)
    (w : world) :
  (forall fuel, talks (selectAccountsToMigrate fuel discovered))
  /\ (forall fuel sel w',
        selectAccountsToMigrate fuel discovered w = (Ok (Some sel), w') ->
        Forall (fun a => a ∈ discovered) sel)
  /\ (forall fuel,
        TrimSpace (hd EmptyString (stdin w)) = "0" ->
        fst (selectAccountsToMigrate (S fuel) discovered w) = Ok (Some []))
  /\ (forall fuel line zero rest partial,
        stdin w = line :: zero :: rest ->
        TrimSpace line <> "0" ->
        TrimSpace line <> Itoa (length discovered + 1) ->
        (forall w0, fst (parseChoices discovered (Split (TrimSpace line) ",") [] w0)
                    = Ok (partial, false)) ->
        TrimSpace zero = "0" ->
        fst (selectAccountsToMigrate (S (S fuel)) discovered w)
        = Ok (Some partial))
  /\ (forall fuel,
        stdin w = [] ->
        fst (selectAccountsToMigrate fuel discovered w) = Ok None).
Proof.
  split.
  - intros fuel w0 r w' H.
    destruct (selectAccountsToMigrate_loop discovered w0) as (w1 & Hrun & Hf & _ & Hp).
    rewrite Hrun in H.
    destruct (selectAccounts_loop_talks _ _ _ _ _ _ H) as [Hf' Hp'].
    split; congruence.
  - destruct (selectAccountsToMigrate_loop discovered w) as (w1 & Hrun & _ & Hi & _).
    destruct (selectAccounts_loop_answers discovered [] w1) as (H1 & H2 & H3 & H4).
    split; [|split; [|split]].
    + intros fuel sel w' H. rewrite Hrun in H.
      exact (H1 _ _ _ H (Forall_nil_2 _)).
    + intros fuel Hzero. rewrite Hrun. apply H2. now rewrite Hi.
    + intros fuel line zero rest partial Hin. rewrite Hrun.
      apply (H3 fuel line zero rest partial). now rewrite Hi.
    + intros fuel Hin. rewrite Hrun. apply H4. now rewrite Hi.
Qed.

Lemma selectAccountsToMigrate_answers_witness :
  fst (selectAccountsToMigrate 2 [found_global; discoveredBlock "work"]
         (sample_world home_only ["1,9"; "0"]))
  = Ok (Some [found_global]).
Proof.
  destruct (selectAccountsToMigrate_answers [found_global; discoveredBlock "work"]
              (sample_world home_only ["1,9"; "0"])) as (_ & _ & _ & H & _).
  apply (H 0 "1,9" "0" []); try reflexivity; try discriminate.
Defined.

(** ** The migration of a discovered account *)

Lemma print_either_inv (b : bool) x y w r w' :
  (if b then print x else print y) w = (r, w') ->
  fs w' = fs w /\ stdin w' = stdin w /\ procs w' = procs w.
Proof. destruct b; rewrite print_run; intros [= _ <-]; now repeat split. Qed.

(** X20. The account [migrateAccount] returns is never without a name: an
    empty answer falls back to the discovered user name, or to
    [default].  A discovered user name and a discovered email are taken
    as they are, without a question; the account is not marked as the
    default one. *)
Theorem migrateAccount_defaults (selectSSHKey : string -> M string)
    (discovered : DiscoveredAccount) (w w' : world) (account : Account) :
  migrateAccount selectSSHKey discovered w = (Ok account, w') ->
  let answer := TrimSpace (hd EmptyString (stdin w)) in
  Name account <> EmptyString
  /\ IsDefault account = false
  /\ (answer <> EmptyString -> Name account = answer)
  /\ (answer = EmptyString ->
      Name account = if String.eqb (Discovered.Username discovered) EmptyString
                     then "default" else Discovered.Username discovered)
  /\ (Discovered.Username discovered <> EmptyString ->
      Username account = Discovered.Username discovered)
  /\ (Discovered.Email discovered <> EmptyString ->
      Email account = Discovered.Email discovered).
Proof.
  intros H answer. unfold migrateAccount in H.
  erewrite bind_Ok in H by apply print_run.
  apply bind_inv in H as [([] & w1 & H1 & H)|(e & _ & [=])].
  apply print_either_inv in H1 as (_ & Hin1 & _). cbn [stdin] in Hin1.
  erewrite bind_Ok in H by apply readLine_run.
  rewrite Hin1 in H. fold answer in H.
  apply bind_inv in H as [(email & w2 & H2 & H)|(e & _ & [=])].
  apply bind_inv in H as [(username & w3 & H3 & H)|(e & _ & [=])].
  apply bind_inv in H as [(sshKey & w4 & _ & H)|(e & _ & [=])].
  do 5 (apply bind_inv in H as [([] & ? & _ & H)|(e & _ & [=])]).
  injection H as <- _. cbn [Name IsDefault Username Email].
  split; [|split; [reflexivity|split; [|split; [|split]]]].
  - destruct (String.eqb_spec answer EmptyString) as [_|Hne]; [|exact Hne].
    destruct (String.eqb_spec (Discovered.Username discovered) EmptyString);
      [discriminate | assumption].
  - intros Hne. apply String.eqb_neq in Hne. now rewrite Hne.
  - intros ->. cbn [String.eqb].
    now destruct (String.eqb (Discovered.Username discovered) EmptyString).
  - intros Hne. apply String.eqb_neq in Hne. rewrite Hne in H3.
    now injection H3 as <- _.
  - intros Hne. apply String.eqb_neq in Hne. rewrite Hne in H2.
    now injection H2 as <- _.
Qed.

(** The account made of the host block of the account [work]: with empty
    answers it is called [git], after the SSH user of the block. *)
Lemma migrateAccount_defaults_witness :
  exists account w',
    migrateAccount no_key (discoveredBlock "work")
      (sample_world home_only [EmptyString; "w@x.org"]) = (Ok account, w')
    /\ Name account = "git" /\ Username account = "git".
Proof.
  destruct (migrateAccount no_key (discoveredBlock "work")
              (sample_world home_only [EmptyString; "w@x.org"]))
    as [[account|e] w'] eqn:E; [|vm_compute in E; discriminate E].
  exists account, w'. split; [reflexivity|].
  destruct (migrateAccount_defaults no_key (discoveredBlock "work")
              (sample_world home_only [EmptyString; "w@x.org"]) _ _ E)
    as (_ & _ & _ & Hname & Huser & _).
  split; [apply Hname; reflexivity | apply Huser; discriminate].
Defined.

(** ** The offer of a migration *)

Lemma migrateEach_accounts (migrate : DiscoveredAccount -> M Account)
    selected config w config' w' :
  migrateEach migrate selected config w = (Ok config', w') ->
  exists migrated,
    config' = setAccounts (Accounts config ++ migrated) config
    /\ length migrated <= length selected.
Proof.
  revert config w; induction selected as [|acc rest IH]; intros config w; simpl.
  - intros [= <- _]. exists []. rewrite app_nil_r. split; [|simpl; lia].
    now destruct config.
  - destruct (migrate acc w) as [[a|e] w1].
    + intros H. destruct (IH _ _ H) as (migrated & -> & Hlen).
      exists (a :: migrated). cbn [Accounts setAccounts]. rewrite <- app_assoc.
      split; [reflexivity | simpl; lia].
    + erewrite bind_Ok by apply println_run. intros H.
      destruct (IH _ _ H) as (migrated & -> & Hlen).
      exists migrated. split; [reflexivity | lia].
Qed.

(** X21. [checkAndOfferMigration] against the store.  For a store that is
    marked as migrated or holds an account it does nothing at all: no
    program is run, nothing is asked or printed.  Otherwise, whatever
    the two dialogues do, a run that succeeds has stored the loaded
    store after one of two changes: marked as migrated and nothing else,
    or with accounts appended, the first one current, and marked. *)
Theorem checkAndOfferMigration_stores (env : environment)
    (selectAccounts : list DiscoveredAccount -> M (list DiscoveredAccount))
    (migrate : DiscoveredAccount -> M Account)
    (config : Config) (w w' : world) :
  loadConfig env w = (Ok config, w) ->
  (MigrationDone config = true \/ Accounts config <> [] ->
   checkAndOfferMigration env selectAccounts migrate w = (Ok tt, w))
  /\ (MigrationDone config = false -> Accounts config = [] ->
      checkAndOfferMigration env selectAccounts migrate w = (Ok tt, w') ->
      exists m,
        (m = MutMigrationSkipped \/ exists migrated, m = MutMigrationImported migrated)
        /\ ReadFile (fs w') (getConfigPath env)
           = Some (json_MarshalIndent env (applyMutation env m config))).
Proof.
  intros Hload. unfold checkAndOfferMigration.
  erewrite bind_Ok by exact Hload. split.
  - intros [-> | Hne]; [reflexivity|].
    destruct (Accounts config); [congruence|]. now rewrite orb_true_r.
  - intros -> Hacc. rewrite Hacc. cbn [orb length Nat.ltb Nat.leb].
    assert (Hskip : forall w0,
      saveConfig env (setMigrationDone true config) w0 = (Ok tt, w') ->
      exists m,
        (m = MutMigrationSkipped
         \/ exists migrated, m = MutMigrationImported migrated)
        /\ ReadFile (fs w') (getConfigPath env)
           = Some (json_MarshalIndent env (applyMutation env m config))).
    { intros w0 Hs. exists MutMigrationSkipped. split; [now left|].
      exact (saveConfig_stores _ _ _ _ Hs). }
    intros H.
    apply bind_inv in H as [(discovered & w1 & _ & H)|(e & _ & [=])].
    destruct (length discovered =? 0); [exact (Hskip _ H)|].
    do 4 (apply bind_inv in H as [([] & ? & _ & H)|(e & _ & [=])]).
    apply bind_inv in H as [(resp & w2 & _ & H)|(e & _ & [=])].
    destruct (String.eqb (ToLower (TrimSpace resp)) "n"
              || String.eqb (ToLower (TrimSpace resp)) "no");
      [exact (Hskip _ H)|].
    apply bind_inv in H as [(selected & w3 & _ & H)|(e & _ & [=])].
    destruct (length selected =? 0); [exact (Hskip _ H)|].
    apply bind_inv in H as [(config2 & w4 & Hm & H)|(e & _ & [=])].
    apply migrateEach_accounts in Hm as (migrated & -> & _).
    apply bind_inv in H as [([] & w5 & Hs & H)|(e & _ & [=])].
    apply wrap_inv, saveConfig_stores in Hs.
    assert (Hfs : fs w' = fs w5).
    { do 4 (apply bind_inv in H as [([] & ? & Hq & H)|(e & _ & [=])];
            rewrite print_run in Hq; injection Hq as <-).
      rewrite print_run in H. now injection H as <-. }
    exists (MutMigrationImported migrated). split; [right; eauto|].
    rewrite Hfs. exact Hs.
Qed.

Lemma checkAndOfferMigration_stores_witness :
  checkAndOfferMigration (sample_env_holding sample_store)
    (fun discovered => ret discovered) (migrateAccount no_key)
    (sample_world sample_repo_fs [])
  = (Ok tt, sample_world sample_repo_fs []).
Proof.
  destruct (checkAndOfferMigration_stores (sample_env_holding sample_store)
              (fun discovered => ret discovered) (migrateAccount no_key)
              sample_store (sample_world sample_repo_fs [])
              (sample_world sample_repo_fs [])) as [H _].
  - reflexivity.
  - apply H. now left.
Defined.

(** X22. [migrateCmd] on a store that holds an account: the mark of the
    migration is cleared and stored, and that is all -- the offer that
    follows finds the account and returns at once, so that no discovery
    is run and nothing is asked. *)
Theorem migrateCmd_with_accounts (env : environment)
    (selectAccounts : list DiscoveredAccount -> M (list DiscoveredAccount))
    (migrate : DiscoveredAccount -> M Account)
    (config : Config) (w w1 : world) :
  loadConfig env w = (Ok config, w) ->
  Accounts config <> [] ->
  json_Unmarshal env (json_MarshalIndent env (setMigrationDone false config))
  = Some (setMigrationDone false config) ->
  saveConfig env (setMigrationDone false config) w = (Ok tt, w1) ->
  migrateCmd env selectAccounts migrate w = (Ok tt, w1)
  /\ loadConfig env w1 = (Ok (setMigrationDone false config), w1).
Proof.
  intros Hload Hacc Hjson Hsave.
  assert (Hload1 : loadConfig env w1 = (Ok (setMigrationDone false config), w1)).
  { pose proof (saveConfig_stores _ _ _ _ Hsave) as Hread.
    unfold loadConfig.
    pose proof (notExist_read _ _ _ Hread) as E.
    now rewrite E, Hread, Hjson. }
  split; [|exact Hload1].
  unfold migrateCmd.
  erewrite bind_Ok by exact Hload.
  erewrite bind_Ok by exact Hsave.
  unfold checkAndOfferMigration.
  erewrite bind_Ok by exact Hload1.
  cbn [MigrationDone setMigrationDone Accounts orb].
  destruct (Accounts config); [congruence | reflexivity].
Qed.

Lemma migrateCmd_with_accounts_witness :
  fst (migrateCmd (sample_env_holding (setMigrationDone false sample_store))
         (fun discovered => ret discovered) (migrateAccount no_key)
         (sample_world sample_repo_fs []))
  = Ok tt.
Proof.
  destruct (migrateCmd_with_accounts
              (sample_env_holding (setMigrationDone false sample_store))
              (fun discovered => ret discovered) (migrateAccount no_key)
              (setMigrationDone false sample_store)
              (sample_world sample_repo_fs [])
              (snd (saveConfig
                      (sample_env_holding (setMigrationDone false sample_store))
                      (setMigrationDone false sample_store)
                      (sample_world sample_repo_fs [])))) as [H _].
  - reflexivity.
  - discriminate.
  - reflexivity.
  - vm_compute. reflexivity.
  - rewrite H. reflexivity.
Defined.
